(** * Bank-statement processor: validation, parsing and ledger recomputation

    Shallow embedding of the pure core of the application:
    - [src/utils/cnpjUtils.ts]   ([validateCNPJ], [formatCNPJForDisplay]),
    - [src/utils/dateUtils.ts]   ([validateDate]),
    - the currency utilities     ([validateCurrency], [parseCurrency]),
    - [src/App.tsx]              ([calculateBalances], [balanceMismatch],
                                  [filteredTransactions], [handleDataChange],
                                  [handleFileSelect], [handleProcessFile],
                                  [handleSuggestCategory],
                                  [formatDateForDisplay]),
    - [src/services/geminiService.ts] ([suggestDateCorrection],
                                  [suggestNewCategory], as oracles),
    - the table                  ([handleFieldChange], the window of rows
                                  that is rendered),
    - the header form            ([validate]),
    - the export as text         ([exportToTXT]).

    Conventions of the embedding.
    - A JavaScript string is a list of code units.  Code units are
      restricted to the range U+0000..U+00FF and represented by [ascii];
      every character class used by the program ([\d], [\D], white space,
      the literal punctuation) is decided inside that range.  The one
      code unit outside it that the program can produce, the sign of
      infinity that [toLocaleString] prints, has a stand-in
      ([infinity_sign]).
    - A JavaScript number is a value of [number]: [NaN], the two
      infinities, or a finite double, carried as the reduced fraction it
      is equal to.  Every operation that rounds in IEEE 754 binary64
      (the sum, the difference, the value of a decimal literal) rounds
      here, to nearest with ties to even, with overflow to an infinity
      and gradual underflow ([fl]).  The two zeros are identified: the
      program reads a number that can be -0 only through [x || 0] and
      through comparisons, which do not tell the zeros apart.
    - React state is explicit: a setter call is a function from the old
      state to the new one, and an [await] splits a handler into the part
      before it and the continuation that runs when the promise settles. *)

From Stdlib Require Import ZArith QArith Qabs Qreduction Qround Qpower Lqa.
From Stdlib Require Import Ascii String List Bool Lia.
From stdpp Require Import gmap strings.
Import ListNotations.

Local Open Scope Z_scope.
Local Open Scope list_scope.

(** ** Strings *)

Abbreviation jsstring := (list ascii).

(** A string literal of the source. *)
Definition str (s : string) : jsstring := list_ascii_of_string s.

Definition code (c : ascii) : Z := Z.of_N (N_of_ascii c).

(** [\d]: the ten ASCII digits. *)
Definition is_digit (c : ascii) : bool := (48 <=? code c) && (code c <=? 57).

(** [Number(c)] for a digit character [c]. *)
Definition digit_value (c : ascii) : Z := code c - 48.

Definition ascii_eqb (a b : ascii) : bool := Ascii.eqb a b.

Fixpoint jsstring_eqb (a b : jsstring) : bool :=
  match a, b with
  | [], [] => true
  | x :: a', y :: b' => ascii_eqb x y && jsstring_eqb a' b'
  | _, _ => false
  end.

(** Truthiness of a string: [!s] holds exactly for the empty string. *)
Definition is_empty (s : jsstring) : bool :=
  match s with [] => true | _ => false end.

(** White space and line terminators of ECMAScript inside the modelled
    range: TAB, LF, VT, FF, CR, SP and NBSP. *)
Definition is_space (c : ascii) : bool :=
  let n := code c in
  ((9 <=? n) && (n <=? 13)) || (n =? 32) || (n =? 160).

Fixpoint trimStart (s : jsstring) : jsstring :=
  match s with
  | c :: r => if is_space c then trimStart r else s
  | [] => []
  end.

Definition trimEnd (s : jsstring) : jsstring := rev (trimStart (rev s)).

(** [s.trim()]. *)
Definition trim (s : jsstring) : jsstring := trimEnd (trimStart s).

(** [s.includes(c)] for a one-character needle. *)
Definition includes_char (c : ascii) (s : jsstring) : bool :=
  existsb (ascii_eqb c) s.

(** [s.split(c)] for a one-character separator: the list of the pieces
    between the occurrences of [c]; it always has at least one element. *)
Fixpoint split (c : ascii) (s : jsstring) : list jsstring :=
  match s with
  | [] => [[]]
  | x :: r =>
      if ascii_eqb x c then [] :: split c r
      else match split c r with
           | g :: gs => (x :: g) :: gs
           | [] => [[x]]
           end
  end.

(** The longest prefix of digits of [s] and what follows it. *)
Fixpoint span_digits (s : jsstring) : jsstring * jsstring :=
  match s with
  | c :: r =>
      if is_digit c then let (d, t) := span_digits r in (c :: d, t)
      else ([], s)
  | [] => ([], [])
  end.

(** The value of a run of decimal digits (0 for the empty run). *)
Definition digits_value (ds : jsstring) : Z :=
  fold_left (fun acc c => 10 * acc + digit_value c) ds 0.

Fixpoint is_prefix (p s : jsstring) : bool :=
  match p, s with
  | [], _ => true
  | x :: p', y :: s' => ascii_eqb x y && is_prefix p' s'
  | _ :: _, [] => false
  end.

(** ** Numbers *)

Inductive number : Type :=
| NaN
| Num (q : Q)
| PosInf
| NegInf.

Definition isNaN (x : number) : bool :=
  match x with NaN => true | _ => false end.

(** [-x]: exact. *)
Definition num_neg (x : number) : number :=
  match x with
  | NaN => NaN
  | Num q => Num (Qred (- q))
  | PosInf => NegInf
  | NegInf => PosInf
  end.

(** *** Rounding to a double

    IEEE 754 binary64: 53 significant bits, the exponent of the last
    bit between -1074 and 971, rounding to nearest with ties to even. *)

(** The integer part of the binary logarithm of [q > 0]. *)
Definition ilog2 (q : Q) : Z :=
  let k := Z.log2 (Qnum q) - Z.log2 (Zpos (Qden q)) in
  if Qle_bool (Qpower 2 k) q then k else k - 1.

(** The integer nearest to [x >= 0], the even one of two. *)
Definition round_half_even (x : Q) : Z :=
  let f := Qfloor x in
  match Qcompare (x - inject_Z f) (1 # 2) with
  | Lt => f
  | Gt => f + 1
  | Eq => if Z.even f then f else f + 1
  end.

(** The double nearest to [q > 0]: [q] is rounded to a multiple of
    [2 ^ e], where [e] is the exponent of the last of its 53 leading
    bits and at least -1074; a result of [2 ^ 1024] or more is an
    overflow. *)
Definition fl_pos (q : Q) : number :=
  let e := Z.max (ilog2 q - 52) (-1074) in
  let m := round_half_even (q / Qpower 2 e) in
  let v := (inject_Z m * Qpower 2 e)%Q in
  if Qle_bool (Qpower 2 1024) v then PosInf else Num (Qred v).

(** The Number value for the real number [q], taken in lowest terms.
    The two zeros are not told apart. *)
Definition fl (q : Q) : number :=
  let r := Qred q in
  match Qcompare r 0 with
  | Eq => Num 0
  | Gt => fl_pos r
  | Lt => num_neg (fl_pos (- r))
  end.

(** A whole number of the source text. *)
Definition of_Z (z : Z) : number := fl (inject_Z z).

(** [x + y]: the sum, rounded. *)
Definition num_add (x y : number) : number :=
  match x, y with
  | NaN, _ | _, NaN => NaN
  | Num p, Num q => fl (p + q)
  | PosInf, NegInf | NegInf, PosInf => NaN
  | PosInf, _ | _, PosInf => PosInf
  | NegInf, _ | _, NegInf => NegInf
  end.

(** [x - y]: the difference, rounded. *)
Definition num_sub (x y : number) : number := num_add x (num_neg y).

(** [Math.abs]: exact. *)
Definition num_abs (x : number) : number :=
  match x with
  | NaN => NaN
  | Num q => Num (Qred (Qabs q))
  | PosInf | NegInf => PosInf
  end.

(** [x < y]; every comparison with [NaN] is false. *)
Definition num_ltb (x y : number) : bool :=
  match x, y with
  | NaN, _ | _, NaN => false
  | Num p, Num q => negb (Qle_bool q p)
  | NegInf, NegInf => false
  | NegInf, _ => true
  | _, NegInf => false
  | PosInf, _ => false
  | _, PosInf => true
  end.

(** [x > y]. *)
Definition num_gtb (x y : number) : bool := num_ltb y x.

(** [x <= y]. *)
Definition num_leb (x y : number) : bool :=
  match x, y with
  | NaN, _ | _, NaN => false
  | Num p, Num q => Qle_bool p q
  | NegInf, _ => true
  | _, PosInf => true
  | _, _ => false
  end.

(** [x || 0] on numbers: [0] and [NaN] are falsy. *)
Definition or_zero (x : number) : number :=
  match x with
  | NaN => Num 0
  | Num q => if Qeq_bool q 0 then Num 0 else x
  | _ => x
  end.

(** [Some r] when [s] is the character [c] followed by [r]. *)
Definition after_char (c : ascii) (s : jsstring) : option jsstring :=
  match s with
  | x :: r => if ascii_eqb x c then Some r else None
  | [] => None
  end.

(** [ExponentPart] of a [StrDecimalLiteral]: the exponent denoted by the
    longest exponent part that starts [s], and 0 when there is none. *)
Definition exponent_part (s : jsstring) : Z :=
  match s with
  | c :: r =>
      if ascii_eqb c "e" || ascii_eqb c "E" then
        let '(sg, r') :=
          match after_char "+" r, after_char "-" r with
          | Some t, _ => (1, t)
          | None, Some t => (-1, t)
          | None, None => (1, r)
          end in
        let (ds, _) := span_digits r' in
        if is_empty ds then 0 else sg * digits_value ds
      else 0
  | [] => 0
  end.

(** The value of the decimal literal with integer digits [ip], fraction
    digits [fp] and the exponent part that starts [rest], if any: the
    double nearest to the number that the literal denotes, an infinity
    when it is too large. *)
Definition decimal_value (ip fp rest : jsstring) : number :=
  let m := inject_Z (digits_value (ip ++ fp)) in
  let e := exponent_part rest - Z.of_nat (length fp) in
  fl (m * Qpower 10 e).

(** The longest prefix of [s] that is a [StrUnsignedDecimalLiteral]:
    [Infinity], digits with an optional fraction, or a fraction alone,
    the last two with an optional exponent. [NaN] when there is none. *)
Definition unsigned_literal (s : jsstring) : number :=
  if is_prefix (str "Infinity") s then PosInf
  else
    let (ip, s2) := span_digits s in
    match after_char "." s2 with
    | Some r =>
        let (fp, s3) := span_digits r in
        if is_empty ip && is_empty fp then NaN else decimal_value ip fp s3
    | None => if is_empty ip then NaN else decimal_value ip [] s2
    end.

(** [parseFloat(input)] (ECMAScript, 19.2.4): leading white space is
    skipped, the longest prefix that is a [StrDecimalLiteral] is read, and
    the result is [NaN] when no prefix is one. *)
Definition parseFloat (input : jsstring) : number :=
  let s := trimStart input in
  match after_char "+" s, after_char "-" s with
  | Some r, _ => unsigned_literal r
  | None, Some r => num_neg (unsigned_literal r)
  | None, None => unsigned_literal s
  end.

(** ** Currency utilities *)

(** The result objects [{ isValid, message? }] of the three validators.
    Messages are display text only and are kept as plain text. *)
Record ValidationResult : Type := mkResult {
  isValid : bool;
  message : option string
}.

Definition valid : ValidationResult := mkResult true None.
Definition invalid (msg : string) : ValidationResult :=
  mkResult false (Some msg).

(** [/[^0-9,.]/.test(s)]. *)
Definition is_currency_char (c : ascii) : bool :=
  is_digit c || ascii_eqb c "," || ascii_eqb c ".".

(** [(s.match(/,/g) || []).length]. *)
Definition count_commas (s : jsstring) : nat :=
  length (List.filter (ascii_eqb ",") s).

(** The loop over [thousandsGroups[1..]]. *)
Definition groups_of_three (gs : list jsstring) : bool :=
  forallb (fun g => (length g =? 3)%nat) gs.

Definition validateCurrency (value : jsstring) : ValidationResult :=
  if is_empty value || is_empty (trim value) then valid
  else
    let cleanedValue := trim value in
    if negb (forallb is_currency_char cleanedValue) then
      invalid "Use apenas números, vírgulas e pontos."
    else if (1 <? count_commas cleanedValue)%nat then
      invalid "Apenas uma vírgula é permitida."
    else if includes_char "," cleanedValue
            && (2 <? length (nth 1 (split "," cleanedValue) []))%nat then
      invalid "Apenas duas casas decimais são permitidas."
    else
      let integerPart := nth 0 (split "," cleanedValue) [] in
      if includes_char "." integerPart then
        let thousandsGroups := split "." integerPart in
        if (3 <? length (nth 0 thousandsGroups []))%nat then
          invalid "Formato de milhar inválido."
        else if negb (groups_of_three (tl thousandsGroups)) then
          invalid "Grupos de milhar devem ter 3 dígitos."
        else valid
      else valid.

(** [s.replace(/\./g, '')]. *)
Definition remove_dots (s : jsstring) : jsstring :=
  List.filter (fun c => negb (ascii_eqb c ".")) s.

(** [s.replace(',', '.')]: only the first comma is replaced. *)
Fixpoint replace_comma (s : jsstring) : jsstring :=
  match s with
  | c :: r => if ascii_eqb c "," then "."%char :: r else c :: replace_comma r
  | [] => []
  end.

Definition parseCurrency (value : jsstring) : number :=
  if is_empty value then Num 0
  else
    let normalized := replace_comma (remove_dots value) in
    let parsed := parseFloat normalized in
    if isNaN parsed then Num 0 else parsed.

(** ** CNPJ utilities *)

(** [s.replace(/[^\d]/g, '')] and [s.replace(/\D/g, '')]. *)
Definition strip_non_digits (s : jsstring) : jsstring :=
  List.filter is_digit s.

(** [/^(\d)\1+$/.test(s)]: a digit followed by one or more copies of it. *)
Definition repeated_digit (s : jsstring) : bool :=
  match s with
  | c :: (_ :: _) as r => is_digit c && forallb (ascii_eqb c) r
  | _ => false
  end.

(** [s.substring(0, n)] and [s.substring(n)]. *)
Definition substring_to (n : nat) (s : jsstring) : jsstring := firstn n s.
Definition substring_from (n : nat) (s : jsstring) : jsstring := skipn n s.

(** [Number(s.charAt(k))] on a string of digits; [charAt] out of range is
    the empty string, whose [Number] is 0. *)
Definition digit_at (s : jsstring) (k : nat) : Z :=
  match nth_error s k with
  | Some c => digit_value c
  | None => 0
  end.

(** The loop [for (let i = size; i >= 1; i--)]: [i] counts the iterations
    left, [pos] is the running weight, [sum] the accumulator. *)
Fixpoint check_loop (numbers : jsstring) (size i : nat) (pos sum : Z) : Z :=
  match i with
  | O => sum
  | S i' =>
      let sum' := sum + digit_at numbers (size - i) * pos in
      let pos' := pos - 1 in
      check_loop numbers size i' (if pos' <? 2 then 9 else pos') sum'
  end.

(** [sum % 11 < 2 ? 0 : 11 - (sum % 11)] after the loop. *)
Definition check_digit (numbers : jsstring) (size : nat) : Z :=
  let sum := check_loop numbers size size (Z.of_nat size - 7) 0 in
  if Z.rem sum 11 <? 2 then 0 else 11 - Z.rem sum 11.

Definition validateCNPJ (cnpj : jsstring) : ValidationResult :=
  if is_empty cnpj then valid
  else
    let cnpjClean := strip_non_digits cnpj in
    if negb (length cnpjClean =? 14)%nat then
      invalid "O CNPJ deve ter 14 números."
    else if repeated_digit cnpjClean then
      invalid "CNPJ inválido (dígitos repetidos)."
    else
      let size := (length cnpjClean - 2)%nat in
      let numbers := substring_to size cnpjClean in
      let digits := substring_from size cnpjClean in
      if negb (check_digit numbers size =? digit_at digits 0) then
        invalid "CNPJ inválido. Verifique os números."
      else
        let size := (size + 1)%nat in
        let numbers := substring_to size cnpjClean in
        if negb (check_digit numbers size =? digit_at digits 1) then
          invalid "CNPJ inválido. Verifique os números."
        else valid.

(** [.replace(/^(\d{2})(\d)/, '$1.$2')]. *)
Definition mask_dot1 (s : jsstring) : jsstring :=
  match s with
  | a :: b :: c :: r =>
      if is_digit a && is_digit b && is_digit c
      then a :: b :: "."%char :: c :: r else s
  | _ => s
  end.

(** [.replace(/^(\d{2})\.(\d{3})(\d)/, '$1.$2.$3')]. *)
Definition mask_dot2 (s : jsstring) : jsstring :=
  match s with
  | a :: b :: p :: c :: d :: e :: f :: r =>
      if is_digit a && is_digit b && ascii_eqb p "."
         && is_digit c && is_digit d && is_digit e && is_digit f
      then a :: b :: p :: c :: d :: e :: "."%char :: f :: r else s
  | _ => s
  end.

(** [.replace(/\.(\d{3})(\d)/, '.$1/$2')]: the pattern is not anchored
    and not global, so the leftmost occurrence is rewritten. *)
Fixpoint mask_slash (s : jsstring) : jsstring :=
  match s with
  | p :: r =>
      match r with
      | a :: b :: c :: d :: t =>
          if ascii_eqb p "." && is_digit a && is_digit b && is_digit c
             && is_digit d
          then p :: a :: b :: c :: "/"%char :: d :: t
          else p :: mask_slash r
      | _ => p :: mask_slash r
      end
  | [] => []
  end.

(** [.replace(/(\d{4})(\d)/, '$1-$2')]: leftmost run of five digits. *)
Fixpoint mask_dash (s : jsstring) : jsstring :=
  match s with
  | a :: r =>
      match r with
      | b :: c :: d :: e :: t =>
          if is_digit a && is_digit b && is_digit c && is_digit d
             && is_digit e
          then a :: b :: c :: d :: "-"%char :: e :: t
          else a :: mask_dash r
      | _ => a :: mask_dash r
      end
  | [] => []
  end.

(** [.slice(0, n)]. *)
Definition slice_to (n : nat) (s : jsstring) : jsstring := firstn n s.

Definition formatCNPJForDisplay (cnpj : jsstring) : jsstring :=
  let digitsOnly := strip_non_digits cnpj in
  slice_to 18 (mask_dash (mask_slash (mask_dot2 (mask_dot1 digitsOnly)))).

(** ** Date utilities *)

(** *** Time values of ECMAScript (21.4.1): milliseconds since the epoch *)

Definition msPerDay : Z := 86400000.

Definition Day (t : Z) : Z := t / msPerDay.

Definition DaysInYear (y : Z) : Z :=
  if negb (y mod 4 =? 0) then 365
  else if negb (y mod 100 =? 0) then 366
  else if negb (y mod 400 =? 0) then 365
  else 366.

Definition DayFromYear (y : Z) : Z :=
  365 * (y - 1970) + (y - 1969) / 4 - (y - 1901) / 100 + (y - 1601) / 400.

Definition TimeFromYear (y : Z) : Z := msPerDay * DayFromYear y.

(** [YearFromTime(t)] is the largest [y] with [TimeFromYear(y) <= t]: it
    is found next to the estimate given by the mean length of a year,
    146097 days in 400 years. *)
Definition YearFromTime (t : Z) : Z :=
  let y0 := 1970 + (Day t * 400) / 146097 in
  if t <? TimeFromYear y0 then y0 - 1
  else if TimeFromYear (y0 + 1) <=? t then y0 + 1
  else y0.

(** [InLeapYear(t)], as the number 0 or 1. *)
Definition InLeapYear (t : Z) : Z :=
  if DaysInYear (YearFromTime t) =? 366 then 1 else 0.

Definition DayWithinYear (t : Z) : Z := Day t - DayFromYear (YearFromTime t).

(** The day within the year on which month [m] (0 to 11) starts; 12 gives
    the length of the year. *)
Definition month_start (leap m : Z) : Z :=
  match m with
  | 0 => 0
  | 1 => 31
  | 2 => 59 + leap
  | 3 => 90 + leap
  | 4 => 120 + leap
  | 5 => 151 + leap
  | 6 => 181 + leap
  | 7 => 212 + leap
  | 8 => 243 + leap
  | 9 => 273 + leap
  | 10 => 304 + leap
  | 11 => 334 + leap
  | _ => 365 + leap
  end.

Definition MonthFromTime (t : Z) : Z :=
  let d := DayWithinYear t in
  let leap := InLeapYear t in
  if d <? 31 then 0
  else if d <? 59 + leap then 1
  else if d <? 90 + leap then 2
  else if d <? 120 + leap then 3
  else if d <? 151 + leap then 4
  else if d <? 181 + leap then 5
  else if d <? 212 + leap then 6
  else if d <? 243 + leap then 7
  else if d <? 273 + leap then 8
  else if d <? 304 + leap then 9
  else if d <? 334 + leap then 10
  else 11.

Definition DateFromTime (t : Z) : Z :=
  DayWithinYear t - month_start (InLeapYear t) (MonthFromTime t) + 1.

(** [MakeDay(year, month, date)]: the day number of the first of the
    month, plus [date - 1]; [month] counts from 0 and may overflow into
    the following years. *)
Definition MakeDay (year month date : Z) : Z :=
  let ym := year + month / 12 in
  let mn := month mod 12 in
  let leap := if DaysInYear ym =? 366 then 1 else 0 in
  DayFromYear ym + month_start leap mn + date - 1.

Definition MakeTime (hour min sec ms : Z) : Z :=
  hour * 3600000 + min * 60000 + sec * 1000 + ms.

Definition MakeDate (day time : Z) : Z := day * msPerDay + time.

(** [TimeClip]: time values beyond 8.64e15 ms are not dates. *)
Definition TimeClip (t : Z) : option Z :=
  if Z.abs t <=? 8640000000000000 then Some t else None.

(** Engines differ on a day that the month does not have, such as 30
    February: V8 carries it over into the next month, others reject the
    string. *)
Inductive engine : Type := carries_day | rejects_day.

Definition day_accepted (e : engine) (year month day : Z) : bool :=
  match e with
  | carries_day => true
  | rejects_day =>
      let leap := if DaysInYear year =? 366 then 1 else 0 in
      day <=? month_start leap month - month_start leap (month - 1)
  end.

(** [new Date(s)] for [s] in the date-time format
    [YYYY-MM-DDTHH:mm:ssZ], the only format the program builds.  The
    result is the time value, or [None] for an invalid date (whose
    [getTime()] is [NaN]).  Fields out of the ranges of the format (month
    01-12, day 01-31, hour 00-24, minute and second 00-59) make the date
    invalid; so does, on an engine that rejects it, a day that the month
    does not have. *)
Definition Date_parse (e : engine) (s : jsstring) : option Z :=
  match s with
  | [y1; y2; y3; y4; h1; m1; m2; h2; d1; d2; t; H1; H2; c1; M1; M2; c2; S1; S2; z] =>
      if forallb is_digit [y1; y2; y3; y4; m1; m2; d1; d2; H1; H2; M1; M2; S1; S2]
         && ascii_eqb h1 "-" && ascii_eqb h2 "-" && ascii_eqb t "T"
         && ascii_eqb c1 ":" && ascii_eqb c2 ":" && ascii_eqb z "Z"
      then
        let year := digits_value [y1; y2; y3; y4] in
        let month := digits_value [m1; m2] in
        let day := digits_value [d1; d2] in
        let hour := digits_value [H1; H2] in
        let min := digits_value [M1; M2] in
        let sec := digits_value [S1; S2] in
        if (1 <=? month) && (month <=? 12) && (1 <=? day) && (day <=? 31)
           && (hour <=? 24) && (min <=? 59) && (sec <=? 59)
           && ((hour <? 24) || ((min =? 0) && (sec =? 0)))
           && day_accepted e year month day
        then TimeClip (MakeDate (MakeDay year (month - 1) day)
                                (MakeTime hour min sec 0))
        else None
      else None
  | _ => None
  end.

(** [/^\d{4}-\d{2}-\d{2}$/.test(s)]. *)
Definition date_regex (s : jsstring) : bool :=
  match s with
  | [y1; y2; y3; y4; h1; m1; m2; h2; d1; d2] =>
      forallb is_digit [y1; y2; y3; y4] && ascii_eqb h1 "-"
      && forallb is_digit [m1; m2] && ascii_eqb h2 "-"
      && forallb is_digit [d1; d2]
  | _ => false
  end.

(** [Number(s)] for a string of digits. *)
Definition Number_of_digits (s : jsstring) : Z := digits_value s.

(** [validateDate] on the engine [e]. *)
Definition validateDate_on (e : engine) (dateString : jsstring)
  : ValidationResult :=
  if is_empty dateString then
    invalid "A data não pode estar em branco."
  else if negb (date_regex dateString) then
    invalid "Formato inválido. Use AAAA-MM-DD."
  else
    let date := Date_parse e (dateString ++ str "T00:00:00Z") in
    let parts := map Number_of_digits (split "-" dateString) in
    let year := nth 0 parts 0 in
    let month := nth 1 parts 0 in
    let day := nth 2 parts 0 in
    match date with
    | None => invalid "Data inválida (ex: dia 31 em um mês com 30 dias)."
    | Some t =>
        if negb (YearFromTime t =? year)
           || negb (MonthFromTime t + 1 =? month)
           || negb (DateFromTime t =? day)
        then invalid "Data inválida (ex: dia 31 em um mês com 30 dias)."
        else valid
    end.

(** The engine is immaterial ([validateDate_any_engine] below); the
    embedding fixes the one on which the round trip has work to do. *)
Definition validateDate (dateString : jsstring) : ValidationResult :=
  validateDate_on carries_day dateString.

(** ** The application state ([src/App.tsx]) *)

Record Transaction : Type := mkTransaction {
  t_id : jsstring;
  t_date : jsstring;
  t_description : jsstring;
  t_debit : jsstring;
  t_credit : jsstring;
  t_balance : number;
  t_companyName : jsstring;
  t_cnpj : jsstring;
  t_category : jsstring;
  t_isUnusual : bool;
  t_unusualReason : jsstring
}.

(** [Omit<Transaction, 'id' | 'balance'>]. *)
Record RawTransaction : Type := mkRaw {
  r_date : jsstring;
  r_description : jsstring;
  r_debit : jsstring;
  r_credit : jsstring;
  r_companyName : jsstring;
  r_cnpj : jsstring;
  r_category : jsstring;
  r_isUnusual : bool;
  r_unusualReason : jsstring
}.

(** [{ ...t, id, balance }]. *)
Definition with_id_balance (t : RawTransaction) (id : jsstring) (b : number)
  : Transaction :=
  mkTransaction id (r_date t) (r_description t) (r_debit t) (r_credit t) b
    (r_companyName t) (r_cnpj t) (r_category t) (r_isUnusual t)
    (r_unusualReason t).

(** [{ ...t, balance }]. *)
Definition with_balance (t : Transaction) (b : number) : Transaction :=
  mkTransaction (t_id t) (t_date t) (t_description t) (t_debit t)
    (t_credit t) b (t_companyName t) (t_cnpj t) (t_category t)
    (t_isUnusual t) (t_unusualReason t).

Definition raw_of (t : Transaction) : RawTransaction :=
  mkRaw (t_date t) (t_description t) (t_debit t) (t_credit t)
    (t_companyName t) (t_cnpj t) (t_category t) (t_isUnusual t)
    (t_unusualReason t).

Record DateValidationError : Type := mkDateError {
  e_message : string;
  e_suggestion : option jsstring
}.

(** [CNPJValidationError] and [CurrencyValidationError]: a message. *)
Record MessageError : Type := mkMessageError { m_message : string }.

Inductive ShowUnusual : Type := su_all | unusualOnly | commonOnly.
Inductive TransactionType : Type := tt_all | tt_debit | tt_credit.

Record Filters : Type := mkFilters {
  f_description : jsstring;
  f_startDate : jsstring;
  f_endDate : jsstring;
  f_minAmount : jsstring;
  f_maxAmount : jsstring;
  f_category : jsstring;
  f_showUnusual : ShowUnusual;
  f_transactionType : TransactionType
}.

Definition initialFilters : Filters :=
  mkFilters [] [] [] [] [] [] su_all tt_all.

(** [keyof Omit<Transaction, 'id' | 'balance'>]. *)
Inductive Field : Type :=
| date | description | debit | credit | companyName | cnpj | category
| isUnusual | unusualReason.

Definition field_name (f : Field) : jsstring :=
  match f with
  | date => str "date"
  | description => str "description"
  | debit => str "debit"
  | credit => str "credit"
  | companyName => str "companyName"
  | cnpj => str "cnpj"
  | category => str "category"
  | isUnusual => str "isUnusual"
  | unusualReason => str "unusualReason"
  end.

Record AppState : Type := mkApp {
  transactions : list Transaction;
  statementBalance : option number;
  dateErrors : gmap jsstring DateValidationError;
  cnpjErrors : gmap jsstring MessageError;
  currencyErrors : gmap jsstring MessageError
}.

(** *** Running balance *)

(** The amount a row adds to the running balance:
    [(parseCurrency(t.credit) || 0) - (parseCurrency(t.debit) || 0)]. *)
Definition net_amount (credit_s debit_s : jsstring) : number :=
  num_sub (or_zero (parseCurrency credit_s)) (or_zero (parseCurrency debit_s)).

(** The [map] of [calculateBalances] with its captured accumulator
    [runningBalance]; [k] counts the identifiers drawn so far from
    [crypto.randomUUID()], whose successive results are [uuid 0],
    [uuid 1], ...  The final accumulator is returned with the rows. *)
Fixpoint calculate_from (uuid : nat -> jsstring) (k : nat)
    (runningBalance : number) (ts : list RawTransaction)
  : list Transaction * number :=
  match ts with
  | [] => ([], runningBalance)
  | t :: rest =>
      let runningBalance :=
        num_add runningBalance (net_amount (r_credit t) (r_debit t)) in
      let row := with_id_balance t (uuid k) runningBalance in
      let (rows, final) := calculate_from uuid (S k) runningBalance rest in
      (row :: rows, final)
  end.

(** Returns [(transactionsWithBalances, finalBalance)]. *)
Definition calculateBalances (uuid : nat -> jsstring)
    (ts : list RawTransaction) : list Transaction * number :=
  calculate_from uuid 0 (Num 0) ts.

(** The second [map] of the updater passed to [setTransactions]. *)
Fixpoint rebalance (runningBalance : number) (l : list Transaction)
  : list Transaction :=
  match l with
  | [] => []
  | t :: rest =>
      let runningBalance :=
        num_add runningBalance (net_amount (t_credit t) (t_debit t)) in
      with_balance t runningBalance :: rebalance runningBalance rest
  end.

(** The updater passed to [setTransactions] by [handleDataChange]. *)
Definition update_transactions (updatedTransaction : Transaction)
    (currentTransactions : list Transaction) : list Transaction :=
  let updatedList :=
    map (fun t => if jsstring_eqb (t_id t) (t_id updatedTransaction)
                  then updatedTransaction else t) currentTransactions in
  rebalance (Num 0) updatedList.

(** *** Balance mismatch *)

(** The [useMemo] that yields [{ calculatedFinalBalance, balanceMismatch }].
    [last txs] is [transactions[transactions.length - 1]]; it is [None]
    exactly when [transactions.length === 0], the case of the early
    return.  [fl (1 # 100)] is the literal [0.01]. *)
Definition final_and_mismatch (txs : list Transaction)
    (statement : option number) : number * bool :=
  match last txs with
  | None => (Num 0, false)
  | Some lastRow =>
      let finalBalance := t_balance lastRow in
      let mismatch :=
        match statement with
        | None => false
        | Some declared =>
            num_gtb (num_abs (num_sub finalBalance declared)) (fl (1 # 100))
        end in
      (finalBalance, mismatch)
  end.

Definition calculatedFinalBalance (st : AppState) : number :=
  fst (final_and_mismatch (transactions st) (statementBalance st)).

Definition balanceMismatch (st : AppState) : bool :=
  snd (final_and_mismatch (transactions st) (statementBalance st)).

(** *** Filter *)

(** [toLowerCase] on the modelled range: A-Z and the capital letters of
    Latin-1 (U+00C0..U+00DE without the multiplication sign U+00D7). *)
Definition lower_char (c : ascii) : ascii :=
  let n := code c in
  if ((65 <=? n) && (n <=? 90))
     || ((192 <=? n) && (n <=? 222) && negb (n =? 215))
  then ascii_of_N (Z.to_N (n + 32)) else c.

Definition toLowerCase (s : jsstring) : jsstring := map lower_char s.

(** [hay.includes(needle)]. *)
Fixpoint includes (needle hay : jsstring) : bool :=
  is_prefix needle hay
  || match hay with
     | [] => false
     | _ :: rest => includes needle rest
     end.

(** [a < b] on strings: the order of the code units, a proper prefix
    coming first. *)
Fixpoint jsstring_ltb (a b : jsstring) : bool :=
  match a, b with
  | _, [] => false
  | [], _ :: _ => true
  | x :: a', y :: b' =>
      (code x <? code y) || ((code x =? code y) && jsstring_ltb a' b')
  end.

(** The callback of [transactions.filter] in [filteredTransactions]. *)
Definition filter_row (filters : Filters) (t : Transaction) : bool :=
  if negb (is_empty (f_description filters))
     && negb (includes (toLowerCase (f_description filters))
                       (toLowerCase (t_description t)))
  then false
  else if negb (is_empty (f_category filters))
          && negb (jsstring_eqb (t_category t) (f_category filters))
  then false
  else if match f_showUnusual filters with
          | unusualOnly => negb (t_isUnusual t)
          | _ => false
          end
  then false
  else if match f_showUnusual filters with
          | commonOnly => t_isUnusual t
          | _ => false
          end
  then false
  else if negb (is_empty (f_startDate filters))
          && jsstring_ltb (t_date t) (f_startDate filters)
  then false
  else if negb (is_empty (f_endDate filters))
          && jsstring_ltb (f_endDate filters) (t_date t)
  then false
  else
    let debit_n := parseCurrency (t_debit t) in
    let credit_n := parseCurrency (t_credit t) in
    let amount := num_abs (num_sub credit_n debit_n) in
    if negb (is_empty (f_minAmount filters))
       && num_ltb amount (parseFloat (f_minAmount filters))
    then false
    else if negb (is_empty (f_maxAmount filters))
            && num_gtb amount (parseFloat (f_maxAmount filters))
    then false
    else if match f_transactionType filters with
            | tt_debit => num_leb debit_n (Num 0)
            | _ => false
            end
    then false
    else if match f_transactionType filters with
            | tt_credit => num_leb credit_n (Num 0)
            | _ => false
            end
    then false
    else true.

Definition filteredTransactions (txs : list Transaction) (filters : Filters)
  : list Transaction :=
  List.filter (filter_row filters) txs.

(** *** Edits *)

(** [suggestDateCorrection]: the model's answer is an oracle; [None]
    stands for a failed call, which returns the text it was given. *)
Definition suggestDateCorrection (answer : option jsstring)
    (invalidDate : jsstring) : jsstring :=
  if is_empty (trim invalidDate) then []
  else match answer with
       | Some text => trim text
       | None => invalidDate
       end.

(** What the continuation after [await suggestDateCorrection(date)] has
    captured: the row identifier, the date that was validated and the
    message of its validation. *)
Record PendingSuggestion : Type := mkPending {
  p_id : jsstring;
  p_date : jsstring;
  p_message : string
}.

Definition message_of (r : ValidationResult) : string :=
  match message r with Some m => m | None => EmptyString end.

(** [handleDataChange] up to its [await]: the new state, and the request
    left outstanding when the edited date is invalid. *)
Definition handleDataChange (updatedTransaction : Transaction)
    (fieldChanged : Field) (st : AppState)
  : AppState * option PendingSuggestion :=
  let txs := update_transactions updatedTransaction (transactions st) in
  let id := t_id updatedTransaction in
  match fieldChanged with
  | date =>
      let validationResult := validateDate (t_date updatedTransaction) in
      (mkApp txs (statementBalance st) (delete id (dateErrors st))
             (cnpjErrors st) (currencyErrors st),
       if isValid validationResult then None
       else Some (mkPending id (t_date updatedTransaction)
                            (message_of validationResult)))
  | cnpj =>
      let validationResult := validateCNPJ (t_cnpj updatedTransaction) in
      let cleared := delete id (cnpjErrors st) in
      (mkApp txs (statementBalance st) (dateErrors st)
             (if isValid validationResult then cleared
              else <[id := mkMessageError (message_of validationResult)]> cleared)
             (currencyErrors st),
       None)
  | debit | credit =>
      let value := match fieldChanged with
                   | debit => t_debit updatedTransaction
                   | _ => t_credit updatedTransaction
                   end in
      let errorKey := id ++ str "-" ++ field_name fieldChanged in
      let validationResult := validateCurrency value in
      let cleared := delete errorKey (currencyErrors st) in
      (mkApp txs (statementBalance st) (dateErrors st) (cnpjErrors st)
             (if isValid validationResult then cleared
              else <[errorKey := mkMessageError (message_of validationResult)]> cleared),
       None)
  | _ =>
      (mkApp txs (statementBalance st) (dateErrors st) (cnpjErrors st)
             (currencyErrors st),
       None)
  end.

(** The continuation of [handleDataChange] after the [await]: it runs
    when the request [p] settles with [suggestion]. *)
Definition resume_date_suggestion (p : PendingSuggestion)
    (suggestion : jsstring) (st : AppState) : AppState :=
  let entry :=
    mkDateError (p_message p)
      (if negb (jsstring_eqb suggestion (p_date p))
          && isValid (validateDate suggestion)
       then Some suggestion else None) in
  mkApp (transactions st) (statementBalance st)
        (<[p_id p := entry]> (dateErrors st))
        (cnpjErrors st) (currencyErrors st).

(** The event loop: user edits and settled requests, in any order.  The
    outstanding requests are kept in the order they were issued. *)
Record System : Type := mkSystem {
  app : AppState;
  outstanding : list PendingSuggestion
}.

Inductive event : Type :=
| Edit (updatedTransaction : Transaction) (fieldChanged : Field)
| Settle (k : nat) (answer : option jsstring).

Definition step (s : System) (e : event) : System :=
  match e with
  | Edit u f =>
      let (st, req) := handleDataChange u f (app s) in
      mkSystem st (outstanding s ++ match req with
                                    | Some p => [p]
                                    | None => []
                                    end)
  | Settle k answer =>
      match nth_error (outstanding s) k with
      | Some p =>
          mkSystem
            (resume_date_suggestion p
               (suggestDateCorrection answer (p_date p)) (app s))
            (firstn k (outstanding s) ++ skipn (S k) (outstanding s))
      | None => s
      end
  end.

Definition run (s : System) (es : list event) : System := fold_left step es s.

(** ** Notions of the specification

    The definitions below follow the wording of the specification, not
    the code; the theorems compare them with the code. *)

(** [gs.join(c)]. *)
Fixpoint join (c : ascii) (gs : list jsstring) : jsstring :=
  match gs with
  | [] => []
  | g :: rest =>
      match rest with
      | [] => g
      | _ :: _ => g ++ c :: join c rest
      end
  end.

Definition free_of (c : ascii) (s : jsstring) : Prop := ~ In c s.

(** "The integer part (portion before the comma, or the whole string if
    no comma)". *)
Definition integer_part_of (s ip : jsstring) : Prop :=
  free_of "," ip /\ (s = ip \/ exists frac, s = ip ++ ","%char :: frac).

(** "... is split on dot into thousands-groups". *)
Definition thousands_groups_of (ip : jsstring) (gs : list jsstring) : Prop :=
  gs <> [] /\ Forall (free_of ".") gs /\ ip = join "." gs.

(** "Weights cycle 2..9 then reset to 2 ..., applied right-to-left":
    the weight of the digit [k] places from the right end. *)
Definition spec_weight (k : nat) : Z := 2 + Z.of_nat (k mod 8).

Fixpoint spec_sum_from (k : nat) (digits_from_right : list Z) : Z :=
  match digits_from_right with
  | [] => 0
  | d :: rest => d * spec_weight k + spec_sum_from (S k) rest
  end.

Definition spec_weighted_sum (ds : jsstring) : Z :=
  spec_sum_from 0 (rev (map digit_value ds)).

(** "Sum mod 11; result is 0 if sum mod 11 < 2 else 11 - (sum mod 11)". *)
Definition spec_check_digit (ds : jsstring) : Z :=
  let r := spec_weighted_sum ds mod 11 in
  if r <? 2 then 0 else 11 - r.

(** A digit string that is a well-formed CNPJ: 14 digits, not one digit
    repeated, the 13th and 14th being the check digits of the first 12
    and of the first 13. *)
Definition spec_valid_cnpj (d : jsstring) : Prop :=
  length d = 14%nat
  /\ (forall c, d <> repeat c 14)
  /\ (exists c13 c14,
        nth_error d 12 = Some c13 /\ nth_error d 13 = Some c14
        /\ spec_check_digit (firstn 12 d) = digit_value c13
        /\ spec_check_digit (firstn 13 d) = digit_value c14).

(** "A real calendar date in the proleptic Gregorian calendar". *)
Definition is_leap_year (y : Z) : bool :=
  ((y mod 4 =? 0) && negb (y mod 100 =? 0)) || (y mod 400 =? 0).

Definition days_in_month (y m : Z) : Z :=
  if (m =? 4) || (m =? 6) || (m =? 9) || (m =? 11) then 30
  else if m =? 2 then (if is_leap_year y then 29 else 28)
  else 31.

Definition real_date (y m d : Z) : Prop :=
  1 <= m <= 12 /\ 1 <= d <= days_in_month y m.

(** "The literal pattern 4 digits - 2 digits - 2 digits": [s] is such a
    text and [y], [m], [d] are the numbers its three components denote. *)
Definition date_text (s : jsstring) (y m d : Z) : Prop :=
  exists y1 y2 y3 y4 m1 m2 d1 d2,
    forallb is_digit [y1; y2; y3; y4; m1; m2; d1; d2] = true
    /\ s = [y1; y2; y3; y4; "-"%char; m1; m2; "-"%char; d1; d2]
    /\ y = digits_value [y1; y2; y3; y4]
    /\ m = digits_value [m1; m2]
    /\ d = digits_value [d1; d2].

(** "Balance of record i = balance of record i-1 + parse(credit_i) -
    parse(debit_i), with the balance of a virtual record before the first
    entry defined as 0". *)
Definition previous_balance (l : list Transaction) (i : nat) : number :=
  match i with
  | O => Num 0
  | S j => match nth_error l j with
           | Some t => t_balance t
           | None => Num 0
           end
  end.

Definition balances_consistent (l : list Transaction) : Prop :=
  forall i t,
    nth_error l i = Some t ->
    t_balance t
    = num_add (previous_balance l i)
        (num_sub (parseCurrency (t_credit t)) (parseCurrency (t_debit t))).

(** The order of numbers; [NaN] is not related to anything. *)
Definition num_lt (x y : number) : Prop :=
  match x, y with
  | Num p, Num q => (p < q)%Q
  | NegInf, Num _ | NegInf, PosInf | Num _, PosInf => True
  | _, _ => False
  end.

Definition num_le (x y : number) : Prop :=
  match x, y with
  | Num p, Num q => (p <= q)%Q
  | NegInf, (Num _ | PosInf | NegInf) => True
  | Num _, PosInf | PosInf, PosInf => True
  | _, _ => False
  end.

(** The lexicographic order of strings by code unit. *)
Inductive lex_lt : jsstring -> jsstring -> Prop :=
| lex_lt_nil c b : lex_lt [] (c :: b)
| lex_lt_head x y a b : code x < code y -> lex_lt (x :: a) (y :: b)
| lex_lt_tail x a b : lex_lt a b -> lex_lt (x :: a) (x :: b).

Definition lex_le (a b : jsstring) : Prop := a = b \/ lex_lt a b.

Definition substring_of (needle hay : jsstring) : Prop :=
  exists pre post, hay = pre ++ needle ++ post.

(** "Case-insensitive": a capital letter (A to Z, and the capital
    letters of Latin-1, U+00C0 to U+00DE without the multiplication
    sign) and the small letter 32 code points above it are the same
    letter. *)
Definition capital (c : ascii) : Prop :=
  65 <= code c <= 90 \/ (192 <= code c <= 222 /\ code c <> 215).

Definition same_letter (a b : ascii) : Prop :=
  a = b
  \/ (capital a /\ code b = code a + 32)
  \/ (capital b /\ code a = code b + 32).

(** "Case-insensitive substring match": some part of [hay] is [needle]
    letter by letter, whatever the case. *)
Definition substring_ignoring_case (needle hay : jsstring) : Prop :=
  exists pre mid post,
    hay = pre ++ mid ++ post /\ Forall2 same_letter needle mid.

(** "abs(parse(credit) - parse(debit))". *)
Definition row_amount (t : Transaction) : number :=
  num_abs (num_sub (parseCurrency (t_credit t)) (parseCurrency (t_debit t))).

(** The criteria of the filter other than the bounds on the amount; an
    empty text and the selector "all" impose nothing. *)
Definition satisfies_but_amount (filters : Filters) (t : Transaction) : Prop :=
  (f_description filters = []
   \/ substring_ignoring_case (f_description filters) (t_description t))
  /\ (f_category filters = [] \/ t_category t = f_category filters)
  /\ match f_showUnusual filters with
     | su_all => True
     | unusualOnly => t_isUnusual t = true
     | commonOnly => t_isUnusual t = false
     end
  /\ (f_startDate filters = [] \/ lex_le (f_startDate filters) (t_date t))
  /\ (f_endDate filters = [] \/ lex_le (t_date t) (f_endDate filters))
  /\ match f_transactionType filters with
     | tt_all => True
     | tt_debit => num_lt (Num 0) (parseCurrency (t_debit t))
     | tt_credit => num_lt (Num 0) (parseCurrency (t_credit t))
     end.

(** "Inclusive min/max bounds": every criterion, a bound that is set
    requiring the amount to be at least, or at most, the number it
    parses to. *)
Definition satisfies_as_claimed (filters : Filters) (t : Transaction) : Prop :=
  satisfies_but_amount filters t
  /\ (f_minAmount filters = []
      \/ num_le (parseFloat (f_minAmount filters)) (row_amount t))
  /\ (f_maxAmount filters = []
      \/ num_le (row_amount t) (parseFloat (f_maxAmount filters))).

(** The same, where a bound that does not parse to a number, and an
    amount that is not a number, exclude nothing. *)
Definition inclusive_bound (lower upper : number) : Prop :=
  lower = NaN \/ upper = NaN \/ num_le lower upper.

Definition satisfies (filters : Filters) (t : Transaction) : Prop :=
  satisfies_but_amount filters t
  /\ (f_minAmount filters = []
      \/ inclusive_bound (parseFloat (f_minAmount filters)) (row_amount t))
  /\ (f_maxAmount filters = []
      \/ inclusive_bound (row_amount t) (parseFloat (f_maxAmount filters))).

(** ** Auxiliary notions of the proofs *)

(** Finite values are carried in lowest terms. *)
Definition canonical (x : number) : Prop :=
  match x with Num q => Qred q = q | _ => True end.

(** The ranges of the month and day fields of the date-time format. *)
Definition in_format_range (m d : Z) : bool :=
  (1 <=? m) && (m <=? 12) && (1 <=? d) && (d <=? 31).

(** The three comparisons of [validateDate] on the date built from the
    components [y], [m], [d]. *)
Definition round_trip (y m d : Z) : bool :=
  let t := MakeDate (MakeDay y (m - 1) d) 0 in
  (YearFromTime t =? y) && (MonthFromTime t + 1 =? m) && (DateFromTime t =? d).

(** The recurrence of the balances, started from [b0] instead of 0. *)
Definition consistent_from (b0 : number) (l : list Transaction) : Prop :=
  forall i t,
    nth_error l i = Some t ->
    t_balance t
    = num_add (match i with
               | O => b0
               | S j => previous_balance l (S j)
               end)
        (num_sub (parseCurrency (t_credit t)) (parseCurrency (t_debit t))).

(** ** Example data *)

(** Identifiers "0", "1", "2", ... in place of random ones. *)
Definition digit_uuid (k : nat) : jsstring := [ascii_of_nat (48 + k)].

Definition raw_row (debit_s credit_s : string) : RawTransaction :=
  mkRaw (str "2024-01-15") (str "PIX") (str debit_s) (str credit_s)
        [] [] (str "Outros") false [].

(** Debit and credit amounts (0, 100), (50, 0), (0, 25), as ingestion
    writes them: two decimals, and the empty string for 0. *)
Definition example_rows : list RawTransaction :=
  [raw_row "" "100,00"; raw_row "50,00" ""; raw_row "" "25,00"].

Definition example_ledger : list Transaction :=
  fst (calculateBalances digit_uuid example_rows).

Definition example_state : AppState :=
  mkApp example_ledger (Some (of_Z 125)) ∅ ∅ ∅.

(** The second row with its debit set to "0". *)
Definition example_edit : Transaction :=
  mkTransaction (str "1") (str "2024-01-15") (str "PIX") (str "0") []
    (Num 50) [] [] (str "Outros") false [].

(** A row with the debit and the credit given. *)
Definition amount_row (debit_s credit_s : string) : Transaction :=
  mkTransaction (str "1") (str "2024-01-15") (str "PIX") (str debit_s)
    (str credit_s) (Num 0) [] [] (str "Outros") false [].

(** A row whose debit and credit have both been set to "Infinity", and
    the filter that asks for an amount of 10 at least. *)
Definition infinite_row : Transaction :=
  mkTransaction (str "1") (str "2024-01-15") (str "PIX") (str "Infinity")
    (str "Infinity") NaN [] [] (str "Outros") false [].

Definition lower_bound_ten : Filters :=
  mkFilters [] [] [] (str "10") [] [] su_all tt_all.

Definition row_with_date (d : string) : Transaction :=
  mkTransaction (str "r1") (str d) (str "PIX") [] (str "10,00") (of_Z 10)
    [] [] (str "Outros") false [].

Definition race_start : System :=
  mkSystem (mkApp [row_with_date "2023-12-04"] None ∅ ∅ ∅) [].

(** The date of the row is made invalid, which leaves a request
    outstanding; it is then edited again, to a valid date; only then
    does the request settle. *)
Definition race_trace : list event :=
  [Edit (row_with_date "2023-13-01") date;
   Edit (row_with_date "2023-12-05") date;
   Settle 0 (Some (str "2023-12-01"))].

(** ** Edits made in the table ([DataTable]) *)

(** [{ ...t, [field]: value }] for a string [value].  A string stored in
    [isUnusual] is only ever read for its truthiness. *)
Definition set_field (t : Transaction) (field : Field) (value : jsstring)
  : Transaction :=
  match field with
  | date =>
      mkTransaction (t_id t) value (t_description t) (t_debit t) (t_credit t)
        (t_balance t) (t_companyName t) (t_cnpj t) (t_category t)
        (t_isUnusual t) (t_unusualReason t)
  | description =>
      mkTransaction (t_id t) (t_date t) value (t_debit t) (t_credit t)
        (t_balance t) (t_companyName t) (t_cnpj t) (t_category t)
        (t_isUnusual t) (t_unusualReason t)
  | debit =>
      mkTransaction (t_id t) (t_date t) (t_description t) value (t_credit t)
        (t_balance t) (t_companyName t) (t_cnpj t) (t_category t)
        (t_isUnusual t) (t_unusualReason t)
  | credit =>
      mkTransaction (t_id t) (t_date t) (t_description t) (t_debit t) value
        (t_balance t) (t_companyName t) (t_cnpj t) (t_category t)
        (t_isUnusual t) (t_unusualReason t)
  | companyName =>
      mkTransaction (t_id t) (t_date t) (t_description t) (t_debit t)
        (t_credit t) (t_balance t) value (t_cnpj t) (t_category t)
        (t_isUnusual t) (t_unusualReason t)
  | cnpj =>
      mkTransaction (t_id t) (t_date t) (t_description t) (t_debit t)
        (t_credit t) (t_balance t) (t_companyName t) value (t_category t)
        (t_isUnusual t) (t_unusualReason t)
  | category =>
      mkTransaction (t_id t) (t_date t) (t_description t) (t_debit t)
        (t_credit t) (t_balance t) (t_companyName t) (t_cnpj t) value
        (t_isUnusual t) (t_unusualReason t)
  | isUnusual =>
      mkTransaction (t_id t) (t_date t) (t_description t) (t_debit t)
        (t_credit t) (t_balance t) (t_companyName t) (t_cnpj t) (t_category t)
        (negb (is_empty value)) (t_unusualReason t)
  | unusualReason =>
      mkTransaction (t_id t) (t_date t) (t_description t) (t_debit t)
        (t_credit t) (t_balance t) (t_companyName t) (t_cnpj t) (t_category t)
        (t_isUnusual t) value
  end.

(** [handleFieldChange] of the table ([src/components/DataTable.tsx]):
    [rows] is the table's [transactions] property; the result is the
    call of [onDataChange] it makes, if any. *)
Definition handleFieldChange (rows : list Transaction) (id : jsstring)
    (field : Field) (value : jsstring) : option (Transaction * Field) :=
  match List.find (fun t => jsstring_eqb (t_id t) id) rows with
  | Some transactionToUpdate =>
      let processedValue :=
        match field with
        | cnpj => strip_non_digits value
        | _ => value
        end in
      Some (set_field transactionToUpdate field processedValue, field)
  | None => None
  end.

(** A change made in a cell of the table: the table shows the filtered
    rows and passes the edit on to [handleDataChange]. *)
Definition table_edit (filters : Filters) (id : jsstring) (field : Field)
    (value : jsstring) (s : System) : System :=
  match handleFieldChange
          (filteredTransactions (transactions (app s)) filters) id field value
  with
  | Some (u, f) => step s (Edit u f)
  | None => s
  end.

(** The CNPJ and currency error tables say exactly which rows have an
    invalid CNPJ, debit or credit. *)
Definition cnpj_errors_exact (st : AppState) : Prop :=
  forall t, In t (transactions st) ->
    cnpjErrors st !! t_id t = None
    <-> isValid (validateCNPJ (t_cnpj t)) = true.

Definition currency_errors_exact (st : AppState) : Prop :=
  forall t, In t (transactions st) ->
    (currencyErrors st !! (t_id t ++ str "-debit") = None
     <-> isValid (validateCurrency (t_debit t)) = true)
    /\ (currencyErrors st !! (t_id t ++ str "-credit") = None
        <-> isValid (validateCurrency (t_credit t)) = true).

(** ** Ingestion ([handleFileSelect] and [handleProcessFile]) *)

(** *** [Number.prototype.toLocaleString] for the locale pt-BR

    [x.toLocaleString('pt-BR', { minimumFractionDigits: 2,
    maximumFractionDigits: 2 })], as the engines compute it through ICU:
    the magnitude is taken as the shortest decimal that reads back as
    the double (the digits that [String(x)] shows); that decimal is
    rounded to two fraction digits, a tie going away from zero; the
    integer digits are grouped by three with "." and the two fraction
    digits follow ",". *)

(** The integer part of the decimal logarithm of [q > 0]. *)
Definition ilog10 (q : Q) : Z :=
  let k0 := ilog2 q * 30103 / 100000 - 1 in
  if Qle_bool (Qpower 10 (k0 + 2)) q then k0 + 2
  else if Qle_bool (Qpower 10 (k0 + 1)) q then k0 + 1 else k0.

(** The decimal [c] reads back as the double [q]. *)
Definition round_trips (q c : Q) : bool :=
  match fl c with Num q' => Qeq_bool q' q | _ => false end.

(** The decimals of [k] significant digits next to [q > 0]: the one
    not above it and the one above it. *)
Definition neighbours (q : Q) (k : Z) : Q * Q :=
  let scale := Qpower 10 (k - 1 - ilog10 q) in
  let s := Qfloor (q * scale) in
  ((inject_Z s / scale)%Q, (inject_Z (s + 1) / scale)%Q).

(** The decimal of the fewest digits, [k] or more, that reads back as
    [q]; of two with as many digits, the one closer to [q], and the
    even one when they are as close.  Seventeen digits always do. *)
Fixpoint shortest_from (fuel : nat) (q : Q) (k : Z) : Q :=
  match fuel with
  | O => q
  | S fuel' =>
      let (lo, hi) := neighbours q k in
      match round_trips q lo, round_trips q hi with
      | true, true =>
          match Qcompare (q - lo) (hi - q) with
          | Lt => lo
          | Gt => hi
          | Eq =>
              if Z.even (Qfloor (q * Qpower 10 (k - 1 - ilog10 q)))
              then lo else hi
          end
      | true, false => lo
      | false, true => hi
      | false, false => shortest_from fuel' q (k + 1)
      end
  end.

Definition shortest_decimal (q : Q) : Q := shortest_from 17 q 1.

(** The hundredths that the double [q > 0] is printed with. *)
Definition cents (q : Q) : Z := Qfloor (shortest_decimal q * 100 + (1 # 2)).

Definition digit_char (d : Z) : ascii := ascii_of_N (Z.to_N (48 + d)).

(** The decimal digits of [n >= 0], the most significant first; [fuel]
    bounds their number. *)
Fixpoint digits_of (fuel : nat) (n : Z) : jsstring :=
  match fuel with
  | O => []
  | S fuel' =>
      if n <? 10 then [digit_char n]
      else digits_of fuel' (n / 10) ++ [digit_char (n mod 10)]
  end.

Definition decimal_digits (n : Z) : jsstring :=
  digits_of (S (Z.to_nat (Z.log2 n))) n.

Fixpoint chunks3 (ds : jsstring) : list jsstring :=
  match ds with
  | a :: b :: c :: r => [a; b; c] :: chunks3 r
  | [] => []
  | _ => [ds]
  end.

(** A grouping separator before every third digit from the right. *)
Definition group_digits (ds : jsstring) : jsstring :=
  let k := ((length ds - 1) mod 3 + 1)%nat in
  join "." (firstn k ds :: chunks3 (skipn k ds)).

(** The sign of infinity.  It is the one code unit U+221E, which is
    outside the range of [ascii]; U+00A4 stands for it.  Both are a
    single code unit that is no digit, no white space, neither "." nor
    ",", starts no numeric literal and is its own lower case, which is
    all that the program asks of the characters of an amount. *)
Definition infinity_sign : jsstring := ["164"%char].

Definition toLocaleString_ptBR (x : number) : jsstring :=
  match x with
  | NaN => str "NaN"
  | Num q =>
      let n := if Qeq_bool q 0 then 0 else cents (Qabs q) in
      (if Qle_bool 0 q then [] else ["-"%char])
      ++ group_digits (decimal_digits (n / 100))
      ++ ","%char :: [digit_char (n mod 100 / 10); digit_char (n mod 10)]
  | PosInf => infinity_sign
  | NegInf => "-"%char :: infinity_sign
  end.

(** *** The response of the extraction service *)

(** An element of [GeminiTransactionResponse.transactions]: a
    transaction without [id] and [balance], with numeric amounts. *)
Record ExtractedTransaction : Type := mkExtracted {
  x_date : jsstring;
  x_description : jsstring;
  x_debit : number;
  x_credit : number;
  x_companyName : jsstring;
  x_cnpj : jsstring;
  x_category : jsstring;
  x_isUnusual : bool;
  x_unusualReason : jsstring
}.

Record GeminiTransactionResponse : Type := mkResponse {
  g_transactions : list ExtractedTransaction;
  g_finalBalance : option number
}.

(** The text of the default category; its third character is U+00E3. *)
Definition uncategorized : jsstring :=
  str "N" ++ "227"%char :: str "o categorizado".

(** [s || d] on strings. *)
Definition or_default (s d : jsstring) : jsstring :=
  if is_empty s then d else s.

(** [x > 0 ? x.toLocaleString('pt-BR', ...) : ""]. *)
Definition format_amount (x : number) : jsstring :=
  if num_gtb x (Num 0) then toLocaleString_ptBR x else [].

(** The function mapped over the extracted transactions to build
    [transactionsWithFormattedCurrency]. *)
Definition with_formatted_currency (t : ExtractedTransaction)
  : RawTransaction :=
  mkRaw (x_date t) (x_description t)
    (format_amount (x_debit t)) (format_amount (x_credit t))
    (x_companyName t) (x_cnpj t) (or_default (x_category t) uncategorized)
    (x_isUnusual t) (x_unusualReason t).

(** The promises pushed by the validation loop: one for every row with
    an invalid date, in the order of the rows. *)
Definition date_requests (rows : list Transaction) : list PendingSuggestion :=
  flat_map (fun t =>
              let dateValidationResult := validateDate (t_date t) in
              if isValid dateValidationResult then []
              else [mkPending (t_id t) (t_date t)
                      (message_of dateValidationResult)]) rows.

(** [initialCnpjErrors] at the end of the validation loop. *)
Definition initial_cnpj_errors (rows : list Transaction)
  : gmap jsstring MessageError :=
  fold_left (fun m t =>
               let cnpjValidationResult := validateCNPJ (t_cnpj t) in
               if isValid cnpjValidationResult then m
               else <[t_id t :=
                        mkMessageError (message_of cnpjValidationResult)]> m)
            rows ∅.

(** What the promise of the request [p] resolves to when the suggestion
    service answers [answer]. *)
Definition date_result (p : PendingSuggestion) (answer : option jsstring)
  : jsstring * DateValidationError :=
  let suggestion := suggestDateCorrection answer (p_date p) in
  (p_id p,
   mkDateError (p_message p)
     (if negb (jsstring_eqb suggestion (p_date p))
         && isValid (validateDate suggestion)
      then Some suggestion else None)).

(** [initialDateErrors] after [Promise.all]: the results are recorded
    in the order of the requests; [answers k] is the answer to the
    request number [k]. *)
Definition initial_date_errors (requests : list PendingSuggestion)
    (answers : nat -> option jsstring) : gmap jsstring DateValidationError :=
  fold_left (fun m r => <[fst r := snd r]> m)
            (imap (fun k p => date_result p (answers k)) requests) ∅.

(** [handleProcessFile].  [response] is what [processBankStatementPDF]
    resolves to, [None] when it throws.  The table is not shown while
    the file is processed, so no edit runs between its steps. *)
Definition handleProcessFile (uuid : nat -> jsstring)
    (answers : nat -> option jsstring)
    (response : option GeminiTransactionResponse) (st : AppState)
  : AppState :=
  match response with
  | None => mkApp (transactions st) None ∅ ∅ ∅
  | Some r =>
      let transactionsWithFormattedCurrency :=
        map with_formatted_currency (g_transactions r) in
      let transactionsWithBalances :=
        fst (calculateBalances uuid transactionsWithFormattedCurrency) in
      mkApp transactionsWithBalances (g_finalBalance r)
        (initial_date_errors
           (date_requests transactionsWithBalances) answers)
        (initial_cnpj_errors transactionsWithBalances)
        ∅
  end.

(** [handleFileSelect]: the ledger and the error tables are emptied,
    then the file is processed. *)
Definition handleFileSelect (uuid : nat -> jsstring)
    (answers : nat -> option jsstring)
    (response : option GeminiTransactionResponse) (st : AppState)
  : AppState :=
  handleProcessFile uuid answers response
    (mkApp [] (statementBalance st) ∅ ∅ ∅).

(** The button that shows the suggestion of a date error in the row
    [id] of the table: it is rendered when the suggestion is a
    non-empty text, and a click sends the suggestion as an edit of the
    date. *)
Definition accept_suggestion (filters : Filters) (id : jsstring)
    (s : System) : System :=
  match dateErrors (app s) !! id with
  | Some dateError =>
      match e_suggestion dateError with
      | Some suggestion =>
          if is_empty suggestion then s
          else table_edit filters id date suggestion s
      | None => s
      end
  | None => s
  end.

(** Every suggestion kept in the table of date errors is a valid date. *)
Definition suggestions_valid (st : AppState) : Prop :=
  forall id e suggestion,
    dateErrors st !! id = Some e ->
    e_suggestion e = Some suggestion ->
    isValid (validateDate suggestion) = true.

(** The table of date errors has an entry exactly for the rows whose
    date is invalid. *)
Definition date_errors_exact (st : AppState) : Prop :=
  forall t, In t (transactions st) ->
    dateErrors st !! t_id t = None
    <-> isValid (validateDate (t_date t)) = true.

(** The amount the ledger holds for the extracted amount [x]: nothing
    unless [x] is positive and finite, and then the double nearest to
    the hundredths that [x] is printed with. *)
Definition ledger_amount (x : number) : number :=
  match x with
  | Num q => if Qle_bool q 0 then Num 0 else fl (cents q # 100)
  | _ => Num 0
  end.

(** No extracted amount is the positive infinity. *)
Definition finite_amounts (r : GeminiTransactionResponse) : Prop :=
  Forall (fun x => x_debit x <> PosInf /\ x_credit x <> PosInf)
         (g_transactions r).

(** The running sums of [amounts], started from [b0]. *)
Fixpoint running_sums (b0 : number) (amounts : list number) : list number :=
  match amounts with
  | [] => []
  | a :: rest => num_add b0 a :: running_sums (num_add b0 a) rest
  end.

(** What the user does once a statement is shown, and the requests
    that settle meanwhile. *)
Inductive action : Type :=
| TableEdit (filters : Filters) (id : jsstring) (field : Field)
    (value : jsstring)
| AcceptSuggestion (filters : Filters) (id : jsstring)
| DateSettled (k : nat) (answer : option jsstring).

Definition act (s : System) (a : action) : System :=
  match a with
  | TableEdit filters id field value => table_edit filters id field value s
  | AcceptSuggestion filters id => accept_suggestion filters id s
  | DateSettled k answer => step s (Settle k answer)
  end.

Definition session (s : System) (actions : list action) : System :=
  fold_left act actions s.

(** *** Example of an extraction *)

Definition extracted_row (d cnpj_s : string) (debit_q credit_q : Q)
  : ExtractedTransaction :=
  mkExtracted (str d) (str "PIX") (fl debit_q) (fl credit_q) []
    (str cnpj_s) [] false [].

(** A credit of 100.005, a debit of 50 on an impossible date and with an
    incomplete CNPJ, a credit of 1234.5. *)
Definition example_response : GeminiTransactionResponse :=
  mkResponse
    [extracted_row "2024-01-15" "11222333000181" 0 (100005 # 1000);
     extracted_row "2024-02-30" "123" 50 0;
     extracted_row "2024-03-01" "" 0 (12345 # 10)]
    (Some (fl (128451 # 100))).

Definition example_answers (k : nat) : option jsstring :=
  Some (str "2024-02-29").

Definition empty_state : AppState := mkApp [] None ∅ ∅ ∅.

Definition example_ingested : AppState :=
  handleFileSelect digit_uuid example_answers (Some example_response)
    empty_state.

(** The CNPJ of the second row is corrected, the suggested date is
    accepted, and a debit with three decimals is typed in the third. *)
Definition example_actions : list action :=
  [TableEdit initialFilters (str "1") cnpj (str "11.222.333/0001-81");
   AcceptSuggestion initialFilters (str "1");
   TableEdit initialFilters (str "2") debit (str "12,345")].

(** ** Category suggestions ([suggestNewCategory], [handleSuggestCategory]) *)

(** [suggestNewCategory]: [categories] is the constant
    [TRANSACTION_CATEGORIES]; the answer of the service is an oracle,
    [None] standing for a failed call. *)
Definition suggestNewCategory (categories : list jsstring)
    (answer : option jsstring) (description currentCategory : jsstring)
  : jsstring :=
  if is_empty (trim description) then currentCategory
  else match answer with
       | Some text =>
           let suggestedCategory := trim text in
           if existsb (jsstring_eqb suggestedCategory) categories
           then suggestedCategory
           else currentCategory
       | None => currentCategory
       end.

(** The application with the state [categorizingId] and the requests
    for a category that have not settled; each one has captured the row
    it was made for. *)
Record Desk : Type := mkDesk {
  desk_system : System;
  categorizingId : option jsstring;
  categorizing : list Transaction
}.

(** Truthiness of [categorizingId]. *)
Definition busy (d : Desk) : bool :=
  match categorizingId d with
  | Some id => negb (is_empty id)
  | None => false
  end.

(** [handleSuggestCategory] up to its [await]. *)
Definition handleSuggestCategory (transactionId : jsstring) (d : Desk) : Desk :=
  match List.find (fun t => jsstring_eqb (t_id t) transactionId)
          (transactions (app (desk_system d))) with
  | Some transaction =>
      if busy d then d
      else mkDesk (desk_system d) (Some transactionId)
             (categorizing d ++ [transaction])
  | None => d
  end.

(** The rest of [handleSuggestCategory], run when the request made for
    [transaction] settles. *)
Definition resume_category (categories : list jsstring)
    (transaction : Transaction) (answer : option jsstring)
    (sys : System) : System :=
  let newCategory :=
    suggestNewCategory categories answer (t_description transaction)
      (t_category transaction) in
  if negb (jsstring_eqb newCategory (t_category transaction))
  then step sys (Edit (set_field transaction category newCategory) category)
  else sys.

Inductive desk_event : Type :=
| Act (a : action)
| Suggest (transactionId : jsstring)
| CategorySettled (k : nat) (answer : option jsstring).

Definition desk_step (categories : list jsstring) (d : Desk) (e : desk_event)
  : Desk :=
  match e with
  | Act a => mkDesk (act (desk_system d) a) (categorizingId d) (categorizing d)
  | Suggest transactionId => handleSuggestCategory transactionId d
  | CategorySettled k answer =>
      match nth_error (categorizing d) k with
      | Some transaction =>
          mkDesk (resume_category categories transaction answer (desk_system d))
            None
            (firstn k (categorizing d) ++ skipn (S k) (categorizing d))
      | None => d
      end
  end.

Definition desk_run (categories : list jsstring) (d : Desk)
    (es : list desk_event) : Desk :=
  fold_left (desk_step categories) es d.

(** The requests in flight and the busy flag go together. *)
Definition one_in_flight (d : Desk) : Prop :=
  (categorizing d = [] /\ busy d = false)
  \/ (exists t, categorizing d = [t] /\ busy d = true).

(** *** Example: a suggestion that settles after an edit of its row *)

Definition example_categories : list jsstring :=
  [str "Impostos"; str "Fornecedores"; uncategorized].

Definition example_desk : Desk :=
  mkDesk (mkSystem example_ingested []) None [].

(** A category is asked for the second row, and then for the third;
    the CNPJ of the second row is corrected before any answer. *)
Definition example_desk_events : list desk_event :=
  [Suggest (str "1");
   Suggest (str "2");
   Act (TableEdit initialFilters (str "1") cnpj (str "11.222.333/0001-81"))].

(** ** The header form ([HeaderForm]) *)

Record CompanyInfo : Type := mkCompanyInfo {
  ci_companyName : jsstring;
  ci_cnpj : jsstring;
  ci_user : jsstring;
  ci_periodStart : jsstring;
  ci_periodEnd : jsstring;
  ci_bankName : jsstring
}.

(** [validate]: the object [newErrors], keyed by the names of the
    fields, and the result [Object.keys(newErrors).length === 0]. *)
Definition validate (info : CompanyInfo) : gmap jsstring string * bool :=
  let newErrors : gmap jsstring string := ∅ in
  let newErrors :=
    if is_empty (ci_companyName info)
    then <[str "companyName" := "Nome da empresa é obrigatório."%string]> newErrors
    else newErrors in
  let newErrors :=
    if is_empty (ci_bankName info)
    then <[str "bankName" := "Nome do banco é obrigatório."%string]> newErrors
    else newErrors in
  let newErrors :=
    if is_empty (ci_user info)
    then <[str "user" := "Nome do usuário é obrigatório."%string]> newErrors
    else newErrors in
  let newErrors :=
    if is_empty (ci_periodStart info)
    then <[str "periodStart" := "Data de início é obrigatória."%string]> newErrors
    else newErrors in
  let newErrors :=
    if is_empty (ci_periodEnd info)
    then <[str "periodEnd" := "Data de fim é obrigatória."%string]> newErrors
    else newErrors in
  let newErrors :=
    if is_empty (ci_cnpj info)
    then <[str "cnpj" := "CNPJ é obrigatório."%string]> newErrors
    else
      let cnpjValidation := validateCNPJ (ci_cnpj info) in
      if negb (isValid cnpjValidation)
      then <[str "cnpj" := message_of cnpjValidation]> newErrors
      else newErrors in
  let newErrors :=
    if negb (is_empty (ci_periodStart info))
       && negb (is_empty (ci_periodEnd info))
       && jsstring_ltb (ci_periodEnd info) (ci_periodStart info)
    then <[str "periodEnd" :=
             "Data de fim deve ser posterior à data de início."%string]> newErrors
    else newErrors in
  (newErrors, (length (map fst (map_to_list newErrors)) =? 0)%nat).

(** ** Dates as shown ([formatDateForDisplay]) *)

(** An element of a destructured array, as a template literal prints
    it: a missing element is [undefined]. *)
Definition element_text (parts : list jsstring) (k : nat) : jsstring :=
  match nth_error parts k with
  | Some part => part
  | None => str "undefined"
  end.

(** [formatDateForDisplay] of [src/App.tsx]; [formatDate] of
    [exportToPDF] is the same function. *)
Definition formatDateForDisplay (dateString : jsstring) : jsstring :=
  if is_empty dateString then []
  else
    let parts := split "-" dateString in
    let year := element_text parts 0 in
    let month := element_text parts 1 in
    let day := element_text parts 2 in
    day ++ "/"%char :: month ++ "/"%char :: year.

(** ** The window of rows that the table renders ([DataTable]) *)

Definition ROW_HEIGHT : Z := 60.
Definition VISIBLE_HEIGHT : Z := 600.
Definition BUFFER : Z := 5.

(** [l.slice(start, end)] (ECMAScript, 23.1.3.28): a negative index
    counts from the end, and both indices are clamped to the list. *)
Definition slice {A : Type} (start final : Z) (l : list A) : list A :=
  let len := Z.of_nat (length l) in
  let k := if start <? 0 then Z.max (len + start) 0 else Z.min start len in
  let final := if final <? 0 then Z.max (len + final) 0 else Z.min final len in
  firstn (Z.to_nat (final - k)) (skipn (Z.to_nat k) l).

Record Window : Type := mkWindow {
  virtualItems : list Transaction;
  paddingTop : Z;
  paddingBottom : Z
}.

(** The [useMemo] of the virtualization; both paddings are whole
    numbers of pixels. *)
Definition virtual_window (transactions : list Transaction) (scrollTop : Q)
  : Window :=
  let startIndex := Qfloor (scrollTop / inject_Z ROW_HEIGHT) in
  let effectiveStartIndex := Z.max 0 (startIndex - BUFFER) in
  let endIndex :=
    Z.min (Z.of_nat (length transactions))
          (Qceiling ((scrollTop + inject_Z VISIBLE_HEIGHT) / inject_Z ROW_HEIGHT)
           + BUFFER) in
  mkWindow (slice effectiveStartIndex endIndex transactions)
           (effectiveStartIndex * ROW_HEIGHT)
           ((Z.of_nat (length transactions) - endIndex) * ROW_HEIGHT).

(** ** Export as text ([exportToTXT]) *)

(** The column titles; the letters outside ASCII are given by their
    code: U+00E7, U+00E3 and U+00E9. *)
Definition HEADERS : list jsstring :=
  [str "Data";
   str "Descri" ++ "231"%char :: "227"%char :: str "o";
   str "Nome da Empresa";
   str "CNPJ";
   str "Categoria";
   str "D" ++ "233"%char :: str "bito";
   str "Cr" ++ "233"%char :: str "dito";
   str "Saldo";
   str "Incomum";
   str "Motivo da Sinaliza" ++ "231"%char :: "227"%char :: str "o"].

(** [getRowsForExport], each cell as a string; [show_balance] is the
    [toLocaleString] that prints the balance. *)
Definition getRowsForExport (show_balance : number -> jsstring)
    (data : list Transaction) : list (list jsstring) :=
  map (fun t =>
         [t_date t; t_description t; t_companyName t; t_cnpj t;
          t_category t; t_debit t; t_credit t; show_balance (t_balance t);
          if t_isUnusual t then str "Sim" else str "N" ++ "227"%char :: str "o";
          t_unusualReason t]) data.

(** [gs.join(sep)]. *)
Fixpoint join_with (sep : jsstring) (gs : list jsstring) : jsstring :=
  match gs with
  | [] => []
  | g :: rest =>
      match rest with
      | [] => g
      | _ :: _ => g ++ sep ++ join_with sep rest
      end
  end.

(** [s.padEnd(w)]. *)
Definition padEnd (s : jsstring) (w : nat) : jsstring :=
  s ++ repeat " "%char (w - length s).

(** [Math.max(h.length, ...rows.map(r => r[i].length))] for every
    title [h] at the index [i]. *)
Definition colWidths (rows : list (list jsstring)) : list nat :=
  imap (fun i h =>
          fold_right Nat.max 0%nat
            (length h :: map (fun r => length (nth i r [])) rows))
       HEADERS.

(** [cells.map((cell, i) => cell.padEnd(colWidths[i]))]. *)
Definition pad_cells (widths : list nat) (cells : list jsstring)
  : list jsstring :=
  imap (fun i cell => padEnd cell (nth i widths 0%nat)) cells.

Definition newline : ascii := "010"%char.

(** The text that [exportToTXT] downloads; [None] when it returns
    without a download. *)
Definition exportToTXT (show_balance : number -> jsstring)
    (data : list Transaction) : option jsstring :=
  if (length data =? 0)%nat then None
  else
    let rows := getRowsForExport show_balance data in
    let colWidths := colWidths rows in
    let txtContent :=
      join_with (str " | ") (pad_cells colWidths HEADERS) ++ [newline] in
    let txtContent :=
      txtContent
      ++ join_with (str "-|-") (map (fun w => repeat "-"%char w) colWidths)
      ++ [newline] in
    Some (fold_left
            (fun txtContent row =>
               txtContent
               ++ join_with (str " | ") (pad_cells colWidths row)
               ++ [newline])
            rows txtContent).

(** ** The order of dates *)

(** The date [(y1, m1, d1)] is before the date [(y2, m2, d2)]. *)
Definition date_lt (y1 m1 d1 y2 m2 d2 : Z) : Prop :=
  y1 < y2 \/ (y1 = y2 /\ (m1 < m2 \/ (m1 = m2 /\ d1 < d2))).

(** The day number of a date of the calendar, as [MakeDay] gives it. *)
Definition day_number (y m d : Z) : Z :=
  DayFromYear y + month_start (if is_leap_year y then 1 else 0) (m - 1) + d - 1.

(** * Properties *)

(** ** Characters and strings *)

Lemma ascii_eqb_eq a b : ascii_eqb a b = true <-> a = b.
Proof. apply Ascii.eqb_eq. Qed.

Lemma is_digit_code c : is_digit c = true <-> 48 <= code c <= 57.
Proof. unfold is_digit. rewrite andb_true_iff, !Z.leb_le. tauto. Qed.

Lemma digit_value_range c : is_digit c = true -> 0 <= digit_value c <= 9.
Proof. rewrite is_digit_code. unfold digit_value. lia. Qed.

Lemma includes_char_In c s : includes_char c s = true <-> In c s.
Proof.
  unfold includes_char. rewrite existsb_exists. split.
  - intros (x & Hx & E). apply ascii_eqb_eq in E. now subst.
  - intros H. exists c. split; [assumption | now apply ascii_eqb_eq].
Qed.

Lemma digits_free c ds :
  is_digit c = false -> forallb is_digit ds = true -> free_of c ds.
Proof.
  intros Hc Hd Hin. rewrite forallb_forall in Hd. apply Hd in Hin. congruence.
Qed.

Lemma filter_free c s : free_of c s -> List.filter (ascii_eqb c) s = [].
Proof.
  unfold free_of. induction s as [|x r IH]; simpl; intros H; [reflexivity|].
  destruct (ascii_eqb c x) eqn:E.
  - apply ascii_eqb_eq in E. subst. tauto.
  - apply IH. tauto.
Qed.

Lemma split_free c s : free_of c s -> split c s = [s].
Proof.
  unfold free_of. induction s as [|x r IH]; simpl; intros H; [reflexivity|].
  destruct (ascii_eqb x c) eqn:E.
  - apply ascii_eqb_eq in E. subst. tauto.
  - rewrite IH by tauto. reflexivity.
Qed.

Lemma split_app_sep c g r :
  free_of c g -> split c (g ++ c :: r) = g :: split c r.
Proof.
  unfold free_of. induction g as [|x g IH]; simpl; intros H.
  - assert (ascii_eqb c c = true) as -> by now apply ascii_eqb_eq.
    reflexivity.
  - destruct (ascii_eqb x c) eqn:E.
    + apply ascii_eqb_eq in E. subst. tauto.
    + rewrite IH by tauto. reflexivity.
Qed.

Lemma split_join c gs :
  gs <> [] -> Forall (free_of c) gs -> split c (join c gs) = gs.
Proof.
  induction gs as [|g rest IH]; [congruence|]. intros _ H.
  inversion H as [|? ? Hg Hrest]; subst.
  destruct rest as [|g' rest'].
  - simpl. now apply split_free.
  - change (join c (g :: g' :: rest')) with (g ++ c :: join c (g' :: rest')).
    rewrite split_app_sep by assumption. f_equal.
    apply IH; [discriminate | assumption].
Qed.

Lemma join_has_sep c g g' rest : In c (join c (g :: g' :: rest)).
Proof.
  change (join c (g :: g' :: rest)) with (g ++ c :: join c (g' :: rest)).
  apply in_or_app. right. now left.
Qed.

Lemma trimStart_no_space s :
  forallb (fun c => negb (is_space c)) s = true -> trimStart s = s.
Proof.
  destruct s as [|c r]; [reflexivity|]. simpl.
  rewrite andb_true_iff, negb_true_iff. intros [-> _]. reflexivity.
Qed.

Lemma trim_no_space s :
  forallb (fun c => negb (is_space c)) s = true -> trim s = s.
Proof.
  intros H. unfold trim, trimEnd. rewrite (trimStart_no_space s H).
  rewrite trimStart_no_space; [apply rev_involutive|].
  rewrite forallb_forall in *. intros x Hx. apply H. now apply in_rev.
Qed.

(** ** Numbers *)

Lemma Qred_idem q : Qred (Qred q) = Qred q.
Proof. apply Qred_complete, Qred_correct. Qed.

Lemma Qred_zero q : Qeq_bool (Qred q) 0 = true -> Qred q = 0%Q.
Proof.
  intros H. apply Qeq_bool_iff in H. rewrite Qred_correct in H.
  apply Qred_complete in H. exact H.
Qed.

Lemma canonical_or_zero x : canonical x -> isNaN x = false -> or_zero x = x.
Proof.
  destruct x; simpl; try congruence. intros Hc _.
  destruct (Qeq_bool q 0) eqn:E; [|reflexivity].
  rewrite <- Hc in E. apply Qred_zero in E. congruence.
Qed.

Lemma num_neg_canonical x : canonical (num_neg x).
Proof. destruct x; simpl; auto using Qred_idem. Qed.

Lemma fl_pos_canonical q : canonical (fl_pos q).
Proof.
  unfold fl_pos. destruct (Qle_bool _ _); [exact I | apply Qred_idem].
Qed.

Lemma fl_canonical q : canonical (fl q).
Proof.
  unfold fl. cbv zeta. destruct (Qred q ?= 0)%Q;
    [reflexivity | apply num_neg_canonical | apply fl_pos_canonical].
Qed.

Lemma fl_not_NaN q : isNaN (fl q) = false.
Proof.
  unfold fl, fl_pos. cbv zeta.
  destruct (Qred q ?= 0)%Q; [reflexivity| |];
    destruct (Qle_bool _ _); reflexivity.
Qed.

(** Rounding depends on the value alone. *)
Lemma fl_Qeq p q : (p == q)%Q -> fl p = fl q.
Proof. intros H. unfold fl. now rewrite (Qred_complete _ _ H). Qed.

Lemma round_half_even_nonneg x : (0 <= x)%Q -> 0 <= round_half_even x.
Proof.
  intros H. unfold round_half_even.
  assert (0 <= Qfloor x).
  { change 0 with (Qfloor 0). now apply Qfloor_resp_le. }
  destruct (_ ?= _)%Q; [destruct (Z.even _)| |]; lia.
Qed.

(** A number that is not negative is rounded to one that is not, or to
    the positive infinity. *)
Lemma fl_nonneg q :
  (0 <= q)%Q -> fl q = PosInf \/ exists q', fl q = Num q' /\ (0 <= q')%Q.
Proof.
  intros Hq. rewrite <- (Qred_correct q) in Hq.
  unfold fl. cbv zeta. generalize dependent (Qred q). clear q. intros q Hq.
  destruct (q ?= 0)%Q eqn:C.
  - right. exists 0%Q. split; [reflexivity | discriminate].
  - apply Qlt_alt in C. exfalso. apply (Qlt_not_le _ _ C Hq).
  - unfold fl_pos.
    set (e := Z.max (ilog2 q - 52) (-1074)).
    destruct (Qle_bool _ _); [now left|]. right.
    eexists. split; [reflexivity|]. rewrite Qred_correct.
    assert (Hp : (0 < Qpower 2 e)%Q) by (apply Qpower_0_lt; reflexivity).
    apply Qmult_le_0_compat; [|now apply Qlt_le_weak].
    change 0%Q with (inject_Z 0). rewrite <- Zle_Qle.
    apply round_half_even_nonneg.
    apply Qle_shift_div_l; [exact Hp|]. now rewrite Qmult_0_l.
Qed.

Lemma unsigned_literal_canonical s : canonical (unsigned_literal s).
Proof.
  unfold unsigned_literal, decimal_value.
  destruct (is_prefix _ s); [exact I|].
  destruct (span_digits s) as [ip s2].
  destruct (after_char _ s2) as [r|].
  - destruct (span_digits r) as [fp s3].
    destruct (is_empty ip && is_empty fp); [exact I | apply fl_canonical].
  - destruct (is_empty ip); [exact I | apply fl_canonical].
Qed.

Lemma parseFloat_canonical s : canonical (parseFloat s).
Proof.
  unfold parseFloat.
  destruct (after_char "+" _); [apply unsigned_literal_canonical|].
  destruct (after_char "-" _);
    [apply num_neg_canonical | apply unsigned_literal_canonical].
Qed.

Example parseFloat_examples :
  parseFloat (str "1234.56") = fl (123456 # 100)
  /\ parseFloat (str "  -12.5e2xyz") = of_Z (-1250)
  /\ parseFloat (str ".5") = Num (1 # 2)
  /\ parseFloat (str "5.") = of_Z 5
  /\ parseFloat (str "1e") = of_Z 1
  /\ parseFloat (str "1e-2") = fl (1 # 100)
  /\ parseFloat (str "1e400") = PosInf
  /\ parseFloat (str "0.30000000000000004")
     = num_add (fl (1 # 10)) (fl (2 # 10))
  /\ parseFloat (str "-Infinity") = NegInf
  /\ parseFloat (str ".") = NaN
  /\ parseFloat (str "+-1") = NaN
  /\ parseFloat (str "abc") = NaN
  /\ parseFloat [] = NaN.
Proof. repeat split; vm_compute; reflexivity. Qed.

(** ** Currency *)

Lemma parseCurrency_not_NaN s : isNaN (parseCurrency s) = false.
Proof.
  unfold parseCurrency. destruct (is_empty s); [reflexivity|].
  destruct (parseFloat _) eqn:E; reflexivity.
Qed.

Lemma parseCurrency_canonical s : canonical (parseCurrency s).
Proof.
  unfold parseCurrency. destruct (is_empty s); [reflexivity|].
  pose proof (parseFloat_canonical (replace_comma (remove_dots s))) as H.
  destruct (parseFloat _); simpl in *; auto.
Qed.

Lemma or_zero_parseCurrency s : or_zero (parseCurrency s) = parseCurrency s.
Proof.
  apply canonical_or_zero;
    [apply parseCurrency_canonical | apply parseCurrency_not_NaN].
Qed.

(** C6. [parseCurrency] is total and never fails: it returns a number
    that is not [NaN] for every input string; the empty string gives 0;
    an input that [parseFloat] cannot read once its dots are removed and
    its comma is replaced by a point gives 0; and "1.234,56" gives
    1234.56. *)
Theorem parseCurrency_total :
  (forall s, isNaN (parseCurrency s) = false)
  /\ parseCurrency [] = Num 0
  /\ (forall s, parseFloat (replace_comma (remove_dots s)) = NaN ->
                parseCurrency s = Num 0)
  /\ parseCurrency (str "1.234,56") = fl (123456 # 100)
  /\ parseCurrency (str "abc") = Num 0.
Proof.
  split; [exact parseCurrency_not_NaN|].
  split; [reflexivity|].
  split; [|split; vm_compute; reflexivity].
  intros s H. unfold parseCurrency. rewrite H.
  destruct (is_empty s); reflexivity.
Qed.

Example parseCurrency_examples :
  parseCurrency (str "100,00") = of_Z 100
  /\ parseCurrency (str "1.234.567,8") = fl (12345678 # 10)
  /\ parseCurrency (str "12,5,7") = Num (25 # 2)
  /\ parseCurrency (str "R$ 10") = of_Z 0
  /\ parseCurrency (str "Infinity") = PosInf.
Proof. repeat split; vm_compute; reflexivity. Qed.

Example validateCurrency_examples :
  validateCurrency (str "1.234,56") = valid
  /\ validateCurrency (str "1234,56") = valid
  /\ validateCurrency (str "  ") = valid
  /\ isValid (validateCurrency (str "1.23,45")) = false
  /\ isValid (validateCurrency (str "1234.567")) = false
  /\ isValid (validateCurrency (str "1,234")) = false
  /\ isValid (validateCurrency (str "1,2,3")) = false
  /\ isValid (validateCurrency (str "-5")) = false
  /\ validateCurrency (str ".123") = valid.
Proof. repeat split; vm_compute; reflexivity. Qed.

Lemma is_currency_char_not_space c :
  is_currency_char c = true -> is_space c = false.
Proof.
  unfold is_currency_char. rewrite !orb_true_iff, !ascii_eqb_eq, is_digit_code.
  intros [[H | ->] | ->]; [|reflexivity|reflexivity].
  unfold is_space.
  repeat match goal with
  | |- context [?a <=? ?b] => destruct (Z.leb_spec a b)
  | |- context [?a =? ?b] => destruct (Z.eqb_spec a b)
  end; simpl; try reflexivity; lia.
Qed.

Lemma trim_currency s : forallb is_currency_char s = true -> trim s = s.
Proof.
  intros H. apply trim_no_space. rewrite forallb_forall in *.
  intros x Hx. rewrite negb_true_iff. auto using is_currency_char_not_space.
Qed.

Lemma integer_part_split s ip :
  integer_part_of s ip -> nth 0 (split "," s) [] = ip.
Proof.
  intros [Hfree [-> | [frac ->]]].
  - now rewrite split_free.
  - now rewrite split_app_sep.
Qed.

Lemma groups_of_three_false gs :
  Exists (fun g => length g <> 3%nat) gs -> groups_of_three gs = false.
Proof.
  unfold groups_of_three. induction 1 as [g gs H | g gs H IH]; simpl.
  - apply Nat.eqb_neq in H. now rewrite H.
  - rewrite IH. apply andb_false_r.
Qed.

(** C5, as the code has it. For a non-empty input made of digits, dots
    and at most one comma, whose integer part contains a dot (so that it
    splits into a leftmost group [g0] and at least one more group),
    [validateCurrency] reports invalid whenever [g0] is longer than 3
    characters or a subsequent group is not exactly 3 characters long. *)
Theorem validateCurrency_grouping (s ip g0 : jsstring) (gs : list jsstring) :
  s <> [] ->
  forallb is_currency_char s = true ->
  (count_commas s <= 1)%nat ->
  integer_part_of s ip ->
  thousands_groups_of ip (g0 :: gs) ->
  gs <> [] ->
  (3 < length g0)%nat \/ Exists (fun g => length g <> 3%nat) gs ->
  isValid (validateCurrency s) = false.
Proof.
  intros Hne Hchars Hcommas Hip (_ & Hfree & Hjoin) Hgs Hbad.
  unfold validateCurrency. rewrite (trim_currency s Hchars).
  destruct s as [|c0 s0]; [congruence|].
  change (is_empty (c0 :: s0)) with false. cbv [orb].
  set (s := c0 :: s0) in *.
  rewrite Hchars. change (negb true) with false. cbv iota.
  destruct (1 <? count_commas s)%nat; [reflexivity|].
  destruct (includes_char "," s && _); [reflexivity|].
  rewrite (integer_part_split s ip Hip).
  assert (includes_char "." ip = true) as ->.
  { apply includes_char_In. rewrite Hjoin. destruct gs; [congruence|].
    apply join_has_sep. }
  rewrite Hjoin, split_join by (assumption || discriminate).
  simpl nth. simpl tl.
  destruct Hbad as [H | H].
  - apply Nat.ltb_lt in H. rewrite H. reflexivity.
  - destruct (3 <? length g0)%nat; [reflexivity|].
    rewrite (groups_of_three_false gs H). reflexivity.
Qed.

Lemma validateCurrency_grouping_witness :
  isValid (validateCurrency (str "12.3,45")) = false.
Proof.
  apply (validateCurrency_grouping (str "12.3,45") (str "12.3") (str "12")
           [str "3"]).
  - discriminate.
  - reflexivity.
  - vm_compute. lia.
  - split; [|right; exists (str "45"); reflexivity].
    intros H. vm_compute in H. intuition discriminate.
  - split; [discriminate|]. split; [|reflexivity].
    repeat constructor; intros H; vm_compute in H; intuition discriminate.
  - discriminate.
  - right. constructor. vm_compute. lia.
Defined.

(** C5, as stated, fails: "1234" is non-empty, made of digits only, its
    integer part is the whole string, which is a single group of 4
    digits (not 1 to 3), yet [validateCurrency] accepts it: the groups
    are only examined when the integer part contains a dot. *)
Lemma validateCurrency_grouping_counterexample :
  str "1234" <> []
  /\ forallb is_currency_char (str "1234") = true
  /\ (count_commas (str "1234") <= 1)%nat
  /\ integer_part_of (str "1234") (str "1234")
  /\ thousands_groups_of (str "1234") [str "1234"]
  /\ ~ (1 <= length (str "1234") <= 3)%nat
  /\ isValid (validateCurrency (str "1234")) = true.
Proof.
  split; [discriminate|]. split; [reflexivity|].
  split; [vm_compute; lia|].
  split.
  { split; [|left; reflexivity]. intros H. vm_compute in H.
    intuition discriminate. }
  split.
  { split; [discriminate|]. split; [|reflexivity].
    repeat constructor. intros H. vm_compute in H. intuition discriminate. }
  split; [vm_compute; lia | reflexivity].
Qed.

(** C10. A comma followed by at most two digits, and nothing before the
    comma, is accepted. *)
Theorem validateCurrency_empty_integer_part (ds : jsstring) :
  forallb is_digit ds = true -> (length ds <= 2)%nat ->
  validateCurrency (","%char :: ds) = valid.
Proof.
  intros Hd Hlen.
  assert (Hcomma : free_of "," ds) by now apply digits_free.
  assert (Hchars : forallb is_currency_char (","%char :: ds) = true).
  { simpl. rewrite forallb_forall in *. intros x Hx. unfold is_currency_char.
    now rewrite (Hd x Hx). }
  unfold validateCurrency. rewrite (trim_currency _ Hchars).
  change (is_empty (","%char :: ds)) with false. cbv [orb].
  rewrite Hchars. change (negb true) with false. cbv iota.
  assert (count_commas (","%char :: ds) = 1%nat) as ->.
  { unfold count_commas. simpl. now rewrite filter_free. }
  change (1 <? 1)%nat with false. cbv iota.
  change (","%char :: ds) with ([] ++ ","%char :: ds).
  rewrite split_app_sep by (intros []). rewrite split_free by assumption.
  simpl nth. apply Nat.ltb_ge in Hlen. rewrite Hlen, andb_false_r.
  reflexivity.
Qed.

Lemma validateCurrency_empty_integer_part_witness :
  validateCurrency (str ",5") = valid.
Proof.
  apply (validateCurrency_empty_integer_part (str "5")).
  - reflexivity.
  - simpl. lia.
Defined.

(** ** CNPJ *)

Lemma spec_sum_from_nonneg vs : forall k,
  Forall (fun v => 0 <= v) vs -> 0 <= spec_sum_from k vs.
Proof.
  induction vs as [|v vs IH]; simpl; intros k H; [lia|].
  inversion H; subst. specialize (IH (S k) ltac:(assumption)).
  unfold spec_weight. nia.
Qed.

Lemma spec_weighted_sum_nonneg ds :
  forallb is_digit ds = true -> 0 <= spec_weighted_sum ds.
Proof.
  intros H. apply spec_sum_from_nonneg. apply List.Forall_forall. intros v Hv.
  apply in_rev, in_map_iff in Hv as (c & <- & Hc).
  rewrite forallb_forall in H. apply digit_value_range; auto.
Qed.

Ltac weights :=
  unfold digit_at; simpl nth_error; change (Z.of_nat 12) with 12;
  change (Z.of_nat 13) with 13;
  repeat match goal with
  | |- context [spec_weight ?k] =>
      let v := eval vm_compute in (spec_weight k) in
      change (spec_weight k) with v
  end.

Local Opaque digit_value.

Lemma check_loop_12 d1 d2 d3 d4 d5 d6 d7 d8 d9 d10 d11 d12 :
  check_loop [d1;d2;d3;d4;d5;d6;d7;d8;d9;d10;d11;d12] 12 12 (Z.of_nat 12 - 7) 0
  = spec_weighted_sum [d1;d2;d3;d4;d5;d6;d7;d8;d9;d10;d11;d12].
Proof. unfold spec_weighted_sum. simpl. weights. ring. Qed.

Lemma check_loop_13 d1 d2 d3 d4 d5 d6 d7 d8 d9 d10 d11 d12 d13 :
  check_loop [d1;d2;d3;d4;d5;d6;d7;d8;d9;d10;d11;d12;d13] 13 13 (Z.of_nat 13 - 7) 0
  = spec_weighted_sum [d1;d2;d3;d4;d5;d6;d7;d8;d9;d10;d11;d12;d13].
Proof. unfold spec_weighted_sum. simpl. weights. ring. Qed.

Local Transparent digit_value.

Lemma check_digit_spec numbers size :
  forallb is_digit numbers = true ->
  check_loop numbers size size (Z.of_nat size - 7) 0 = spec_weighted_sum numbers ->
  check_digit numbers size = spec_check_digit numbers.
Proof.
  intros Hd E. unfold check_digit, spec_check_digit. rewrite E.
  rewrite Z.rem_mod_nonneg by (auto using spec_weighted_sum_nonneg || lia).
  reflexivity.
Qed.

Lemma repeated_digit_spec d :
  length d = 14%nat -> forallb is_digit d = true ->
  repeated_digit d = true <-> exists c, d = repeat c 14.
Proof.
  intros Hlen Hd.
  do 14 (destruct d as [|? d]; [discriminate|]). destruct d; [|discriminate].
  simpl in Hd. simpl repeated_digit.
  unfold ascii_eqb. rewrite !andb_true_iff, !Ascii.eqb_eq.
  split.
  - intros H. exists a. simpl. decompose [and] H. subst. reflexivity.
  - intros [c E]. simpl in E. injection E as -> -> -> -> -> -> -> -> -> -> -> -> -> ->.
    rewrite !andb_true_iff in Hd. intuition.
Qed.

Lemma strip_digits s : forallb is_digit (strip_non_digits s) = true.
Proof.
  apply forallb_forall. intros x Hx. apply filter_In in Hx. tauto.
Qed.

Lemma validateCNPJ_iff (s : jsstring) :
  isValid (validateCNPJ s) = true
  <-> s = [] \/ spec_valid_cnpj (strip_non_digits s).
Proof.
  destruct s as [|c0 s0]; [simpl; tauto|].
  unfold validateCNPJ. change (is_empty (c0 :: s0)) with false. cbv iota.
  pose proof (strip_digits (c0 :: s0)) as Hd.
  set (d := strip_non_digits (c0 :: s0)) in *. clearbody d.
  unfold spec_valid_cnpj.
  destruct (Nat.eqb_spec (length d) 14) as [Hlen | Hlen]; simpl negb; cbv iota.
  2:{ simpl. split; [discriminate|]. intros [? | [? _]]; [discriminate | contradiction]. }
  pose proof (repeated_digit_spec d Hlen Hd) as Hrep.
  rewrite Hlen. change (14 - 2)%nat with 12%nat. change (12 + 1)%nat with 13%nat.
  do 14 (destruct d as [|? d]; [discriminate|]). destruct d; [|discriminate].
  clear Hlen.
  unfold substring_to, substring_from. simpl firstn. simpl skipn.
  simpl in Hd. rewrite !andb_true_iff in Hd.
  rewrite !check_digit_spec; try apply check_loop_12; try apply check_loop_13;
    try (simpl; rewrite !andb_true_iff; tauto).
  change (digit_at [a11; a12] 0) with (digit_value a11).
  change (digit_at [a11; a12] 1) with (digit_value a12).
  destruct (repeated_digit _).
  { simpl. split; [discriminate|]. intros [? | (_ & Hn & _)]; [discriminate|].
    destruct (proj1 Hrep eq_refl) as [c Hc]. exfalso. eapply Hn. exact Hc. }
  match goal with |- context [negb (Z.eqb ?a ?b)] => destruct (Z.eqb_spec a b) as [E1|E1] end;
  simpl negb; cbv iota.
  2:{ simpl. split; [discriminate|]. intros [? | (_ & _ & c13 & c14 & H1 & H2 & H3 & H4)]; [discriminate|].
      simpl in H1, H2. injection H1 as <-. injection H2 as <-. contradiction. }
  match goal with |- context [negb (Z.eqb ?a ?b)] => destruct (Z.eqb_spec a b) as [E2|E2] end;
  simpl negb; cbv iota.
  2:{ simpl. split; [discriminate|]. intros [? | (_ & _ & c13 & c14 & H1 & H2 & H3 & H4)]; [discriminate|].
      simpl in H1, H2. injection H1 as <-. injection H2 as <-. contradiction. }
  simpl. split; [intros _ | reflexivity]. right. split; [reflexivity|]. split.
  - intros c Hc. assert (false = true) as Hf by (apply (proj2 Hrep); exists c; exact Hc).
    discriminate Hf.
  - exists a11, a12. auto.
Qed.

(** C3. [validateCNPJ] accepts the empty string, and accepts a non-empty
    input exactly when its digits (everything else being stripped) are a
    well-formed CNPJ in the sense of the specification: 14 digits, not a
    single digit repeated, and both check digits equal to the modulus-11
    weighted sums of the first 12 and of the first 13 digits.  In
    particular "11222333000181" is accepted. *)
Theorem validateCNPJ_spec :
  validateCNPJ [] = valid
  /\ (forall s : jsstring,
        isValid (validateCNPJ s) = true
        <-> s = [] \/ spec_valid_cnpj (strip_non_digits s))
  /\ validateCNPJ (str "11222333000181") = valid
  /\ validateCNPJ (str "11.222.333/0001-81") = valid
  /\ isValid (validateCNPJ (str "11222333000182")) = false.
Proof.
  split; [reflexivity|]. split; [exact validateCNPJ_iff|].
  repeat split; vm_compute; reflexivity.
Qed.

Lemma strip_cons c s :
  strip_non_digits (c :: s)
  = if is_digit c then c :: strip_non_digits s else strip_non_digits s.
Proof. reflexivity. Qed.

Lemma strip_mask_dot1 s : strip_non_digits (mask_dot1 s) = strip_non_digits s.
Proof.
  destruct s as [|a [|b [|c r]]]; try reflexivity.
  unfold mask_dot1. destruct (_ && _) eqn:E; [|reflexivity].
  rewrite !strip_cons. reflexivity.
Qed.

Lemma strip_mask_dot2 s : strip_non_digits (mask_dot2 s) = strip_non_digits s.
Proof.
  destruct s as [|a [|b [|p [|c [|d [|e [|f r]]]]]]]; try reflexivity.
  unfold mask_dot2. destruct (_ && _) eqn:E; [|reflexivity].
  rewrite !strip_cons. reflexivity.
Qed.

Lemma strip_mask_slash s : strip_non_digits (mask_slash s) = strip_non_digits s.
Proof.
  induction s as [|p r IH]; [reflexivity|].
  assert (Hrec : strip_non_digits (p :: mask_slash r) = strip_non_digits (p :: r)).
  { rewrite !strip_cons, IH. reflexivity. }
  destruct r as [|a [|b [|c [|d t]]]]; try exact Hrec.
  change (mask_slash (p :: a :: b :: c :: d :: t))
    with (if ascii_eqb p "." && is_digit a && is_digit b && is_digit c && is_digit d
          then p :: a :: b :: c :: "/"%char :: d :: t
          else p :: mask_slash (a :: b :: c :: d :: t)).
  destruct (_ && _); [|exact Hrec].
  rewrite !strip_cons. reflexivity.
Qed.

Lemma strip_mask_dash s : strip_non_digits (mask_dash s) = strip_non_digits s.
Proof.
  induction s as [|p r IH]; [reflexivity|].
  assert (Hrec : strip_non_digits (p :: mask_dash r) = strip_non_digits (p :: r)).
  { rewrite !strip_cons, IH. reflexivity. }
  destruct r as [|a [|b [|c [|d t]]]]; try exact Hrec.
  change (mask_dash (p :: a :: b :: c :: d :: t))
    with (if is_digit p && is_digit a && is_digit b && is_digit c && is_digit d
          then p :: a :: b :: c :: "-"%char :: d :: t
          else p :: mask_dash (a :: b :: c :: d :: t)).
  destruct (_ && _); [|exact Hrec].
  rewrite !strip_cons. reflexivity.
Qed.

Lemma length_mask_dot1 s : (length (mask_dot1 s) <= S (length s))%nat.
Proof.
  destruct s as [|a [|b [|c r]]]; simpl; try lia.
  destruct (_ && _); simpl; lia.
Qed.

Lemma length_mask_dot2 s : (length (mask_dot2 s) <= S (length s))%nat.
Proof.
  destruct s as [|a [|b [|p [|c [|d [|e [|f r]]]]]]]; simpl; try lia.
  destruct (_ && _); simpl; lia.
Qed.

Lemma length_mask_slash s : (length (mask_slash s) <= S (length s))%nat.
Proof.
  induction s as [|p r IH]; [simpl; lia|].
  assert (Hrec : (length (p :: mask_slash r) <= S (length (p :: r)))%nat) by (simpl; lia).
  destruct r as [|a [|b [|c [|d t]]]]; try exact Hrec.
  change (mask_slash (p :: a :: b :: c :: d :: t))
    with (if ascii_eqb p "." && is_digit a && is_digit b && is_digit c && is_digit d
          then p :: a :: b :: c :: "/"%char :: d :: t
          else p :: mask_slash (a :: b :: c :: d :: t)).
  destruct (_ && _); [simpl; lia | exact Hrec].
Qed.

Lemma length_mask_dash s : (length (mask_dash s) <= S (length s))%nat.
Proof.
  induction s as [|p r IH]; [simpl; lia|].
  assert (Hrec : (length (p :: mask_dash r) <= S (length (p :: r)))%nat) by (simpl; lia).
  destruct r as [|a [|b [|c [|d t]]]]; try exact Hrec.
  change (mask_dash (p :: a :: b :: c :: d :: t))
    with (if is_digit p && is_digit a && is_digit b && is_digit c && is_digit d
          then p :: a :: b :: c :: "-"%char :: d :: t
          else p :: mask_dash (a :: b :: c :: d :: t)).
  destruct (_ && _); [simpl; lia | exact Hrec].
Qed.

Example formatCNPJForDisplay_examples :
  formatCNPJForDisplay (str "11222333000181") = str "11.222.333/0001-81"
  /\ formatCNPJForDisplay (str "11.222.333/0001-81") = str "11.222.333/0001-81"
  /\ formatCNPJForDisplay (str "1122233") = str "11.222.33"
  /\ formatCNPJForDisplay (str "112") = str "11.2"
  /\ formatCNPJForDisplay (str "112223330001812") = str "11.222.333/0001-81"
  /\ formatCNPJForDisplay (str "abc") = [].
Proof. repeat split; vm_compute; reflexivity. Qed.

Lemma strip_idem s : strip_non_digits (strip_non_digits s) = strip_non_digits s.
Proof.
  unfold strip_non_digits. induction s as [|c r IH]; [reflexivity|].
  simpl. destruct (is_digit c) eqn:E; [|exact IH]. simpl. rewrite E, IH. reflexivity.
Qed.

Lemma strip_format s :
  (length (strip_non_digits s) <= 14)%nat ->
  strip_non_digits (formatCNPJForDisplay s) = strip_non_digits s.
Proof.
  intros H. unfold formatCNPJForDisplay, slice_to.
  set (d := strip_non_digits s) in *.
  pose proof (length_mask_dot1 d).
  pose proof (length_mask_dot2 (mask_dot1 d)).
  pose proof (length_mask_slash (mask_dot2 (mask_dot1 d))).
  pose proof (length_mask_dash (mask_slash (mask_dot2 (mask_dot1 d)))).
  rewrite firstn_all2 by lia.
  rewrite strip_mask_dash, strip_mask_slash, strip_mask_dot2, strip_mask_dot1.
  apply strip_idem.
Qed.

Lemma validateCNPJ_ext a b :
  is_empty a = is_empty b -> strip_non_digits a = strip_non_digits b ->
  validateCNPJ a = validateCNPJ b.
Proof. intros H1 H2. unfold validateCNPJ. rewrite H1, H2. reflexivity. Qed.

Lemma strip_nonempty s : strip_non_digits s <> [] -> is_empty s = false.
Proof. destruct s; [simpl; congruence | reflexivity]. Qed.

(** C9, as the code has it. For an input that is empty or contains
    between 1 and 14 digits, validating the display form gives the same
    result as validating the input. *)
Theorem validateCNPJ_format (s : jsstring) :
  s = [] \/ (1 <= length (strip_non_digits s) <= 14)%nat ->
  validateCNPJ (formatCNPJForDisplay s) = validateCNPJ s.
Proof.
  intros [-> | [Hlo Hhi]]; [reflexivity|].
  pose proof (strip_format s Hhi) as E.
  apply validateCNPJ_ext; [|exact E].
  assert (strip_non_digits s <> []) as Hne by (destruct (strip_non_digits s); simpl in *; [lia | discriminate]).
  rewrite (strip_nonempty s Hne). apply strip_nonempty. now rewrite E.
Qed.

Lemma validateCNPJ_format_witness :
  validateCNPJ (formatCNPJForDisplay (str "11222333000181"))
  = validateCNPJ (str "11222333000181").
Proof.
  apply (validateCNPJ_format (str "11222333000181")).
  right.
  change (length (strip_non_digits (str "11222333000181"))) with 14%nat.
  lia.
Defined.

(** C9, as stated, fails on a non-empty input without digits: "abc" has
    at most 14 digits, its display form is the empty string, which
    [validateCNPJ] accepts, while "abc" itself is rejected. *)
Lemma validateCNPJ_format_counterexample :
  (length (strip_non_digits (str "abc")) <= 14)%nat
  /\ validateCNPJ (formatCNPJForDisplay (str "abc")) = valid
  /\ isValid (validateCNPJ (str "abc")) = false.
Proof.
  split; [|split; vm_compute; reflexivity].
  change (length (strip_non_digits (str "abc"))) with 0%nat. lia.
Qed.

(** ** Dates *)

Lemma DayFromYear_succ y : DayFromYear (y + 1) = DayFromYear y + DaysInYear y.
Proof.
  unfold DayFromYear, DaysInYear.
  repeat match goal with
  | |- context [?a =? ?b] => destruct (Z.eqb_spec a b)
  end; simpl; Z.div_mod_to_equations; lia.
Qed.

Lemma DayFromYear_mono y1 y2 : y1 <= y2 -> DayFromYear y1 <= DayFromYear y2.
Proof. intros. unfold DayFromYear. Z.div_mod_to_equations. lia. Qed.

Lemma Day_lt t D : t < msPerDay * D <-> Day t < D.
Proof. unfold Day, msPerDay. Z.div_mod_to_equations. lia. Qed.

Lemma Day_ge t D : msPerDay * D <= t <-> D <= Day t.
Proof. unfold Day, msPerDay. Z.div_mod_to_equations. lia. Qed.

Lemma year_estimate_low d :
  DayFromYear (1970 + (d * 400) / 146097 - 1) <= d.
Proof. unfold DayFromYear. Z.div_mod_to_equations. lia. Qed.

Lemma year_estimate_high d :
  d < DayFromYear (1970 + (d * 400) / 146097 + 2).
Proof. unfold DayFromYear. Z.div_mod_to_equations. lia. Qed.

Lemma YearFromTime_spec t :
  DayFromYear (YearFromTime t) <= Day t < DayFromYear (YearFromTime t + 1).
Proof.
  unfold YearFromTime, TimeFromYear.
  set (y0 := 1970 + Day t * 400 / 146097).
  pose proof (year_estimate_low (Day t)) as Hlo.
  pose proof (year_estimate_high (Day t)) as Hhi.
  fold y0 in Hlo, Hhi.
  destruct (Z.ltb_spec t (msPerDay * DayFromYear y0)) as [H1 | H1].
  - apply Day_lt in H1. replace (y0 - 1 + 1) with y0 by lia. lia.
  - apply Day_ge in H1.
    destruct (Z.leb_spec (msPerDay * DayFromYear (y0 + 1)) t) as [H2 | H2].
    + apply Day_ge in H2. replace (y0 + 1 + 1) with (y0 + 2) by lia. lia.
    + apply Day_lt in H2. lia.
Qed.

Lemma YearFromTime_unique t y :
  DayFromYear y <= Day t < DayFromYear (y + 1) -> YearFromTime t = y.
Proof.
  intros H. pose proof (YearFromTime_spec t) as S.
  destruct (Z.lt_trichotomy (YearFromTime t) y) as [L | [E | G]]; [|exact E|].
  - pose proof (DayFromYear_mono (YearFromTime t + 1) y ltac:(lia)). lia.
  - pose proof (DayFromYear_mono (y + 1) (YearFromTime t) ltac:(lia)). lia.
Qed.

Lemma leap_DaysInYear y :
  DaysInYear y = if is_leap_year y then 366 else 365.
Proof.
  unfold DaysInYear, is_leap_year.
  repeat match goal with
  | |- context [?a =? ?b] => destruct (Z.eqb_spec a b)
  end; simpl; try reflexivity; exfalso; Z.div_mod_to_equations; lia.
Qed.

Lemma Day_MakeDate D : Day (MakeDate D 0) = D.
Proof. unfold Day, MakeDate, msPerDay. Z.div_mod_to_equations. lia. Qed.

Lemma MakeDay_in_range y m d :
  1 <= m <= 12 ->
  MakeDay y (m - 1) d
  = DayFromYear y + month_start (if is_leap_year y then 1 else 0) (m - 1) + d - 1.
Proof.
  intros Hm. unfold MakeDay.
  replace ((m - 1) / 12) with 0 by (Z.div_mod_to_equations; lia).
  replace ((m - 1) mod 12) with (m - 1) by (Z.div_mod_to_equations; lia).
  rewrite Z.add_0_r, leap_DaysInYear. destruct (is_leap_year y); reflexivity.
Qed.

Ltac month_cases m H :=
  assert (m = 1 \/ m = 2 \/ m = 3 \/ m = 4 \/ m = 5 \/ m = 6 \/ m = 7
          \/ m = 8 \/ m = 9 \/ m = 10 \/ m = 11 \/ m = 12) as H by lia;
  repeat (destruct H as [H | H]); subst m.

Ltac ltb_cases :=
  repeat match goal with
  | |- context [?a <? ?b] => destruct (Z.ltb_spec a b); try lia
  end.

Lemma round_trip_spec y m d :
  1 <= m <= 12 -> 1 <= d <= 31 ->
  round_trip y m d = true <-> d <= days_in_month y m.
Proof.
  intros Hm Hd. unfold round_trip.
  set (t := MakeDate (MakeDay y (m - 1) d) 0).
  assert (HD : Day t = DayFromYear y
                       + month_start (if is_leap_year y then 1 else 0) (m - 1)
                       + d - 1).
  { unfold t. rewrite Day_MakeDate. now apply MakeDay_in_range. }
  pose proof (DayFromYear_succ y) as Hs. rewrite leap_DaysInYear in Hs.
  assert (Hy : YearFromTime t = y).
  { apply YearFromTime_unique. rewrite HD, Hs.
    month_cases m Hc; destruct (is_leap_year y); simpl; lia. }
  rewrite Hy, Z.eqb_refl. simpl andb.
  unfold DateFromTime, MonthFromTime, DayWithinYear, InLeapYear.
  rewrite Hy, HD, leap_DaysInYear. unfold days_in_month.
  month_cases m Hc; destruct (is_leap_year y); simpl;
    rewrite ?andb_true_iff, ?Z.eqb_eq;
    ltb_cases; simpl; rewrite ?andb_true_iff, ?Z.eqb_eq; lia.
Qed.

Lemma digits_value_2 a b :
  is_digit a = true -> is_digit b = true -> 0 <= digits_value [a; b] <= 99.
Proof.
  intros Ha Hb. apply digit_value_range in Ha, Hb.
  unfold digits_value. simpl. lia.
Qed.

Lemma digits_value_4 a b c d :
  is_digit a = true -> is_digit b = true -> is_digit c = true ->
  is_digit d = true -> 0 <= digits_value [a; b; c; d] <= 9999.
Proof.
  intros Ha Hb Hc Hd. apply digit_value_range in Ha, Hb, Hc, Hd.
  unfold digits_value. simpl. lia.
Qed.

Lemma DayFromYear_bounds y :
  0 <= y <= 9999 -> -719528 <= DayFromYear y <= 2932532.
Proof. intros. unfold DayFromYear. Z.div_mod_to_equations. lia. Qed.

Lemma month_start_bounds leap m :
  0 <= leap <= 1 -> 0 <= month_start leap m <= 366.
Proof.
  intros. unfold month_start.
  repeat match goal with |- context [match ?x with _ => _ end] => destruct x end; lia.
Qed.

Lemma TimeClip_date y m d :
  0 <= y <= 9999 -> 1 <= m <= 12 -> 1 <= d <= 31 ->
  TimeClip (MakeDate (MakeDay y (m - 1) d) 0)
  = Some (MakeDate (MakeDay y (m - 1) d) 0).
Proof.
  intros Hy Hm Hd. unfold TimeClip.
  rewrite MakeDay_in_range by assumption.
  pose proof (DayFromYear_bounds y Hy).
  pose proof (month_start_bounds (if is_leap_year y then 1 else 0) (m - 1)
                ltac:(destruct (is_leap_year y); lia)).
  unfold MakeDate, msPerDay.
  destruct (Z.leb_spec (Z.abs ((DayFromYear y + month_start (if is_leap_year y then 1 else 0) (m - 1) + d - 1) * 86400000 + 0)) 8640000000000000); [reflexivity|lia].
Qed.

Lemma day_accepted_rejects y m d :
  1 <= m <= 12 ->
  day_accepted rejects_day y m d = (d <=? days_in_month y m).
Proof.
  intros Hm. unfold day_accepted, days_in_month. rewrite leap_DaysInYear.
  month_cases m Hc; destruct (is_leap_year y); reflexivity.
Qed.

Section DateDigits.
Variables y1 y2 y3 y4 m1 m2 d1 d2 : ascii.
Hypothesis Hdigits : forallb is_digit [y1; y2; y3; y4; m1; m2; d1; d2] = true.

Let s : jsstring := [y1; y2; y3; y4; "-"%char; m1; m2; "-"%char; d1; d2].
Let y := digits_value [y1; y2; y3; y4].
Let m := digits_value [m1; m2].
Let d := digits_value [d1; d2].

Lemma digit_hyps :
  is_digit y1 = true /\ is_digit y2 = true /\ is_digit y3 = true
  /\ is_digit y4 = true /\ is_digit m1 = true /\ is_digit m2 = true
  /\ is_digit d1 = true /\ is_digit d2 = true.
Proof. simpl in Hdigits. rewrite !andb_true_iff in Hdigits. tauto. Qed.

Lemma date_regex_digits : date_regex s = true.
Proof.
  destruct digit_hyps as (A & B & C & D & E & F & G & H).
  unfold s, date_regex. simpl forallb. rewrite A, B, C, D, E, F, G, H.
  reflexivity.
Qed.

Lemma split_date : split "-" s = [[y1; y2; y3; y4]; [m1; m2]; [d1; d2]].
Proof.
  destruct digit_hyps as (A & B & C & D & E & F & G & H).
  unfold s.
  change [y1; y2; y3; y4; "-"%char; m1; m2; "-"%char; d1; d2]
    with ([y1; y2; y3; y4] ++ "-"%char :: ([m1; m2] ++ "-"%char :: [d1; d2])).
  rewrite !split_app_sep, split_free; try reflexivity;
    apply digits_free; try reflexivity; simpl; rewrite ?A, ?B, ?C, ?D, ?E, ?F, ?G, ?H; reflexivity.
Qed.

Lemma Date_parse_midnight e :
  Date_parse e (s ++ str "T00:00:00Z")
  = if in_format_range m d && day_accepted e y m d
    then TimeClip (MakeDate (MakeDay y (m - 1) d) 0) else None.
Proof.
  destruct digit_hyps as (A & B & C & D & E & F & G & H).
  change (s ++ str "T00:00:00Z")
    with [y1; y2; y3; y4; "-"%char; m1; m2; "-"%char; d1; d2; "T"%char;
          "0"%char; "0"%char; ":"%char; "0"%char; "0"%char; ":"%char;
          "0"%char; "0"%char; "Z"%char].
  unfold Date_parse. simpl forallb.
  rewrite A, B, C, D, E, F, G, H.
  change (is_digit "0") with true.
  simpl andb. fold y m d. unfold in_format_range.
  change (digits_value ["0"%char; "0"%char]) with 0.
  change (MakeTime 0 0 0 0) with 0.
  destruct ((1 <=? m) && (m <=? 12) && (1 <=? d) && (d <=? 31));
    [|reflexivity].
  destruct (day_accepted e y m d); reflexivity.
Qed.

Lemma validateDate_digits :
  isValid (validateDate s) = in_format_range m d && round_trip y m d.
Proof.
  unfold validateDate, validateDate_on.
  change (is_empty s) with false. cbv iota.
  rewrite date_regex_digits. change (negb true) with false. cbv iota.
  rewrite Date_parse_midnight, split_date.
  change (day_accepted carries_day y m d) with true. rewrite andb_true_r.
  simpl map. simpl nth. unfold Number_of_digits. fold y m d.
  destruct digit_hyps as (A & B & C & D & E & F & G & H).
  pose proof (digits_value_4 y1 y2 y3 y4 A B C D) as Hy.
  pose proof (digits_value_2 m1 m2 E F) as Hm.
  pose proof (digits_value_2 d1 d2 G H) as Hd.
  fold y in Hy. fold m in Hm. fold d in Hd.
  destruct (in_format_range m d) eqn:R; [|reflexivity].
  unfold in_format_range in R. rewrite !andb_true_iff, !Z.leb_le in R.
  rewrite TimeClip_date by lia. unfold round_trip.
  destruct (YearFromTime _ =? y), (MonthFromTime _ + 1 =? m),
    (DateFromTime _ =? d); reflexivity.
Qed.

Lemma validateDate_digits_spec :
  isValid (validateDate s) = true <-> real_date y m d.
Proof.
  rewrite validateDate_digits. unfold real_date.
  destruct digit_hyps as (A & B & C & D & E & F & G & H).
  pose proof (digits_value_2 d1 d2 G H) as Hd. fold d in Hd.
  rewrite andb_true_iff. unfold in_format_range.
  rewrite !andb_true_iff, !Z.leb_le.
  assert (Hdim : days_in_month y m <= 31).
  { unfold days_in_month. repeat match goal with |- context [if ?b then _ else _] => destruct b end; lia. }
  split.
  - intros [R T]. rewrite round_trip_spec in T by lia. lia.
  - intros [Hm Hdd]. split; [lia|]. apply round_trip_spec; lia.
Qed.
Lemma validateDate_on_digits e : validateDate_on e s = validateDate s.
Proof.
  destruct e; [reflexivity|].
  unfold validateDate, validateDate_on.
  change (is_empty s) with false. cbv iota.
  rewrite date_regex_digits. change (negb true) with false. cbv iota.
  rewrite !Date_parse_midnight, split_date.
  change (day_accepted carries_day y m d) with true. rewrite andb_true_r.
  simpl map. simpl nth. unfold Number_of_digits. fold y m d.
  destruct (in_format_range m d) eqn:R; [|reflexivity].
  unfold in_format_range in R. rewrite !andb_true_iff, !Z.leb_le in R.
  rewrite day_accepted_rejects by lia. rewrite andb_true_l.
  destruct (Z.leb_spec d (days_in_month y m)) as [Hd | Hd]; [reflexivity|].
  destruct digit_hyps as (A & B & C & D & E & F & G & H).
  pose proof (digits_value_4 y1 y2 y3 y4 A B C D) as Hy. fold y in Hy.
  rewrite TimeClip_date by lia.
  assert (round_trip y m d = false) as T.
  { destruct (round_trip y m d) eqn:T; [|reflexivity].
    apply round_trip_spec in T; lia. }
  unfold round_trip in T.
  destruct (YearFromTime _ =? y), (MonthFromTime _ + 1 =? m),
    (DateFromTime _ =? d); try reflexivity; discriminate T.
Qed.
End DateDigits.

Lemma date_regex_shape s :
  date_regex s = true ->
  exists y1 y2 y3 y4 m1 m2 d1 d2,
    forallb is_digit [y1; y2; y3; y4; m1; m2; d1; d2] = true
    /\ s = [y1; y2; y3; y4; "-"%char; m1; m2; "-"%char; d1; d2].
Proof.
  unfold date_regex.
  do 10 (destruct s as [|? s]; [discriminate|]). destruct s; [|discriminate].
  simpl forallb. rewrite !andb_true_iff, !ascii_eqb_eq.
  intros H. decompose [and] H. subst.
  eexists _, _, _, _, _, _, _, _. split; [|reflexivity].
  simpl. rewrite !andb_true_iff. tauto.
Qed.

(** X4. [validateDate] gives the same result on an engine that rejects
    a day the month does not have as on one that carries it over. *)
Theorem validateDate_any_engine e s : validateDate_on e s = validateDate s.
Proof.
  destruct (date_regex s) eqn:R.
  - destruct (date_regex_shape s R)
      as (y1 & y2 & y3 & y4 & m1 & m2 & d1 & d2 & Hd & ->).
    now apply validateDate_on_digits.
  - unfold validateDate, validateDate_on. rewrite R.
    destruct (is_empty s); reflexivity.
Qed.

Example validateDate_rejecting_engine :
  Date_parse carries_day (str "2023-02-30T00:00:00Z") = Some 1677715200000
  /\ Date_parse rejects_day (str "2023-02-30T00:00:00Z") = None
  /\ isValid (validateDate_on rejects_day (str "2023-02-30")) = false
  /\ isValid (validateDate (str "2023-02-30")) = false.
Proof. repeat split; vm_compute; reflexivity. Qed.

(** C4. [validateDate] accepts a string exactly when it has the shape
    of 4 digits, a hyphen, 2 digits, a hyphen, 2 digits and its three
    components are a real date of the proleptic Gregorian calendar.  So
    the empty string and every string of another shape are rejected;
    "2024-02-29" is accepted, "2023-02-29" and "2023-13-01" are not. *)
Theorem validateDate_spec :
  (forall s : jsstring,
      isValid (validateDate s) = true
      <-> exists y m d, date_text s y m d /\ real_date y m d)
  /\ (forall s : jsstring,
        ~ (exists y m d, date_text s y m d) ->
        isValid (validateDate s) = false)
  /\ isValid (validateDate []) = false
  /\ isValid (validateDate (str "2024-02-29")) = true
  /\ isValid (validateDate (str "2023-02-29")) = false
  /\ isValid (validateDate (str "2023-13-01")) = false.
Proof.
  assert (Hiff : forall s : jsstring,
             isValid (validateDate s) = true
             <-> exists y m d, date_text s y m d /\ real_date y m d);
    [|split; [exact Hiff|]; split; [|repeat split; vm_compute; reflexivity];
      intros s Hs; destruct (isValid (validateDate s)) eqn:E;
      [|reflexivity]; exfalso; apply Hs;
      destruct (proj1 (Hiff s) E) as (y & m & d & Ht & _); eauto].
  intros s. split.
  - intros H.
    assert (date_regex s = true) as R.
    { unfold validateDate, validateDate_on in H.
      destruct (is_empty s); [discriminate|].
      destruct (date_regex s); [reflexivity | discriminate]. }
    destruct (date_regex_shape s R) as (y1 & y2 & y3 & y4 & m1 & m2 & d1 & d2 & Hd & ->).
    exists (digits_value [y1; y2; y3; y4]), (digits_value [m1; m2]),
           (digits_value [d1; d2]).
    split.
    + exists y1, y2, y3, y4, m1, m2, d1, d2. auto.
    + now apply validateDate_digits_spec.
  - intros (y & m & d & (y1 & y2 & y3 & y4 & m1 & m2 & d1 & d2 & Hd & -> & -> & -> & ->) & Hreal).
    now apply validateDate_digits_spec.
Qed.

(** ** Ledger *)

Lemma net_amount_parse c d :
  net_amount c d = num_sub (parseCurrency c) (parseCurrency d).
Proof. unfold net_amount. now rewrite !or_zero_parseCurrency. Qed.

Lemma consistent_from_cons b0 t l :
  t_balance t
  = num_add b0 (num_sub (parseCurrency (t_credit t)) (parseCurrency (t_debit t))) ->
  consistent_from (t_balance t) l ->
  consistent_from b0 (t :: l).
Proof.
  intros H0 Hl [|i] u Hu; simpl in Hu.
  - injection Hu as <-. exact H0.
  - specialize (Hl i u Hu). destruct i as [|j]; simpl in *; exact Hl.
Qed.

Lemma rebalance_consistent l : forall b0, consistent_from b0 (rebalance b0 l).
Proof.
  induction l as [|t r IH]; intros b0.
  - intros [|i] u Hu; discriminate Hu.
  - simpl. apply consistent_from_cons.
    + simpl. now rewrite net_amount_parse.
    + apply IH.
Qed.

Lemma calculate_from_consistent uuid ts : forall k b0,
  consistent_from b0 (fst (calculate_from uuid k b0 ts)).
Proof.
  induction ts as [|t r IH]; intros k b0.
  - intros [|i] u Hu; discriminate Hu.
  - simpl. specialize (IH (S k) (num_add b0 (net_amount (r_credit t) (r_debit t)))).
    destruct (calculate_from uuid (S k) _ r) as [rows final]. simpl in *.
    apply consistent_from_cons.
    + simpl. now rewrite net_amount_parse.
    + exact IH.
Qed.

Lemma consistent_from_zero l : consistent_from (Num 0) l -> balances_consistent l.
Proof. intros H [|i] t Ht; exact (H _ t Ht). Qed.

Lemma calculate_from_rows uuid ts : forall k b0,
  map raw_of (fst (calculate_from uuid k b0 ts)) = ts.
Proof.
  induction ts as [|t r IH]; intros k b0; [reflexivity|].
  simpl. specialize (IH (S k) (num_add b0 (net_amount (r_credit t) (r_debit t)))).
  destruct (calculate_from uuid (S k) _ r) as [rows final]. simpl in *.
  rewrite IH. destruct t; reflexivity.
Qed.

Lemma rebalance_rows l : forall b0, map raw_of (rebalance b0 l) = map raw_of l.
Proof.
  induction l as [|t r IH]; intros b0; [reflexivity|].
  simpl. rewrite IH. reflexivity.
Qed.

Lemma handleDataChange_transactions u f st :
  transactions (fst (handleDataChange u f st))
  = update_transactions u (transactions st).
Proof. destruct f; reflexivity. Qed.

Lemma update_transactions_rows u l :
  map raw_of (update_transactions u l)
  = map (fun t => raw_of (if jsstring_eqb (t_id t) (t_id u) then u else t)) l.
Proof. unfold update_transactions. now rewrite rebalance_rows, map_map. Qed.

(** C1. After ingestion, and after every edit (of a debit, a credit or
    any other field), the rows are the ingested or edited rows and
    their balances obey the recurrence: the balance of a row is the
    balance of the row before it (0 before the first row) plus its
    credit minus its debit.  Plus and minus are the operations of the
    program, on doubles: the debit is taken from the credit, the
    difference is added to the balance before, and each of the two
    results is rounded.  Debit and credit amounts (0, 100), (50, 0),
    (0, 25) give the balances 100, 50, 75; setting the debit of the
    second row to 0 gives 100, 100, 125.  A credit of 100,01 followed by
    a debit of 50,00 gives the balances 100.01 and 50.010000000000005,
    which is above the double 50.01; after a credit of 0,10, a row with
    the credit 0,20 and the debit 0,30 has a balance above 0 and below
    the result of adding the credit first. *)
Theorem balances_recomputed :
  (forall uuid raws,
      balances_consistent (fst (calculateBalances uuid raws))
      /\ map raw_of (fst (calculateBalances uuid raws)) = raws)
  /\ (forall updatedTransaction fieldChanged st,
        balances_consistent
          (transactions
             (fst (handleDataChange updatedTransaction fieldChanged st)))
        /\ map raw_of
             (transactions
                (fst (handleDataChange updatedTransaction fieldChanged st)))
           = map (fun t => raw_of (if jsstring_eqb (t_id t)
                                        (t_id updatedTransaction)
                                   then updatedTransaction else t))
               (transactions st))
  /\ map t_balance example_ledger = [of_Z 100; of_Z 50; of_Z 75]
  /\ map t_balance
       (transactions (fst (handleDataChange example_edit debit example_state)))
     = [of_Z 100; of_Z 100; of_Z 125]
  /\ map t_balance
       (fst (calculateBalances digit_uuid
               [raw_row "" "100,01"; raw_row "50,00" ""]))
     = [fl (10001 # 100); fl (50010000000000005 # 1000000000000000)]
  /\ num_ltb (fl (5001 # 100)) (fl (50010000000000005 # 1000000000000000))
     = true
  /\ (let b :=
        nth 1 (map t_balance
                 (fst (calculateBalances digit_uuid
                         [raw_row "" "0,10"; raw_row "0,30" "0,20"])))
          NaN in
      num_ltb (Num 0) b = true
      /\ num_ltb b (num_sub (num_add (fl (1 # 10)) (fl (2 # 10)))
                      (fl (3 # 10))) = true).
Proof.
  split; [|split; [|repeat split; vm_compute; reflexivity]].
  - intros uuid raws. split.
    + apply consistent_from_zero, calculate_from_consistent.
    + apply calculate_from_rows.
  - intros u f st. rewrite handleDataChange_transactions. split.
    + apply consistent_from_zero, rebalance_consistent.
    + apply update_transactions_rows.
Qed.

Lemma num_ltb_spec x y : num_ltb x y = true <-> num_lt x y.
Proof.
  destruct x, y; simpl; try tauto; try (split; [discriminate | contradiction]).
  rewrite negb_true_iff. split.
  - intros H. apply Qnot_le_lt. intros L. apply Qle_bool_iff in L. congruence.
  - intros H. destruct (Qle_bool q0 q) eqn:E; [|reflexivity].
    apply Qle_bool_iff in E. exfalso. exact (Qlt_not_le _ _ H E).
Qed.

Lemma num_leb_spec x y : num_leb x y = true <-> num_le x y.
Proof.
  destruct x, y; simpl; try tauto; try (split; [discriminate | contradiction]).
  apply Qle_bool_iff.
Qed.

(** C2. The mismatch flag is raised exactly when a final balance is
    declared, the ledger has a last row, and the absolute difference
    between the balance of that row and the declared balance exceeds
    0.01; it is down when no balance is declared and when there are no
    rows.  The difference and the literal 0.01 are doubles.  With the
    balances 100, 100, 125 a declared 125 gives no mismatch and a
    declared 130 gives one; with the credits 0,01 and 0,02, whose sum is
    the double 0.03, a declared 0.04 gives one, the difference being
    0.010000000000000002. *)
Theorem balanceMismatch_spec :
  (forall st,
      balanceMismatch st = true
      <-> exists declared front lastRow,
            statementBalance st = Some declared
            /\ transactions st = front ++ [lastRow]
            /\ num_lt (fl (1 # 100))
                 (num_abs (num_sub (t_balance lastRow) declared)))
  /\ (forall st, statementBalance st = None -> balanceMismatch st = false)
  /\ (forall st, transactions st = [] -> balanceMismatch st = false)
  /\ balanceMismatch (fst (handleDataChange example_edit debit example_state))
     = false
  /\ balanceMismatch
       (mkApp (transactions (fst (handleDataChange example_edit debit example_state)))
              (Some (of_Z 130)) ∅ ∅ ∅)
     = true
  /\ balanceMismatch
       (mkApp (fst (calculateBalances digit_uuid
                      [raw_row "" "0,01"; raw_row "" "0,02"]))
              (Some (fl (4 # 100))) ∅ ∅ ∅)
     = true
  /\ num_abs (num_sub (num_add (fl (1 # 100)) (fl (2 # 100))) (fl (4 # 100)))
     = fl (10000000000000002 # 1000000000000000000).
Proof.
  split; [|split; [|split; [|repeat split; vm_compute; reflexivity]]].
  - intros st. unfold balanceMismatch, final_and_mismatch.
    destruct (last (transactions st)) as [lastRow|] eqn:L.
    + apply last_Some in L as [front Hfront].
      destruct (statementBalance st) as [declared|]; cbn [snd].
      * unfold num_gtb. rewrite num_ltb_spec. split.
        -- intros H. exists declared, front, lastRow.
           split; [reflexivity | split; [exact Hfront | exact H]].
        -- intros (d & f & r & Hd & Hf & H). injection Hd as <-.
           rewrite Hfront in Hf. apply app_inj_tail in Hf as [_ <-]. exact H.
      * split; [discriminate|]. intros (d & _ & _ & Hd & _). discriminate.
    + apply last_None in L. cbn [snd]. split; [discriminate|].
      intros (_ & f & r & _ & Hf & _). rewrite L in Hf. destruct f; discriminate.
  - intros st H. unfold balanceMismatch, final_and_mismatch. rewrite H.
    destruct (last _); reflexivity.
  - intros st H. unfold balanceMismatch, final_and_mismatch. rewrite H.
    reflexivity.
Qed.

(** ** Filter *)

Lemma jsstring_eqb_spec a : forall b, jsstring_eqb a b = true <-> a = b.
Proof.
  induction a as [|x a IH]; intros [|y b]; simpl; try (split; congruence).
  rewrite andb_true_iff, ascii_eqb_eq, IH. split.
  - intros [-> ->]. reflexivity.
  - intros E. injection E as -> ->. auto.
Qed.

Lemma is_prefix_spec p : forall s,
  is_prefix p s = true <-> exists post, s = p ++ post.
Proof.
  induction p as [|x p IH]; intros s; simpl.
  - split; [eauto | reflexivity].
  - destruct s as [|y s].
    + split; [discriminate | intros [post H]; discriminate].
    + rewrite andb_true_iff, ascii_eqb_eq, IH. split.
      * intros [-> [post ->]]. eauto.
      * intros [post E]. injection E as -> ->. eauto.
Qed.

Lemma includes_spec needle hay :
  includes needle hay = true <-> substring_of needle hay.
Proof.
  unfold substring_of. induction hay as [|c hay IH]; simpl.
  - rewrite orb_false_r, is_prefix_spec. split.
    + intros [post E]. exists [], post. exact E.
    + intros (pre & post & E). destruct pre; [eauto | discriminate].
  - rewrite orb_true_iff, is_prefix_spec, IH. split.
    + intros [[post E] | (pre & post & E)].
      * exists [], post. exact E.
      * exists (c :: pre), post. simpl. now rewrite E.
    + intros (pre & post & E). destruct pre as [|x pre].
      * left. eauto.
      * right. injection E as -> E. eauto.
Qed.

Lemma code_inj x y : code x = code y -> x = y.
Proof.
  unfold code. intros H. apply N2Z.inj in H.
  rewrite <- (ascii_N_embedding x), <- (ascii_N_embedding y). now rewrite H.
Qed.

Lemma jsstring_ltb_spec a : forall b, jsstring_ltb a b = true <-> lex_lt a b.
Proof.
  induction a as [|x a IH]; intros [|y b]; simpl.
  - split; [discriminate | inversion 1].
  - split; [constructor | reflexivity].
  - split; [discriminate | inversion 1].
  - rewrite orb_true_iff, andb_true_iff, Z.ltb_lt, Z.eqb_eq, IH. split.
    + intros [H | [H L]].
      * now constructor.
      * apply code_inj in H. subst. now constructor.
    + inversion 1; subst; auto.
Qed.

Lemma lex_total a : forall b, ~ lex_lt a b <-> lex_le b a.
Proof.
  unfold lex_le. induction a as [|x a IH]; intros [|y b].
  - split; [auto | intros _ H; inversion H].
  - split; [intros H; exfalso; apply H; constructor|].
    intros [E | L]; [discriminate | inversion L].
  - split; [intros _; right; constructor | intros _ H; inversion H].
  - split.
    + intros H. destruct (Z.lt_trichotomy (code x) (code y)) as [L | [E | G]].
      * exfalso. apply H. now constructor.
      * apply code_inj in E. subst y.
        destruct (proj1 (IH b)) as [-> | L].
        -- intros L. apply H. now constructor.
        -- now left.
        -- right. now constructor.
      * right. now constructor.
    + intros [E | L] H.
      * injection E as -> ->. inversion H; subst; [lia|].
        apply (proj2 (IH a)); auto.
      * inversion L; subst; inversion H; subst; try lia.
        apply (proj2 (IH b)); auto.
Qed.

Lemma jsstring_ltb_false a b : jsstring_ltb a b = false <-> lex_le b a.
Proof.
  rewrite <- lex_total, <- jsstring_ltb_spec.
  destruct (jsstring_ltb a b); split; congruence.
Qed.

Lemma bound_inactive (s : jsstring) (c : bool) (P : Prop) :
  (c = false <-> P) ->
  (negb (is_empty s) && c = false <-> s = [] \/ P).
Proof.
  intros H. destruct s; simpl; [tauto|]. rewrite H. split; [auto|].
  intros [E | p]; [discriminate | exact p].
Qed.

Lemma num_leb_zero_false x :
  isNaN x = false -> num_leb x (Num 0) = false <-> num_lt (Num 0) x.
Proof.
  destruct x; simpl; try discriminate; intros _; try tauto.
  - split.
    + intros H. apply Qnot_le_lt. intros L. apply Qle_bool_iff in L. congruence.
    + intros H. destruct (Qle_bool q 0) eqn:E; [|reflexivity].
      apply Qle_bool_iff in E. exfalso. exact (Qlt_not_le _ _ H E).
  - split; [discriminate | contradiction].
Qed.


Lemma code_range c : 0 <= code c < 256.
Proof.
  unfold code. pose proof (N_ascii_bounded c) as H. lia.
Qed.

Lemma code_ascii_of n :
  0 <= n < 256 -> code (ascii_of_N (Z.to_N n)) = n.
Proof.
  intros H. unfold code. rewrite N_ascii_embedding by lia. lia.
Qed.

(** [lower_char] adds 32 to the code of a capital letter and leaves
    every other character alone. *)
Lemma code_lower_char c :
  (capital c /\ code (lower_char c) = code c + 32)
  \/ (~ capital c /\ lower_char c = c).
Proof.
  pose proof (code_range c) as R. unfold lower_char, capital.
  destruct ((65 <=? code c) && (code c <=? 90)
            || (192 <=? code c) && (code c <=? 222) && negb (code c =? 215))
    eqn:E.
  - left. rewrite code_ascii_of by lia. split; [|reflexivity].
    rewrite orb_true_iff, !andb_true_iff, negb_true_iff, !Z.leb_le,
      Z.eqb_neq in E. lia.
  - right. split; [|reflexivity].
    rewrite orb_false_iff, !andb_false_iff, negb_false_iff, !Z.leb_gt,
      Z.eqb_eq in E. lia.
Qed.

Lemma lower_char_same a b : lower_char a = lower_char b <-> same_letter a b.
Proof.
  unfold same_letter.
  destruct (code_lower_char a) as [[Ca Ea] | [Na Ea]],
           (code_lower_char b) as [[Cb Eb] | [Nb Eb]].
  - split.
    + intros H. left. apply code_inj. rewrite H in Ea. lia.
    + intros [-> | [[_ H] | [_ H]]]; [reflexivity | |];
        unfold capital in *; lia.
  - rewrite Eb. split.
    + intros H. right. left. split; [exact Ca|]. rewrite <- H. exact Ea.
    + intros [-> | [[_ H] | [Cb _]]]; [contradiction | | contradiction].
      apply code_inj. lia.
  - rewrite Ea. split.
    + intros H. right. right. split; [exact Cb|]. rewrite H. exact Eb.
    + intros [-> | [[Ca _] | [_ H]]]; [contradiction | contradiction |].
      apply code_inj. lia.
  - rewrite Ea, Eb. split; [intros ->; now left|].
    intros [-> | [[Ca _] | [Cb _]]]; [reflexivity | contradiction..].
Qed.

Lemma toLowerCase_same a : forall b,
  toLowerCase a = toLowerCase b <-> Forall2 same_letter a b.
Proof.
  unfold toLowerCase.
  induction a as [|x a IH]; intros [|y b]; simpl.
  - split; [constructor | reflexivity].
  - split; [discriminate | inversion 1].
  - split; [discriminate | inversion 1].
  - split.
    + intros H. injection H as Hx Ha. constructor.
      * now apply lower_char_same.
      * now apply IH.
    + inversion 1; subst. f_equal.
      * now apply lower_char_same.
      * now apply IH.
Qed.

(** The test of the description decides the match of the text in the
    description, whatever the case of the letters. *)
Lemma includes_ignoring_case needle hay :
  includes (toLowerCase needle) (toLowerCase hay) = true
  <-> substring_ignoring_case needle hay.
Proof.
  rewrite includes_spec. unfold substring_of, substring_ignoring_case. split.
  - intros (pre & post & E). unfold toLowerCase in E.
    apply map_eq_app in E as (pre' & r & -> & Hpre & E).
    apply map_eq_app in E as (mid & post' & -> & Hmid & Hpost).
    exists pre', mid, post'. split; [reflexivity|].
    apply toLowerCase_same. symmetry. exact Hmid.
  - intros (pre & mid & post & -> & F). apply toLowerCase_same in F.
    exists (toLowerCase pre), (toLowerCase post).
    rewrite F. unfold toLowerCase. now rewrite !map_app.
Qed.

Lemma negb_includes_false needle hay :
  negb (includes (toLowerCase needle) (toLowerCase hay)) = false
  <-> substring_ignoring_case needle hay.
Proof. rewrite negb_false_iff. apply includes_ignoring_case. Qed.

(** A comparison that fails: the bound holds, or a side is [NaN]. *)
Lemma num_ltb_false_bound x y :
  num_ltb x y = false <-> inclusive_bound y x.
Proof.
  unfold inclusive_bound.
  destruct x, y; simpl;
    try (split; [intros _; auto | reflexivity]);
    try (split; [discriminate | intros [H | [H | H]];
                 (discriminate || contradiction)]).
  rewrite negb_false_iff, Qle_bool_iff. split; [auto|].
  intros [H | [H | H]]; (discriminate || exact H).
Qed.

Lemma negb_eqb_false a b : negb (jsstring_eqb a b) = false <-> a = b.
Proof. rewrite negb_false_iff. apply jsstring_eqb_spec. Qed.

(** One test of the callback: either it rejects the row, against the
    criterion it decides, or the remaining tests decide. *)
Ltac criterion :=
  cbv iota;
  lazymatch goal with
  | |- (if ?c then false else _) = true <-> _ =>
      let S := fresh "S" in
      destruct c;
      [ split; [discriminate | intros S; exfalso; decompose [and] S;
                match goal with
                | C : true = false <-> _ |- _ =>
                    assert (true = false) by (apply (proj2 C); assumption);
                    discriminate
                end]
      | match goal with
        | C : false = false <-> _ |- _ =>
            apply proj1 in C; specialize (C eq_refl)
        end ]
  end.

(** A test that has rejected the row for good. *)
Ltac rejected :=
  cbv iota;
  lazymatch goal with
  | |- false = true <-> _ =>
      let S := fresh "S" in
      split; [discriminate | intros S; decompose [and] S; discriminate]
  end.

Lemma filter_row_spec filters t :
  filter_row filters t = true <-> satisfies filters t.
Proof.
  unfold filter_row, satisfies, satisfies_but_amount.
  fold (row_amount t). unfold num_gtb.
  pose proof (bound_inactive (f_description filters) _ _
                (negb_includes_false (f_description filters)
                   (t_description t))) as C1.
  pose proof (bound_inactive (f_category filters) _ _
                (negb_eqb_false (t_category t) (f_category filters))) as C2.
  pose proof (bound_inactive (f_startDate filters) _ _
                (jsstring_ltb_false (t_date t) (f_startDate filters))) as C3.
  pose proof (bound_inactive (f_endDate filters) _ _
                (jsstring_ltb_false (f_endDate filters) (t_date t))) as C4.
  pose proof (bound_inactive (f_minAmount filters) _ _
                (num_ltb_false_bound (row_amount t)
                   (parseFloat (f_minAmount filters)))) as C5.
  pose proof (bound_inactive (f_maxAmount filters) _ _
                (num_ltb_false_bound (parseFloat (f_maxAmount filters))
                   (row_amount t))) as C6.
  pose proof (num_leb_zero_false _ (parseCurrency_not_NaN (t_debit t))) as C7.
  pose proof (num_leb_zero_false _ (parseCurrency_not_NaN (t_credit t))) as C8.
  do 2 criterion.
  destruct (f_showUnusual filters), (t_isUnusual t); simpl negb;
    try rejected;
    do 4 criterion;
    destruct (f_transactionType filters); try criterion;
    (split; [intros _; repeat split; assumption || exact I | reflexivity]).
Qed.

Lemma inclusive_bound_num x y :
  isNaN x = false -> isNaN y = false -> inclusive_bound x y <-> num_le x y.
Proof.
  unfold inclusive_bound. intros Hx Hy. split; [|auto].
  intros [-> | [-> | H]]; [discriminate.. | exact H].
Qed.

(** C7, amended. A row is in the filtered output exactly when it is a
    row of the ledger that passes all the criteria together: some part
    of the description is the text, letter by letter and whatever the
    case; the category is the one asked for; the unusual flag agrees
    with the selector; the date lies within the inclusive bounds in the
    order of strings; the amount
    abs(parseCurrency(credit) - parseCurrency(debit)) lies within the
    inclusive bounds, unless the bound or the amount is not a number,
    which excludes nothing; and the transaction type "debit" (resp.
    "credit") requires parseCurrency(debit) > 0 (resp. of the credit).
    The criteria as claimed are enough for a row to be kept, and they
    are the criteria above when the amount and the bounds that are set
    are numbers.  An empty text or bound and the selector "all" impose
    nothing: the initial filters keep every row.  On debits 0, 50, 0
    the type "debit" keeps the second row only, and the text "pIx"
    keeps the three rows, described as "PIX".  The amount is computed
    on doubles: a row with the debit 0,10 and the credit 0,30 has the
    amount 0.19999999999999998 and is not kept with the lower bound
    "0.2". *)
Theorem filteredTransactions_spec :
  (forall txs filters t,
      In t (filteredTransactions txs filters)
      <-> In t txs /\ satisfies filters t)
  /\ (forall filters t, satisfies_as_claimed filters t -> satisfies filters t)
  /\ (forall filters t,
        isNaN (row_amount t) = false ->
        f_minAmount filters = []
        \/ isNaN (parseFloat (f_minAmount filters)) = false ->
        f_maxAmount filters = []
        \/ isNaN (parseFloat (f_maxAmount filters)) = false ->
        satisfies filters t -> satisfies_as_claimed filters t)
  /\ (forall txs, filteredTransactions txs initialFilters = txs)
  /\ map t_id
       (filteredTransactions example_ledger
          (mkFilters [] [] [] [] [] [] su_all tt_debit))
     = [str "1"]
  /\ map t_id
       (filteredTransactions example_ledger
          (mkFilters (str "pIx") [] [] [] [] [] su_all tt_all))
     = [str "0"; str "1"; str "2"]
  /\ row_amount (amount_row "0,10" "0,30")
     = fl (19999999999999998 # 100000000000000000)
  /\ filteredTransactions [amount_row "0,10" "0,30"]
       (mkFilters [] [] [] (str "0.2") [] [] su_all tt_all)
     = [].
Proof.
  split; [|split; [|split; [|split; [|repeat split; vm_compute; reflexivity]]]].
  - intros txs filters t. unfold filteredTransactions.
    rewrite filter_In, filter_row_spec. reflexivity.
  - intros filters t (H & Hmin & Hmax). unfold satisfies, inclusive_bound.
    tauto.
  - intros filters t Ha Hmin Hmax (H & Smin & Smax).
    split; [exact H|]. split.
    + destruct Hmin as [E | N]; [now left|].
      destruct Smin as [E | B]; [now left|]. right.
      now apply inclusive_bound_num.
    + destruct Hmax as [E | N]; [now left|].
      destruct Smax as [E | B]; [now left|]. right.
      now apply inclusive_bound_num.
  - intros txs. unfold filteredTransactions.
    induction txs as [|t r IH]; [reflexivity|].
    simpl. rewrite IH. reflexivity.
Qed.

(** The claim as it was made fails on a row whose debit and credit are
    both "Infinity": its amount is not a number, so it is not at least
    10, and the filter with the lower bound "10" keeps it. *)
Lemma filteredTransactions_spec_counterexample :
  filteredTransactions [infinite_row] lower_bound_ten = [infinite_row]
  /\ parseFloat (f_minAmount lower_bound_ten) = of_Z 10
  /\ row_amount infinite_row = NaN
  /\ ~ num_le (parseFloat (f_minAmount lower_bound_ten))
         (row_amount infinite_row)
  /\ ~ satisfies_as_claimed lower_bound_ten infinite_row.
Proof.
  assert (A : row_amount infinite_row = NaN) by (vm_compute; reflexivity).
  assert (N : ~ num_le (parseFloat (f_minAmount lower_bound_ten))
                  (row_amount infinite_row)).
  { rewrite A. destruct (parseFloat _); exact (fun H => H). }
  split; [vm_compute; reflexivity|].
  split; [vm_compute; reflexivity|].
  split; [exact A|]. split; [exact N|].
  intros (_ & [E | H] & _); [discriminate E | exact (N H)].
Qed.

(** X1. Filtering is idempotent: filtering the filtered rows again with
    the same criteria changes nothing. *)
Theorem filteredTransactions_idempotent txs filters :
  filteredTransactions (filteredTransactions txs filters) filters
  = filteredTransactions txs filters.
Proof.
  unfold filteredTransactions. induction txs as [|t r IH]; [reflexivity|].
  simpl. destruct (filter_row filters t) eqn:E; [|exact IH].
  simpl. rewrite E, IH. reflexivity.
Qed.

(** ** Edits and late suggestions *)

(** X3. The currency errors of the debit and of the credit of a row are
    kept apart: an edit of one leaves the entry of the other as it is. *)
Theorem currency_errors_per_field updatedTransaction st :
  let id := t_id updatedTransaction in
  currencyErrors (fst (handleDataChange updatedTransaction debit st))
    !! (id ++ str "-credit")
  = currencyErrors st !! (id ++ str "-credit")
  /\ currencyErrors (fst (handleDataChange updatedTransaction credit st))
       !! (id ++ str "-debit")
     = currencyErrors st !! (id ++ str "-debit").
Proof.
  intros id.
  assert (id ++ str "-debit" <> id ++ str "-credit") as Hne.
  { intros H. apply app_inv_head in H. discriminate H. }
  split; simpl; fold id;
    destruct (isValid (validateCurrency _));
    rewrite ?lookup_insert_ne, ?lookup_delete_ne; auto.
Qed.

(** C8, as the code has it. When an outstanding request settles, the
    ledger is left as it is, so the newer date of the row is kept; but
    the suggestion is not discarded: an entry is recorded for the row
    in the date-error table, with the message of the validation made
    when the request was issued, and it carries the suggestion exactly
    when the suggestion differs from the date captured at that time and
    is itself a valid date.  The current date of the row is not
    consulted.  The entries of the other rows are untouched. *)
Theorem settle_records_suggestion (s : System) (k : nat)
    (answer : option jsstring) (p : PendingSuggestion) :
  nth_error (outstanding s) k = Some p ->
  let s' := step s (Settle k answer) in
  let suggestion := suggestDateCorrection answer (p_date p) in
  transactions (app s') = transactions (app s)
  /\ (exists entry,
        dateErrors (app s') !! p_id p = Some entry
        /\ e_message entry = p_message p
        /\ (e_suggestion entry = Some suggestion
            <-> suggestion <> p_date p
                /\ isValid (validateDate suggestion) = true)
        /\ (e_suggestion entry = None
            <-> ~ (suggestion <> p_date p
                   /\ isValid (validateDate suggestion) = true)))
  /\ (forall other : jsstring,
        other <> p_id p ->
        dateErrors (app s') !! other = dateErrors (app s) !! other).
Proof.
  intros Hp s' suggestion. unfold s'. simpl. rewrite Hp. simpl.
  split; [reflexivity|]. split.
  - eexists. split; [apply lookup_insert_eq|]. simpl. split; [reflexivity|].
    fold suggestion.
    destruct (jsstring_eqb suggestion (p_date p)) eqn:E; simpl.
    + apply jsstring_eqb_spec in E. intuition discriminate.
    + assert (suggestion <> p_date p) as Hne.
      { intros H. apply jsstring_eqb_spec in H. congruence. }
      destruct (isValid (validateDate suggestion)); intuition discriminate.
  - intros other Ho. now apply lookup_insert_ne.
Qed.

Lemma settle_records_suggestion_witness :
  exists entry,
    dateErrors (app (run race_start race_trace)) !! str "r1" = Some entry
    /\ e_suggestion entry = Some (str "2023-12-01").
Proof.
  destruct (settle_records_suggestion
              (run race_start (firstn 2 race_trace)) 0
              (Some (str "2023-12-01"))
              (mkPending (str "r1") (str "2023-13-01")
                 "Data inválida (ex: dia 31 em um mês com 30 dias)."))
    as (_ & (entry & Hlook & _ & Hsome & _) & _).
  - vm_compute. reflexivity.
  - exists entry. split; [exact Hlook|].
    apply Hsome. split; [discriminate | vm_compute; reflexivity].
Defined.

(** C8, as stated, fails.  On [race_trace] the first edit leaves a
    request outstanding for the row "r1" and the date "2023-13-01"; the
    second edit sets the date of the row to "2023-12-05", a different
    and valid value, and clears the table; the suggestion "2023-12-01"
    that arrives afterwards is nevertheless recorded for "r1". *)
Lemma stale_suggestion_counterexample :
  let s1 := run race_start (firstn 1 race_trace) in
  let s2 := run race_start (firstn 2 race_trace) in
  let s3 := run race_start race_trace in
  map p_id (outstanding s1) = [str "r1"]
  /\ map p_date (outstanding s1) = [str "2023-13-01"]
  /\ map t_date (transactions (app s2)) = [str "2023-12-05"]
  /\ dateErrors (app s2) !! str "r1" = None
  /\ (e_suggestion <$> dateErrors (app s3) !! str "r1")
     = Some (Some (str "2023-12-01")).
Proof. vm_compute. repeat split. Qed.

(** ** Edits and the running balance *)

Lemma rebalance_ids l : forall b0, map t_id (rebalance b0 l) = map t_id l.
Proof.
  induction l as [|t r IH]; intros b0; [reflexivity|]. simpl. now rewrite IH.
Qed.

Lemma replaced_ids u l :
  map t_id (map (fun t => if jsstring_eqb (t_id t) (t_id u) then u else t) l)
  = map t_id l.
Proof.
  rewrite map_map. apply map_ext. intros t.
  destruct (jsstring_eqb (t_id t) (t_id u)) eqn:E; [|reflexivity].
  apply jsstring_eqb_spec in E. now rewrite E.
Qed.

(** X5. An edit never adds, removes or reorders rows: the identifiers
    of the ledger are the same, in the same order, after
    [handleDataChange], whatever row and field it is given. *)
Theorem edit_keeps_ids updatedTransaction fieldChanged st :
  map t_id (transactions (fst (handleDataChange updatedTransaction fieldChanged st)))
  = map t_id (transactions st).
Proof.
  rewrite handleDataChange_transactions. unfold update_transactions.
  now rewrite rebalance_ids, replaced_ids.
Qed.

Lemma with_balance_same t : with_balance t (t_balance t) = t.
Proof. destruct t; reflexivity. Qed.

Lemma consistent_from_tail b0 t l :
  consistent_from b0 (t :: l) ->
  t_balance t = num_add b0 (net_amount (t_credit t) (t_debit t))
  /\ consistent_from (t_balance t) l.
Proof.
  intros H. split.
  - rewrite net_amount_parse. exact (H 0%nat t eq_refl).
  - intros i u Hu. specialize (H (S i) u Hu). destruct i; simpl in *; exact H.
Qed.

Lemma rebalance_consistent_id l : forall b0,
  consistent_from b0 l -> rebalance b0 l = l.
Proof.
  induction l as [|t r IH]; intros b0 H; [reflexivity|].
  apply consistent_from_tail in H as [H0 Hr]. simpl.
  rewrite <- H0, with_balance_same, IH by assumption. reflexivity.
Qed.

Lemma balances_consistent_from l : balances_consistent l -> consistent_from (Num 0) l.
Proof. intros H [|i] t Ht; exact (H _ t Ht). Qed.

Lemma rebalance_fixpoint l :
  balances_consistent l <-> rebalance (Num 0) l = l.
Proof.
  split.
  - intros H. now apply rebalance_consistent_id, balances_consistent_from.
  - intros H. rewrite <- H. apply consistent_from_zero, rebalance_consistent.
Qed.

Lemma replace_absent u l :
  Forall (fun t => t_id t <> t_id u) l ->
  map (fun t => if jsstring_eqb (t_id t) (t_id u) then u else t) l = l.
Proof.
  induction 1 as [|t r Ht _ IH]; [reflexivity|]. simpl. rewrite IH.
  destruct (jsstring_eqb (t_id t) (t_id u)) eqn:E; [|reflexivity].
  apply jsstring_eqb_spec in E. contradiction.
Qed.

(** X6. An edit that names a row the ledger does not have leaves a
    ledger with consistent balances exactly as it is. *)
Theorem edit_of_unknown_id updatedTransaction fieldChanged st :
  Forall (fun t => t_id t <> t_id updatedTransaction) (transactions st) ->
  balances_consistent (transactions st) ->
  transactions (fst (handleDataChange updatedTransaction fieldChanged st))
  = transactions st.
Proof.
  intros Hid Hc. rewrite handleDataChange_transactions. unfold update_transactions.
  rewrite replace_absent by assumption. now apply rebalance_fixpoint.
Qed.

Lemma calculate_from_final uuid ts : forall k b0,
  snd (calculate_from uuid k b0 ts)
  = match last (fst (calculate_from uuid k b0 ts)) with
    | Some t => t_balance t
    | None => b0
    end.
Proof.
  induction ts as [|t r IH]; intros k b0; [reflexivity|].
  simpl. specialize (IH (S k) (num_add b0 (net_amount (r_credit t) (r_debit t)))).
  destruct (calculate_from uuid (S k) _ r) as [rows final]. simpl in *.
  destruct rows as [|x rows]; [exact IH|].
  rewrite last_cons_cons.
  destruct (last (x :: rows)) eqn:L; [exact IH|].
  apply last_None in L. discriminate L.
Qed.

(** X7. The [finalBalance] that [calculateBalances] returns is the
    calculated final balance that the application shows for the rows it
    returns: the balance of the last row, and 0 when there is none. *)
Theorem finalBalance_is_last_balance uuid raws statement d c e :
  snd (calculateBalances uuid raws)
  = calculatedFinalBalance
      (mkApp (fst (calculateBalances uuid raws)) statement d c e).
Proof.
  unfold calculateBalances, calculatedFinalBalance, final_and_mismatch.
  rewrite calculate_from_final. simpl transactions.
  destruct (last _); reflexivity.
Qed.

(* balances depend only on amounts *)
Lemma rebalance_balances l l' : forall b0,
  map t_credit l = map t_credit l' -> map t_debit l = map t_debit l' ->
  map t_balance (rebalance b0 l) = map t_balance (rebalance b0 l').
Proof.
  revert l'. induction l as [|t r IH]; intros [|t' r'] b0 Hc Hd; try discriminate; [reflexivity|].
  simpl in *. injection Hc as Hc1 Hc2. injection Hd as Hd1 Hd2.
  rewrite Hc1, Hd1. f_equal. now apply IH.
Qed.

Lemma edit_keeping_amounts updatedTransaction fieldChanged st :
  balances_consistent (transactions st) ->
  Forall (fun t => t_id t = t_id updatedTransaction ->
                   t_debit updatedTransaction = t_debit t
                   /\ t_credit updatedTransaction = t_credit t)
         (transactions st) ->
  map t_balance (transactions (fst (handleDataChange updatedTransaction fieldChanged st)))
  = map t_balance (transactions st).
Proof.
  intros Hc Ha. rewrite handleDataChange_transactions. unfold update_transactions.
  apply rebalance_fixpoint in Hc. rewrite <- Hc at 2.
  apply rebalance_balances.
  - rewrite map_map. apply List.map_ext_Forall. eapply List.Forall_impl; [|exact Ha].
    intros t Ht. simpl. destruct (jsstring_eqb (t_id t) (t_id updatedTransaction)) eqn:E; [|reflexivity].
    apply jsstring_eqb_spec in E. now apply Ht.
  - rewrite map_map. apply List.map_ext_Forall. eapply List.Forall_impl; [|exact Ha].
    intros t Ht. simpl. destruct (jsstring_eqb (t_id t) (t_id updatedTransaction)) eqn:E; [|reflexivity].
    apply jsstring_eqb_spec in E. now apply Ht.
Qed.

(** ** The CNPJ as shown *)

Lemma digit_not_dot c : is_digit c = true -> ascii_eqb c "." = false.
Proof.
  intros H. apply Ascii.eqb_neq. intros ->. discriminate H.
Qed.

Lemma strip_all_digits d : forallb is_digit d = true -> strip_non_digits d = d.
Proof.
  induction d as [|c r IH]; [reflexivity|]. simpl.
  rewrite andb_true_iff. intros [Hc Hr]. unfold strip_non_digits in *. simpl.
  rewrite Hc, IH by assumption. reflexivity.
Qed.

Lemma masks_full d1 d2 d3 d4 d5 d6 d7 d8 d9 d10 d11 d12 d13 d14 rest :
  forallb is_digit [d1;d2;d3;d4;d5;d6;d7;d8;d9;d10;d11;d12;d13;d14] = true ->
  mask_dash (mask_slash (mask_dot2 (mask_dot1
    (d1::d2::d3::d4::d5::d6::d7::d8::d9::d10::d11::d12::d13::d14::rest))))
  = d1::d2::"."%char::d3::d4::d5::"."%char::d6::d7::d8::"/"%char
      ::d9::d10::d11::d12::"-"%char::d13::d14::rest.
Proof.
  simpl forallb. rewrite !andb_true_iff.
  intros (H1&H2&H3&H4&H5&H6&H7&H8&H9&H10&H11&H12&H13&H14&_).
  pose proof (digit_not_dot _ H1) as E1. pose proof (digit_not_dot _ H2) as E2.
  pose proof (digit_not_dot _ H3) as E3. pose proof (digit_not_dot _ H4) as E4.
  pose proof (digit_not_dot _ H5) as E5.
  unfold mask_dot1. rewrite H1, H2, H3. cbn [andb].
  unfold mask_dot2. rewrite H1, H2, H3, H4, H5, H6.
  change (ascii_eqb "." ".") with true. cbn [andb].
  cbn [mask_slash].
  change (ascii_eqb "." ".") with true. change (is_digit ".") with false.
  rewrite E1, E2, E3, E4, E5, H3, H4, H5, H6, H7, H8, H9. cbn [andb].
  rewrite ?andb_false_r. cbn [andb].
  cbn [mask_dash].
  change (is_digit ".") with false. change (is_digit "/") with false.
  rewrite H1, H2, H3, H4, H5, H6, H7, H8, H9, H10, H11, H12, H13.
  cbn [andb]. rewrite ?andb_false_r. cbn [andb]. reflexivity.
Qed.


Lemma strip_masks d :
  strip_non_digits (mask_dash (mask_slash (mask_dot2 (mask_dot1 d))))
  = strip_non_digits d.
Proof.
  now rewrite strip_mask_dash, strip_mask_slash, strip_mask_dot2, strip_mask_dot1.
Qed.

Lemma forallb_firstn {A} (f : A -> bool) n l :
  forallb f l = true -> forallb f (firstn n l) = true.
Proof.
  rewrite !forallb_forall. intros H x Hx. apply H.
  rewrite <- (firstn_skipn n l). apply in_or_app. now left.
Qed.

(** The display form is the mask of the first 14 digits. *)
Lemma format_as_mask s :
  formatCNPJForDisplay s
  = mask_dash (mask_slash (mask_dot2 (mask_dot1
      (firstn 14 (strip_non_digits s))))).
Proof.
  unfold formatCNPJForDisplay, slice_to.
  pose proof (strip_digits s) as Hd.
  set (d := strip_non_digits s) in *. clearbody d.
  destruct (le_lt_dec (length d) 14) as [Hle | Hgt].
  - rewrite (firstn_all2 d) by exact Hle. apply firstn_all2.
    pose proof (length_mask_dot1 d).
    pose proof (length_mask_dot2 (mask_dot1 d)).
    pose proof (length_mask_slash (mask_dot2 (mask_dot1 d))).
    pose proof (length_mask_dash (mask_slash (mask_dot2 (mask_dot1 d)))).
    lia.
  - do 14 (destruct d as [|? d]; [simpl in Hgt; lia|]).
    assert (Hd14 : forallb is_digit [a;a0;a1;a2;a3;a4;a5;a6;a7;a8;a9;a10;a11;a12] = true).
    { simpl in Hd |- *. rewrite !andb_true_iff in *. tauto. }
    change (firstn 14 (a::a0::a1::a2::a3::a4::a5::a6::a7::a8::a9::a10::a11::a12::d))
      with [a;a0;a1;a2;a3;a4;a5;a6;a7;a8;a9;a10;a11;a12].
    rewrite (masks_full _ _ _ _ _ _ _ _ _ _ _ _ _ _ d Hd14).
    rewrite (masks_full _ _ _ _ _ _ _ _ _ _ _ _ _ _ [] Hd14).
    reflexivity.
Qed.

(** X8. [formatCNPJForDisplay] shows the first 14 digits of its input
    and nothing else but punctuation: stripping the result gives those
    digits back, the result has at most 18 characters, and formatting a
    formatted text changes nothing. *)
Theorem formatCNPJForDisplay_digits (s : jsstring) :
  strip_non_digits (formatCNPJForDisplay s) = firstn 14 (strip_non_digits s)
  /\ (length (formatCNPJForDisplay s) <= 18)%nat
  /\ formatCNPJForDisplay (formatCNPJForDisplay s) = formatCNPJForDisplay s.
Proof.
  assert (H1 : strip_non_digits (formatCNPJForDisplay s)
               = firstn 14 (strip_non_digits s)).
  { rewrite format_as_mask, strip_masks. apply strip_all_digits.
    apply forallb_firstn, strip_digits. }
  split; [exact H1|]. split.
  - unfold formatCNPJForDisplay, slice_to. rewrite length_firstn. lia.
  - rewrite (format_as_mask (formatCNPJForDisplay s)), H1.
    rewrite firstn_firstn. change (Nat.min 14 14) with 14%nat.
    symmetry. apply format_as_mask.
Qed.

(** ** Edits made in the table *)

Lemma rebalance_In l : forall b0 t',
  In t' (rebalance b0 l) -> exists x b, In x l /\ t' = with_balance x b.
Proof.
  induction l as [|t r IH]; intros b0 t' H; [destruct H|].
  cbn [rebalance In] in H. destruct H as [H | H].
  - exists t. eexists. split; [now left | symmetry; exact H].
  - destruct (IH _ _ H) as (x & b & Hx & ->). exists x, b. split; [now right | reflexivity].
Qed.

Lemma update_In u l t' :
  In t' (update_transactions u l) ->
  exists t b, In t l
    /\ t' = with_balance (if jsstring_eqb (t_id t) (t_id u) then u else t) b.
Proof.
  unfold update_transactions. intros H.
  apply rebalance_In in H as (x & b & Hx & ->).
  apply in_map_iff in Hx as (t & <- & Ht). eauto.
Qed.

Lemma find_by_id_spec id l t :
  List.find (fun t => jsstring_eqb (t_id t) id) l = Some t ->
  In t l /\ t_id t = id.
Proof.
  intros H. apply find_some in H as [H1 H2]. apply jsstring_eqb_spec in H2. auto.
Qed.

Lemma Field_eq_dec (a b : Field) : {a = b} + {a <> b}.
Proof. decide equality. Defined.

Lemma set_field_id t f v : t_id (set_field t f v) = t_id t.
Proof. destruct f; reflexivity. Qed.

Lemma key_debit_credit (a b : jsstring) : a ++ str "-debit" <> b ++ str "-credit".
Proof.
  intros H. apply (f_equal (@rev ascii)) in H. rewrite !rev_app_distr in H.
  discriminate H.
Qed.

Lemma key_inj (a b suffix : jsstring) : a <> b -> a ++ suffix <> b ++ suffix.
Proof. intros Hne H. apply app_inv_tail in H. contradiction. Qed.

Lemma filtered_In txs filters t :
  In t (filteredTransactions txs filters) -> In t txs.
Proof. unfold filteredTransactions. intros H. apply filter_In in H. tauto. Qed.

Lemma lookup_None_set {V} (m : gmap jsstring V) k (b : bool) v :
  (if b then delete k m else <[k := v]> (delete k m)) !! k = None <-> b = true.
Proof.
  destruct b.
  - rewrite lookup_delete_eq. tauto.
  - rewrite lookup_insert_eq. split; discriminate.
Qed.

Lemma lookup_other_set {V} (m : gmap jsstring V) k k' (b : bool) v :
  k <> k' ->
  (if b then delete k m else <[k := v]> (delete k m)) !! k' = m !! k'.
Proof.
  intros H. destruct b; rewrite ?lookup_insert_ne, lookup_delete_ne; auto.
Qed.


Lemma edit_keeps_cnpj_table u field st found :
  In found (transactions st) -> t_id u = t_id found ->
  (field <> cnpj -> t_cnpj u = t_cnpj found) ->
  cnpj_errors_exact st ->
  cnpj_errors_exact (fst (handleDataChange u field st)).
Proof.
  intros Hin Hid Hsame Hc t' Ht'.
  rewrite handleDataChange_transactions in Ht'.
  apply update_In in Ht' as (t & b & Ht & ->).
  assert (Hkeep : field <> cnpj ->
            cnpjErrors (fst (handleDataChange u field st)) = cnpjErrors st).
  { destruct field; intros H; try reflexivity. now contradict H. }
  destruct (jsstring_eqb (t_id t) (t_id u)) eqn:Eid.
  - change (t_id (with_balance u b)) with (t_id u).
    change (t_cnpj (with_balance u b)) with (t_cnpj u).
    destruct (Field_eq_dec field cnpj) as [-> | Hf].
    + apply lookup_None_set.
    + rewrite (Hkeep Hf), (Hsame Hf), Hid. apply (Hc found Hin).
  - change (t_id (with_balance t b)) with (t_id t).
    change (t_cnpj (with_balance t b)) with (t_cnpj t).
    assert (t_id u <> t_id t) as Hne.
    { intros H. symmetry in H. apply jsstring_eqb_spec in H. congruence. }
    destruct (Field_eq_dec field cnpj) as [-> | Hf].
    + cbn [handleDataChange fst cnpjErrors].
      rewrite lookup_other_set by exact Hne. apply (Hc t Ht).
    + rewrite (Hkeep Hf). apply (Hc t Ht).
Qed.

Lemma edit_keeps_currency_table u field st found :
  In found (transactions st) -> t_id u = t_id found ->
  (field <> debit -> t_debit u = t_debit found) ->
  (field <> credit -> t_credit u = t_credit found) ->
  currency_errors_exact st ->
  currency_errors_exact (fst (handleDataChange u field st)).
Proof.
  intros Hin Hid Hsd Hsc Hm t' Ht'.
  rewrite handleDataChange_transactions in Ht'.
  apply update_In in Ht' as (t & b & Ht & ->).
  assert (Hkeep : field <> debit -> field <> credit ->
            currencyErrors (fst (handleDataChange u field st))
            = currencyErrors st).
  { destruct field; intros H1 H2; try reflexivity;
      [now contradict H1 | now contradict H2]. }
  assert (Hdc : forall a c : jsstring, a ++ str "-credit" <> c ++ str "-debit").
  { intros a c H. symmetry in H. revert H. apply key_debit_credit. }
  destruct (jsstring_eqb (t_id t) (t_id u)) eqn:Eid.
  - change (t_id (with_balance u b)) with (t_id u).
    change (t_debit (with_balance u b)) with (t_debit u).
    change (t_credit (with_balance u b)) with (t_credit u).
    destruct (Hm found Hin) as [Hd Hcr]. rewrite <- Hid in Hd, Hcr.
    destruct (Field_eq_dec field debit) as [-> | Hf1];
      [|destruct (Field_eq_dec field credit) as [-> | Hf2]].
    + split; [apply lookup_None_set|].
      cbn [handleDataChange fst currencyErrors].
      rewrite lookup_other_set by apply key_debit_credit.
      rewrite Hsc by discriminate. exact Hcr.
    + split; [|apply lookup_None_set].
      cbn [handleDataChange fst currencyErrors].
      rewrite lookup_other_set by apply Hdc.
      rewrite Hsd by discriminate. exact Hd.
    + rewrite (Hkeep Hf1 Hf2), (Hsd Hf1), (Hsc Hf2). split; assumption.
  - change (t_id (with_balance t b)) with (t_id t).
    change (t_debit (with_balance t b)) with (t_debit t).
    change (t_credit (with_balance t b)) with (t_credit t).
    assert (t_id u <> t_id t) as Hne.
    { intros H. symmetry in H. apply jsstring_eqb_spec in H. congruence. }
    destruct (Hm t Ht) as [Hd Hcr].
    destruct (Field_eq_dec field debit) as [-> | Hf1];
      [|destruct (Field_eq_dec field credit) as [-> | Hf2]].
    + cbn [handleDataChange fst currencyErrors]. split.
      * rewrite lookup_other_set by (apply key_inj; exact Hne). exact Hd.
      * rewrite lookup_other_set by apply key_debit_credit. exact Hcr.
    + cbn [handleDataChange fst currencyErrors]. split.
      * rewrite lookup_other_set by apply Hdc. exact Hd.
      * rewrite lookup_other_set by (apply key_inj; exact Hne). exact Hcr.
    + rewrite (Hkeep Hf1 Hf2). split; assumption.
Qed.

Lemma handleFieldChange_row rows id field value u f :
  handleFieldChange rows id field value = Some (u, f) ->
  exists found, In found rows /\ t_id found = id /\ f = field
    /\ u = set_field found field
             (match field with cnpj => strip_non_digits value | _ => value end).
Proof.
  unfold handleFieldChange. destruct (List.find _ _) as [found|] eqn:F; [|discriminate].
  intros [= <- <-]. apply find_by_id_spec in F as [Hin Hid]. eauto.
Qed.

Lemma table_edit_keeps_error_tables filters id field value s :
  cnpj_errors_exact (app s) -> currency_errors_exact (app s) ->
  cnpj_errors_exact (app (table_edit filters id field value s))
  /\ currency_errors_exact (app (table_edit filters id field value s)).
Proof.
  intros Hc Hm. unfold table_edit.
  destruct (handleFieldChange _ _ _ _) as [[u f]|] eqn:E; [|auto].
  apply handleFieldChange_row in E as (found & Hin & Hid & -> & Hu).
  apply filtered_In in Hin.
  assert (Happ : app (step s (Edit u field)) = fst (handleDataChange u field (app s))).
  { cbn [step]. now destruct (handleDataChange u field (app s)). }
  rewrite Happ. split.
  - apply (edit_keeps_cnpj_table u field (app s) found); auto.
    + rewrite Hu. apply set_field_id.
    + rewrite Hu. destruct field; intros H; try reflexivity. now contradict H.
  - apply (edit_keeps_currency_table u field (app s) found); auto.
    + rewrite Hu. apply set_field_id.
    + rewrite Hu. destruct field; intros H; try reflexivity. now contradict H.
    + rewrite Hu. destruct field; intros H; try reflexivity. now contradict H.
Qed.

(** ** Formatted amounts *)

Lemma code_digit_char d : 0 <= d <= 9 -> code (digit_char d) = 48 + d.
Proof.
  intros H. unfold code, digit_char.
  rewrite N_ascii_embedding by lia. lia.
Qed.

Lemma digit_char_digit d : 0 <= d <= 9 -> is_digit (digit_char d) = true.
Proof. intros H. apply is_digit_code. rewrite code_digit_char; lia. Qed.

Lemma digit_char_value d : 0 <= d <= 9 -> digit_value (digit_char d) = d.
Proof. intros H. unfold digit_value. rewrite code_digit_char; lia. Qed.

Lemma digits_value_snoc ds c :
  digits_value (ds ++ [c]) = 10 * digits_value ds + digit_value c.
Proof. unfold digits_value. now rewrite fold_left_app. Qed.

Lemma digits_of_spec fuel : forall n,
  0 <= n < 10 ^ Z.of_nat (S fuel) ->
  forallb is_digit (digits_of (S fuel) n) = true
  /\ digits_value (digits_of (S fuel) n) = n
  /\ digits_of (S fuel) n <> [].
Proof.
  induction fuel as [|fuel IH]; intros n Hn.
  - change (10 ^ Z.of_nat 1) with 10 in Hn.
    cbn [digits_of]. destruct (Z.ltb_spec n 10) as [_|?]; [|lia].
    cbn [forallb]. rewrite digit_char_digit by lia.
    unfold digits_value. cbn [fold_left]. rewrite digit_char_value by lia.
    split; [reflexivity | split; [lia | discriminate]].
  - rewrite Nat2Z.inj_succ, Z.pow_succ_r in Hn by lia.
    change (digits_of (S (S fuel)) n)
      with (if n <? 10 then [digit_char n]
            else digits_of (S fuel) (n / 10) ++ [digit_char (n mod 10)]).
    destruct (Z.ltb_spec n 10) as [Hlt|Hge].
    + cbn [forallb]. rewrite digit_char_digit by lia.
      unfold digits_value. cbn [fold_left]. rewrite digit_char_value by lia.
      split; [reflexivity | split; [lia | discriminate]].
    + destruct (IH (n / 10)) as (Hd & Hv & Hne).
      { split; [apply Z.div_pos; lia|].
        apply Z.div_lt_upper_bound; lia. }
      assert (0 <= n mod 10 <= 9) by (pose proof (Z.mod_pos_bound n 10); lia).
      repeat split.
      * rewrite forallb_app, Hd. cbn [forallb].
        now rewrite digit_char_digit.
      * rewrite digits_value_snoc, Hv, digit_char_value by assumption.
        pose proof (Z.div_mod n 10). lia.
      * intros E. apply app_eq_nil in E as [_ E]. discriminate E.
Qed.

Lemma decimal_digits_spec n :
  0 <= n ->
  forallb is_digit (decimal_digits n) = true
  /\ digits_value (decimal_digits n) = n
  /\ decimal_digits n <> [].
Proof.
  intros Hn. apply digits_of_spec. split; [exact Hn|].
  destruct (Z.eq_dec n 0) as [->|Hz]; [reflexivity|].
  rewrite Nat2Z.inj_succ, Z2Nat.id by apply Z.log2_nonneg.
  destruct (Z.log2_spec n) as [_ Hlt]; [lia|].
  eapply Z.lt_le_trans; [exact Hlt|].
  apply Z.pow_le_mono_l. pose proof (Z.log2_nonneg n). lia.
Qed.

Lemma chunks3_spec m : forall ds,
  length ds = (3 * m)%nat ->
  concat (chunks3 ds) = ds
  /\ forallb (fun g => (length g =? 3)%nat) (chunks3 ds) = true.
Proof.
  induction m as [|m IH]; intros ds H.
  - destruct ds; [split; reflexivity | discriminate].
  - destruct ds as [|a [|b [|c r]]]; try (cbn in H; lia).
    destruct (IH r) as [Hc Hl]; [cbn in H; lia|].
    cbn [chunks3 concat forallb]. rewrite Hc, Hl. split; reflexivity.
Qed.

Lemma chunks3_digits ds :
  forallb is_digit ds = true ->
  Forall (fun g => forallb is_digit g = true) (chunks3 ds).
Proof.
  intros H. remember (length ds) as n eqn:Hn. revert ds H Hn.
  induction (lt_wf n) as [n _ IH]. intros ds H Hn.
  destruct ds as [|a [|b [|c r]]]; cbn [chunks3].
  - constructor.
  - constructor; [exact H | constructor].
  - constructor; [exact H | constructor].
  - cbn [forallb] in H. apply andb_true_iff in H as [Ha H].
    apply andb_true_iff in H as [Hb H]. apply andb_true_iff in H as [Hc H].
    constructor.
    + cbn [forallb]. now rewrite Ha, Hb, Hc.
    + apply (IH (length r)); [subst n; cbn; lia | exact H | reflexivity].
Qed.

(** The groups of [group_digits ds]: runs of digits whose concatenation
    is [ds], the first with one to three digits, the others with three. *)
Lemma group_digits_spec ds :
  ds <> [] -> forallb is_digit ds = true ->
  exists g gs,
    group_digits ds = join "." (g :: gs)
    /\ g ++ concat gs = ds
    /\ g <> []
    /\ (length g <= 3)%nat
    /\ groups_of_three gs = true
    /\ Forall (fun g => forallb is_digit g = true) (g :: gs).
Proof.
  intros Hne Hd. unfold group_digits.
  set (k := ((length ds - 1) mod 3 + 1)%nat).
  assert (Hlen : (0 < length ds)%nat) by (destruct ds; [congruence | cbn; lia]).
  assert (Hk : (1 <= k <= 3)%nat).
  { unfold k. pose proof (Nat.mod_upper_bound (length ds - 1) 3). lia. }
  assert (Hkl : (k <= length ds)%nat).
  { unfold k. pose proof (Nat.Div0.mod_le (length ds - 1) 3). lia. }
  assert (Hm : exists m, length (skipn k ds) = (3 * m)%nat).
  { exists ((length ds - 1) / 3)%nat. rewrite length_skipn. unfold k.
    pose proof (Nat.div_mod_eq (length ds - 1) 3). lia. }
  destruct Hm as [m Hm]. destruct (chunks3_spec m _ Hm) as [Hc Hl].
  exists (firstn k ds), (chunks3 (skipn k ds)). repeat split.
  - rewrite Hc. apply firstn_skipn.
  - intros E. apply (f_equal (@length ascii)) in E.
    rewrite length_firstn in E. cbn in E. lia.
  - rewrite length_firstn. lia.
  - exact Hl.
  - rewrite <- (firstn_skipn k ds), forallb_app in Hd.
    apply andb_true_iff in Hd as [H1 H2].
    constructor; [exact H1 | now apply chunks3_digits].
Qed.

Lemma join_cons c g gs :
  join c (g :: gs) = g ++ match gs with [] => [] | _ :: _ => c :: join c gs end.
Proof. destruct gs; cbn [join]; [now rewrite app_nil_r | reflexivity]. Qed.

Lemma digit_is_currency_char s :
  forallb is_digit s = true -> forallb is_currency_char s = true.
Proof.
  intros H. apply forallb_forall. intros c Hc.
  unfold is_currency_char. rewrite forallb_forall in H. now rewrite (H c Hc).
Qed.

Lemma join_currency_chars gs :
  Forall (fun g => forallb is_digit g = true) gs ->
  forallb is_currency_char (join "." gs) = true.
Proof.
  induction 1 as [|g gs Hg _ IH]; [reflexivity|].
  rewrite join_cons, forallb_app, (digit_is_currency_char g Hg).
  destruct gs; [reflexivity|]. cbn [forallb andb]. exact IH.
Qed.

Lemma remove_dots_digits s : forallb is_digit s = true -> remove_dots s = s.
Proof.
  induction s as [|c r IH]; [reflexivity|]. cbn [forallb]. intros H.
  apply andb_true_iff in H as [Hc Hr]. unfold remove_dots. cbn [List.filter].
  assert (ascii_eqb c "." = false) as ->.
  { destruct (ascii_eqb c ".") eqn:E; [|reflexivity].
    apply ascii_eqb_eq in E. subst c. discriminate Hc. }
  cbn [negb]. f_equal. now apply IH.
Qed.

Lemma remove_dots_app a b : remove_dots (a ++ b) = remove_dots a ++ remove_dots b.
Proof. unfold remove_dots. apply List.filter_app. Qed.

Lemma remove_dots_join gs :
  Forall (fun g => forallb is_digit g = true) gs ->
  remove_dots (join "." gs) = concat gs.
Proof.
  induction 1 as [|g gs Hg _ IH]; [reflexivity|].
  rewrite join_cons, remove_dots_app, (remove_dots_digits g Hg).
  cbn [concat]. f_equal. destruct gs; [reflexivity|].
  change (remove_dots ("."%char :: join "." (l :: gs)))
    with (remove_dots (join "." (l :: gs))). exact IH.
Qed.

Lemma join_comma_free gs :
  Forall (fun g => forallb is_digit g = true) gs ->
  free_of "," (join "." gs).
Proof.
  induction 1 as [|g gs Hg _ IH]; [intros []|].
  rewrite join_cons. intros Hin. apply in_app_or in Hin as [Hin|Hin].
  - revert Hin. now apply digits_free.
  - destruct gs; [destruct Hin|]. destruct Hin as [E|Hin]; [discriminate E|].
    now apply IH.
Qed.

Lemma replace_comma_app a r :
  free_of "," a -> replace_comma (a ++ ","%char :: r) = a ++ "."%char :: r.
Proof.
  induction a as [|c a IH]; intros H; [reflexivity|].
  rewrite <- app_comm_cons. cbn [replace_comma].
  assert (ascii_eqb c "," = false) as ->.
  { destruct (ascii_eqb c ",") eqn:E; [|reflexivity].
    apply ascii_eqb_eq in E. subst c. exfalso. apply H. now left. }
  rewrite <- app_comm_cons. f_equal. apply IH. intros Hin. apply H. now right.
Qed.

Lemma span_digits_app ds c r :
  forallb is_digit ds = true -> is_digit c = false ->
  span_digits (ds ++ c :: r) = (ds, c :: r).
Proof.
  intros Hd Hc. induction ds as [|d ds IH].
  - rewrite app_nil_l. cbn [span_digits]. now rewrite Hc.
  - cbn [forallb] in Hd. apply andb_true_iff in Hd as [H1 H2].
    rewrite <- app_comm_cons. cbn [span_digits]. now rewrite H1, (IH H2).
Qed.

Lemma span_digits_all ds :
  forallb is_digit ds = true -> span_digits ds = (ds, []).
Proof.
  induction ds as [|d ds IH]; [reflexivity|]. cbn [forallb]. intros Hd.
  apply andb_true_iff in Hd as [H1 H2].
  cbn [span_digits]. now rewrite H1, (IH H2).
Qed.

Lemma concat_digits gs :
  Forall (fun g => forallb is_digit g = true) gs ->
  forallb is_digit (concat gs) = true.
Proof.
  induction 1 as [|g gs Hg _ IH]; [reflexivity|].
  cbn [concat]. now rewrite forallb_app, Hg, IH.
Qed.

(** A number written with digits in groups, a comma and two digits is
    accepted by [validateCurrency]. *)
Lemma grouped_amount_valid g gs a b :
  (length g <= 3)%nat -> groups_of_three gs = true ->
  Forall (fun g => forallb is_digit g = true) (g :: gs) ->
  is_digit a = true -> is_digit b = true ->
  validateCurrency (join "." (g :: gs) ++ ","%char :: [a; b]) = valid.
Proof.
  intros Hlen H3 Hd Ha Hb.
  set (G := join "." (g :: gs)).
  assert (Hfree : free_of "," G) by now apply join_comma_free.
  assert (Hcur : forallb is_currency_char (G ++ ","%char :: [a; b]) = true).
  { rewrite forallb_app. unfold G. rewrite (join_currency_chars _ Hd).
    cbn [forallb]. unfold is_currency_char at 2 3. rewrite Ha, Hb. reflexivity. }
  assert (Hab : free_of "," [a; b]).
  { apply digits_free; [reflexivity|]. cbn [forallb]. now rewrite Ha, Hb. }
  assert (Hsplit : split "," (G ++ ","%char :: [a; b]) = [G; [a; b]]).
  { rewrite split_app_sep by exact Hfree. now rewrite (split_free _ _ Hab). }
  unfold validateCurrency.
  rewrite (trim_currency _ Hcur), Hcur.
  assert (is_empty (G ++ ","%char :: [a; b]) = false) as ->
    by (destruct G; reflexivity).
  cbn [orb negb].
  assert (count_commas (G ++ ","%char :: [a; b]) = 1%nat) as ->.
  { unfold count_commas. rewrite List.filter_app, (filter_free _ _ Hfree).
    change (List.filter (ascii_eqb ",") (","%char :: [a; b]))
      with (","%char :: List.filter (ascii_eqb ",") [a; b]).
    now rewrite (filter_free _ _ Hab). }
  change (1 <? 1)%nat with false. cbv iota.
  rewrite Hsplit. cbn [nth length]. change (2 <? 2)%nat with false.
  rewrite andb_false_r.
  destruct (includes_char "." G) eqn:Hdot; [|reflexivity].
  assert (Hgs : split "." G = g :: gs).
  { apply split_join; [discriminate|].
    eapply List.Forall_impl; [|exact Hd]. intros x Hx.
    now apply digits_free. }
  rewrite Hgs. cbn [nth tl].
  destruct (Nat.ltb_spec 3 (length g)) as [?|_]; [lia|].
  now rewrite H3.
Qed.

Lemma digit_not_char d c :
  is_digit d = true -> is_digit c = false -> ascii_eqb d c = false.
Proof.
  intros Hd Hc. destruct (ascii_eqb d c) eqn:E; [|reflexivity].
  apply ascii_eqb_eq in E. congruence.
Qed.

(** ... and [parseCurrency] reads it as its digits, taken as a number
    of hundredths. *)
Lemma grouped_amount_parse g gs a b :
  g <> [] ->
  Forall (fun g => forallb is_digit g = true) (g :: gs) ->
  is_digit a = true -> is_digit b = true ->
  parseCurrency (join "." (g :: gs) ++ ","%char :: [a; b])
  = fl (digits_value (g ++ concat gs ++ [a; b]) # 100).
Proof.
  intros Hne Hd Ha Hb.
  assert (HD : forallb is_digit (concat (g :: gs)) = true)
    by now apply concat_digits.
  assert (Hab : forallb is_digit [a; b] = true)
    by (cbn [forallb]; now rewrite Ha, Hb).
  unfold parseCurrency.
  assert (is_empty (join "." (g :: gs) ++ ","%char :: [a; b]) = false) as ->
    by (destruct (join "." (g :: gs)); reflexivity).
  rewrite remove_dots_app, (remove_dots_join _ Hd).
  change (remove_dots (","%char :: [a; b]))
    with (","%char :: remove_dots [a; b]).
  rewrite (remove_dots_digits _ Hab).
  rewrite replace_comma_app by (apply digits_free; [reflexivity | exact HD]).
  cbn [concat] in *. rewrite app_assoc.
  set (D := g ++ concat gs) in *.
  assert (HDne : exists d D', D = d :: D' /\ is_digit d = true).
  { unfold D in *. destruct g as [|d g']; [congruence|].
    exists d, (g' ++ concat gs). split; [reflexivity|].
    rewrite <- app_comm_cons in HD. cbn [forallb] in HD.
    now apply andb_true_iff in HD as [? _]. }
  destruct HDne as (d & D' & HDeq & Hdig).
  assert (Hpf : parseFloat (D ++ "."%char :: [a; b])
                = decimal_value D [a; b] []).
  { unfold parseFloat.
    rewrite trimStart_no_space.
    2:{ apply forallb_forall. intros c Hc.
        assert (is_currency_char c = true) as Hcc.
        { apply in_app_or in Hc as [Hc|Hc].
          - apply digit_is_currency_char in HD.
            rewrite forallb_forall in HD. now apply HD.
          - destruct Hc as [<-|Hc]; [reflexivity|].
            apply digit_is_currency_char in Hab.
            rewrite forallb_forall in Hab. now apply Hab. }
        now rewrite (is_currency_char_not_space _ Hcc). }
    assert (after_char "+" (D ++ "."%char :: [a; b]) = None) as ->.
    { rewrite HDeq, <- app_comm_cons. unfold after_char.
      now rewrite (digit_not_char d "+" Hdig). }
    assert (after_char "-" (D ++ "."%char :: [a; b]) = None) as ->.
    { rewrite HDeq, <- app_comm_cons. unfold after_char.
      now rewrite (digit_not_char d "-" Hdig). }
    unfold unsigned_literal.
    assert (is_prefix (str "Infinity") (D ++ "."%char :: [a; b]) = false) as ->.
    { rewrite HDeq, <- app_comm_cons.
      change (str "Infinity") with ("I"%char :: str "nfinity").
      cbn [is_prefix].
      assert (ascii_eqb "I" d = false) as ->; [|reflexivity].
      destruct (ascii_eqb "I" d) eqn:E; [|reflexivity].
      apply ascii_eqb_eq in E. subst d. discriminate Hdig. }
    rewrite (span_digits_app D "." [a; b] HD) by reflexivity.
    change (after_char "." ("."%char :: [a; b])) with (Some [a; b]).
    cbv iota. rewrite (span_digits_all _ Hab).
    rewrite HDeq. reflexivity. }
  rewrite Hpf. unfold decimal_value. rewrite fl_not_NaN. apply fl_Qeq.
  change (exponent_part [] - Z.of_nat (length [a; b])) with (-2).
  change (Qpower 10 (-2)) with (/ (100 # 1))%Q.
  unfold Qeq, Qmult, Qinv, inject_Z. cbn. lia.
Qed.

Lemma Qabs_nonneg_eq q : (0 <= q)%Q -> Qabs q = q.
Proof.
  destruct q as [n d]. unfold Qle. cbn. intros H.
  rewrite Z.abs_eq by lia. reflexivity.
Qed.

Lemma neighbours_nonneg q k :
  (0 <= q)%Q ->
  (0 <= fst (neighbours q k))%Q /\ (0 <= snd (neighbours q k))%Q.
Proof.
  intros Hq. unfold neighbours. cbv zeta. cbn [fst snd].
  set (scale := Qpower 10 (k - 1 - ilog10 q)).
  assert (Hs : (0 < scale)%Q) by (apply Qpower_0_lt; reflexivity).
  assert (Hf : 0 <= Qfloor (q * scale)).
  { change 0 with (Qfloor 0). apply Qfloor_resp_le.
    apply Qmult_le_0_compat; [exact Hq | now apply Qlt_le_weak]. }
  split; (apply Qle_shift_div_l; [exact Hs|]); rewrite Qmult_0_l;
    change 0%Q with (inject_Z 0); rewrite <- Zle_Qle; lia.
Qed.

Lemma shortest_from_nonneg fuel : forall q k,
  (0 <= q)%Q -> (0 <= shortest_from fuel q k)%Q.
Proof.
  induction fuel as [|fuel IH]; intros q k Hq; [exact Hq|].
  cbn [shortest_from].
  destruct (neighbours_nonneg q k Hq) as [Hlo Hhi].
  destruct (neighbours q k) as [lo hi]. cbn [fst snd] in Hlo, Hhi.
  destruct (round_trips q lo), (round_trips q hi); auto.
  destruct (_ ?= _)%Q; [destruct (Z.even _)| |]; assumption.
Qed.

(** A double that is not negative is printed with the digits of a
    number of hundredths that is not negative. *)
Lemma cents_nonneg q : (0 <= q)%Q -> 0 <= cents q.
Proof.
  intros Hq. unfold cents, shortest_decimal.
  pose proof (shortest_from_nonneg 17 q 1 Hq) as H.
  change 0 with (Qfloor 0). apply Qfloor_resp_le.
  apply Qle_trans with (shortest_from 17 q 1 * 100)%Q.
  - apply Qmult_le_0_compat; [exact H | discriminate].
  - rewrite <- (Qplus_0_r (shortest_from 17 q 1 * 100)) at 1.
    apply Qplus_le_r. discriminate.
Qed.

(** The text of [n >= 0] hundredths. *)
Lemma hundredths_round_trip n :
  0 <= n ->
  let s := group_digits (decimal_digits (n / 100))
           ++ ","%char :: [digit_char (n mod 100 / 10);
                           digit_char (n mod 10)] in
  validateCurrency s = valid /\ parseCurrency s = fl (n # 100).
Proof.
  intros Hn.
  destruct (decimal_digits_spec (n / 100)) as (Hd & Hv & Hne);
    [apply Z.div_pos; lia|].
  destruct (group_digits_spec _ Hne Hd)
    as (g & gs & -> & Hcat & Hg & Hlen & H3 & Hall).
  assert (Ha : 0 <= n mod 100 / 10 <= 9) by (Z.div_mod_to_equations; lia).
  assert (Hb : 0 <= n mod 10 <= 9) by (Z.div_mod_to_equations; lia).
  cbv zeta. split.
  - apply grouped_amount_valid; auto using digit_char_digit.
  - rewrite grouped_amount_parse by auto using digit_char_digit.
    do 2 f_equal. rewrite app_assoc, Hcat.
    change [digit_char (n mod 100 / 10); digit_char (n mod 10)]
      with ([digit_char (n mod 100 / 10)] ++ [digit_char (n mod 10)]).
    rewrite app_assoc, !digits_value_snoc, Hv, !digit_char_value by assumption.
    Z.div_mod_to_equations. lia.
Qed.

Lemma Qeq_bool_pos q : (0 < q)%Q -> Qeq_bool q 0 = false.
Proof.
  intros H. destruct (Qeq_bool q 0) eqn:E; [|reflexivity].
  apply Qeq_bool_iff in E. rewrite E in H. discriminate H.
Qed.

Lemma toLocaleString_positive q :
  (0 < q)%Q ->
  toLocaleString_ptBR (Num q)
  = group_digits (decimal_digits (cents q / 100))
    ++ ","%char :: [digit_char (cents q mod 100 / 10);
                    digit_char (cents q mod 10)].
Proof.
  intros Hq. unfold toLocaleString_ptBR.
  rewrite (Qeq_bool_pos q Hq), (Qabs_nonneg_eq q (Qlt_le_weak _ _ Hq)).
  assert (Qle_bool 0 q = true) as ->
    by now apply Qle_bool_iff, Qlt_le_weak.
  reflexivity.
Qed.

Lemma format_round_trip (q : Q) :
  (0 < q)%Q ->
  validateCurrency (toLocaleString_ptBR (Num q)) = valid
  /\ parseCurrency (toLocaleString_ptBR (Num q)) = fl (cents q # 100).
Proof.
  intros Hq. rewrite (toLocaleString_positive q Hq).
  apply hundredths_round_trip, cents_nonneg. now apply Qlt_le_weak.
Qed.

(** X9. The text that [toLocaleString('pt-BR', ...)] with two fraction
    digits prints for a finite amount above 0 is accepted by
    [validateCurrency], and [parseCurrency] reads it back as the double
    nearest to the hundredths that are printed.  These are the
    hundredths nearest to the shortest decimal that denotes the amount,
    a tie going up: 2.675, 1.005 and 100.005 print as 2,68, 1,01 and
    100,01, though each of these doubles is below the decimal;
    1234567.891 prints as 1.234.567,89 and 0.001 as 0,00.  The
    infinity prints as its sign, which is not accepted and is read back
    as 0. *)
Theorem toLocaleString_round_trip :
  (forall q : Q,
      (0 < q)%Q ->
      validateCurrency (toLocaleString_ptBR (Num q)) = valid
      /\ parseCurrency (toLocaleString_ptBR (Num q)) = fl (cents q # 100))
  /\ toLocaleString_ptBR (fl (2675 # 1000)) = str "2,68"
  /\ toLocaleString_ptBR (fl (1005 # 1000)) = str "1,01"
  /\ toLocaleString_ptBR (fl (100005 # 1000)) = str "100,01"
  /\ num_ltb (fl (2675 # 1000)) (Num (2675 # 1000)) = true
  /\ num_ltb (fl (1005 # 1000)) (Num (1005 # 1000)) = true
  /\ num_ltb (fl (100005 # 1000)) (Num (100005 # 1000)) = true
  /\ toLocaleString_ptBR (fl (1234567891 # 1000)) = str "1.234.567,89"
  /\ toLocaleString_ptBR (fl (1 # 1000)) = str "0,00"
  /\ isValid (validateCurrency (toLocaleString_ptBR PosInf)) = false
  /\ parseCurrency (toLocaleString_ptBR PosInf) = Num 0.
Proof.
  split; [exact format_round_trip|].
  repeat split; vm_compute; reflexivity.
Qed.

(** ** Ingestion *)

Lemma Qle_bool_false_lt q : Qle_bool q 0 = false -> (0 < q)%Q.
Proof.
  intros E. apply Qnot_le_lt. intros Hle.
  apply Qle_bool_iff in Hle. congruence.
Qed.

(** What the ledger reads in the amount that ingestion has written. *)
Lemma format_amount_parse x : parseCurrency (format_amount x) = ledger_amount x.
Proof.
  unfold format_amount, num_gtb. destruct x as [|q| |]; cbn [num_ltb];
    try reflexivity.
  unfold ledger_amount. destruct (Qle_bool q 0) eqn:E; cbn [negb];
    [reflexivity|].
  apply format_round_trip, Qle_bool_false_lt, E.
Qed.

(** The amount that ingestion writes is a valid one, unless it is the
    positive infinity. *)
Lemma format_amount_valid x :
  isValid (validateCurrency (format_amount x)) = true <-> x <> PosInf.
Proof.
  unfold format_amount, num_gtb. destruct x as [|q| |]; cbn [num_ltb].
  - split; [discriminate | reflexivity].
  - split; [discriminate | intros _].
    destruct (Qle_bool q 0) eqn:E; cbn [negb]; [reflexivity|].
    destruct (format_round_trip q (Qle_bool_false_lt q E)) as [-> _].
    reflexivity.
  - split; [intros H; vm_compute in H; discriminate H | congruence].
  - split; [discriminate | reflexivity].
Qed.

Lemma calculate_from_ids uuid ts : forall k b0,
  map t_id (fst (calculate_from uuid k b0 ts)) = map uuid (seq k (length ts)).
Proof.
  induction ts as [|t r IH]; intros k b0; [reflexivity|].
  cbn [calculate_from].
  specialize (IH (S k) (num_add b0 (net_amount (r_credit t) (r_debit t)))).
  destruct (calculate_from uuid (S k) _ r) as [rows final].
  cbn [fst map length seq] in *. now rewrite IH.
Qed.

Lemma calculate_from_balances uuid ts : forall k b0,
  map t_balance (fst (calculate_from uuid k b0 ts))
  = running_sums b0 (map (fun t => net_amount (r_credit t) (r_debit t)) ts).
Proof.
  induction ts as [|t r IH]; intros k b0; [reflexivity|].
  cbn [calculate_from].
  specialize (IH (S k) (num_add b0 (net_amount (r_credit t) (r_debit t)))).
  destruct (calculate_from uuid (S k) _ r) as [rows final].
  cbn [fst map running_sums] in *. now rewrite IH.
Qed.

Lemma NoDup_map_eq {A B} (f : A -> B) l x y :
  NoDup (map f l) -> In x l -> In y l -> f x = f y -> x = y.
Proof.
  induction l as [|a l IH]; intros Hnd Hx Hy E; [destruct Hx|].
  cbn [map] in Hnd. apply NoDup_cons in Hnd as [Hnot Hnd].
  destruct Hx as [<-|Hx], Hy as [<-|Hy]; auto.
  - exfalso. apply Hnot. rewrite E. apply list_elem_of_In, in_map, Hy.
  - exfalso. apply Hnot. rewrite <- E. apply list_elem_of_In, in_map, Hx.
Qed.

Lemma initial_cnpj_errors_lookup rows id :
  initial_cnpj_errors rows !! id = None
  <-> forall t, In t rows -> t_id t = id ->
        isValid (validateCNPJ (t_cnpj t)) = true.
Proof.
  unfold initial_cnpj_errors.
  enough (H : forall m : gmap jsstring MessageError,
    fold_left (fun m t =>
                 let r := validateCNPJ (t_cnpj t) in
                 if isValid r then m
                 else <[t_id t := mkMessageError (message_of r)]> m) rows m
      !! id = None
    <-> m !! id = None
        /\ forall t, In t rows -> t_id t = id ->
             isValid (validateCNPJ (t_cnpj t)) = true).
  { rewrite H. rewrite lookup_empty. tauto. }
  induction rows as [|t r IH]; intros m.
  - cbn [fold_left]. split; [intros H; split; [exact H | intros ? []] | tauto].
  - cbn [fold_left]. rewrite IH. cbv zeta.
    destruct (isValid (validateCNPJ (t_cnpj t))) eqn:V.
    + split; intros [H1 H2]; (split; [exact H1|]).
      * intros t' [<-|Hin] E; [exact V | now apply H2].
      * intros t' Hin E. apply H2; [now right | exact E].
    + split.
      * intros [H1 H2]. destruct (decide (t_id t = id)) as [E|E].
        -- rewrite E, lookup_insert_eq in H1. discriminate.
        -- rewrite lookup_insert_ne in H1 by exact E. split; [exact H1|].
           intros t' [<-|Hin] E'; [contradiction | now apply H2].
      * intros [H1 H2]. destruct (decide (t_id t = id)) as [E|E].
        -- specialize (H2 t (or_introl eq_refl) E). congruence.
        -- rewrite lookup_insert_ne by exact E. split; [exact H1|].
           intros t' Hin E'. apply H2; [now right | exact E'].
Qed.

Lemma fold_insert_None {V} (l : list (jsstring * V)) :
  forall (m : gmap jsstring V) k,
  fold_left (fun m r => <[fst r := snd r]> m) l m !! k = None
  <-> m !! k = None /\ ~ In k (map fst l).
Proof.
  induction l as [|[k' v] l IH]; intros m k.
  - cbn [fold_left map]. split; [intros H; split; [exact H | intros []] | tauto].
  - cbn [fold_left map fst snd]. rewrite IH.
    destruct (decide (k' = k)) as [->|E].
    + rewrite lookup_insert_eq. split; [intros [H _]; discriminate H|].
      intros [_ H]. exfalso. apply H. now left.
    + rewrite lookup_insert_ne by exact E. split; intros [H1 H2]; (split; [exact H1|]).
      * intros [?|?]; [contradiction | now apply H2].
      * intros ?. apply H2. now right.
Qed.

Lemma fold_insert_Some {V} (l : list (jsstring * V)) :
  forall (m : gmap jsstring V) k v,
  fold_left (fun m r => <[fst r := snd r]> m) l m !! k = Some v ->
  m !! k = Some v \/ In (k, v) l.
Proof.
  induction l as [|[k' v'] l IH]; intros m k v H.
  - now left.
  - cbn [fold_left fst snd] in H. apply IH in H as [H|H]; [|right; now right].
    destruct (decide (k' = k)) as [->|E].
    + rewrite lookup_insert_eq in H. injection H as ->. right. now left.
    + rewrite lookup_insert_ne in H by exact E. now left.
Qed.

Lemma date_results_ids answers requests : forall k,
  map fst (imap (fun i p => date_result p (answers (k + i)%nat)) requests)
  = map p_id requests.
Proof.
  induction requests as [|p r IH]; intros k; [reflexivity|].
  cbn [imap map]. f_equal.
  rewrite <- (IH (S k)). f_equal. apply imap_ext. intros i x _.
  unfold compose. now rewrite Nat.add_succ_r.
Qed.

Lemma date_results_In answers requests id e :
  In (id, e) (imap (fun i p => date_result p (answers i)) requests) ->
  exists p answer, date_result p answer = (id, e).
Proof.
  intros H. apply list_elem_of_In, elem_of_lookup_imap in H as (i & p & -> & _).
  eauto.
Qed.

Lemma date_requests_ids rows id :
  In id (map p_id (date_requests rows))
  <-> exists t, In t rows /\ t_id t = id
                /\ isValid (validateDate (t_date t)) = false.
Proof.
  unfold date_requests. rewrite in_map_iff. split.
  - intros (p & Hid & Hp). apply in_flat_map in Hp as (t & Ht & Hp).
    cbv zeta in Hp. destruct (isValid (validateDate (t_date t))) eqn:V; [destruct Hp|].
    destruct Hp as [<-|[]]. exists t. auto.
  - intros (t & Ht & Hid & V).
    exists (mkPending (t_id t) (t_date t) (message_of (validateDate (t_date t)))).
    split; [exact Hid|]. apply in_flat_map. exists t. split; [exact Ht|].
    cbv zeta. rewrite V. now left.
Qed.

Lemma initial_date_errors_lookup rows answers id :
  initial_date_errors (date_requests rows) answers !! id = None
  <-> forall t, In t rows -> t_id t = id ->
        isValid (validateDate (t_date t)) = true.
Proof.
  unfold initial_date_errors. rewrite fold_insert_None, lookup_empty.
  pose proof (date_results_ids answers (date_requests rows) 0) as Hids.
  cbn [Nat.add] in Hids. rewrite Hids, date_requests_ids.
  split.
  - intros [_ H] t Ht Hid.
    destruct (isValid (validateDate (t_date t))) eqn:V; [reflexivity|].
    exfalso. apply H. eauto.
  - intros H. split; [reflexivity|]. intros (t & Ht & Hid & V).
    rewrite (H t Ht Hid) in V. discriminate.
Qed.

Lemma initial_date_errors_valid requests answers id e suggestion :
  initial_date_errors requests answers !! id = Some e ->
  e_suggestion e = Some suggestion ->
  isValid (validateDate suggestion) = true.
Proof.
  unfold initial_date_errors. intros H Hs.
  apply fold_insert_Some in H as [H|H]; [rewrite lookup_empty in H; discriminate|].
  apply date_results_In in H as (p & answer & H).
  unfold date_result in H. injection H as _ <-. cbn [e_suggestion] in Hs.
  destruct (negb _ && isValid _) eqn:C; [|discriminate].
  injection Hs as <-. now apply andb_true_iff in C as [_ C].
Qed.

Lemma formatted_net x :
  net_amount (r_credit (with_formatted_currency x))
    (r_debit (with_formatted_currency x))
  = num_sub (ledger_amount (x_credit x)) (ledger_amount (x_debit x)).
Proof.
  rewrite net_amount_parse. cbn [with_formatted_currency r_credit r_debit].
  now rewrite !format_amount_parse.
Qed.

(** The rows of the ledger are the extracted transactions, one for one. *)
Lemma ingested_rows uuid xs :
  map raw_of (fst (calculateBalances uuid (map with_formatted_currency xs)))
  = map with_formatted_currency xs.
Proof. apply calculate_from_rows. Qed.

Lemma ingested_row_source uuid xs t :
  In t (fst (calculateBalances uuid (map with_formatted_currency xs))) ->
  exists x, In x xs /\ raw_of t = with_formatted_currency x.
Proof.
  intros Ht. apply (in_map raw_of) in Ht. rewrite ingested_rows in Ht.
  apply in_map_iff in Ht as (x & E & Hx). eauto.
Qed.

Lemma ingested_row_target uuid xs x :
  In x xs ->
  exists t,
    In t (fst (calculateBalances uuid (map with_formatted_currency xs)))
    /\ raw_of t = with_formatted_currency x.
Proof.
  intros Hx. apply (in_map with_formatted_currency) in Hx.
  rewrite <- (ingested_rows uuid xs) in Hx.
  apply in_map_iff in Hx as (t & E & Ht). eauto.
Qed.

Lemma raw_of_amounts t x :
  raw_of t = with_formatted_currency x ->
  t_debit t = format_amount (x_debit x)
  /\ t_credit t = format_amount (x_credit x).
Proof.
  intros E. split.
  - exact (f_equal r_debit E).
  - exact (f_equal r_credit E).
Qed.

Lemma ingestion_tables uuid answers response st :
  let st' := handleFileSelect uuid answers response st in
  NoDup (map t_id (transactions st')) ->
  cnpj_errors_exact st' /\ date_errors_exact st' /\ suggestions_valid st'.
Proof.
  unfold handleFileSelect. destruct response as [r|]; cbv zeta.
  - unfold handleProcessFile. cbv beta iota zeta.
    set (txs := fst (calculateBalances uuid _)). cbn [transactions].
    intros Hnd.
    assert (Huniq : forall (P : Transaction -> Prop) t, In t txs ->
              (forall t', In t' txs -> t_id t' = t_id t -> P t') <-> P t).
    { intros P t Ht. split; [intros H; now apply H|].
      intros HP t' Ht' E.
      now rewrite (NoDup_map_eq t_id txs t' t Hnd Ht' Ht E). }
    split; [|split].
    + intros t Ht. cbn [cnpjErrors transactions] in *.
      rewrite initial_cnpj_errors_lookup.
      apply (Huniq (fun t => isValid (validateCNPJ (t_cnpj t)) = true) t Ht).
    + intros t Ht. cbn [dateErrors transactions] in *.
      rewrite initial_date_errors_lookup.
      apply (Huniq (fun t => isValid (validateDate (t_date t)) = true) t Ht).
    + intros id e s. cbn [dateErrors]. apply initial_date_errors_valid.
  - cbn [handleProcessFile transactions]. intros _.
    split; [intros t [] | split; [intros t []|]].
    intros id e s H. cbn [dateErrors] in H. rewrite lookup_empty in H.
    discriminate.
Qed.

(** Ingestion records no currency error: its empty table is exact when
    no extracted amount is the positive infinity, and only then. *)
Lemma ingestion_currency_exact uuid answers r st :
  currency_errors_exact (handleFileSelect uuid answers (Some r) st)
  <-> finite_amounts r.
Proof.
  unfold finite_amounts, handleFileSelect. unfold handleProcessFile. cbv beta iota zeta.
  unfold currency_errors_exact. cbn [transactions currencyErrors].
  rewrite List.Forall_forall. split.
  - intros H x Hx.
    destruct (ingested_row_target uuid _ x Hx) as (t & Ht & E).
    apply raw_of_amounts in E as [Ed Ec].
    destruct (H t Ht) as [Hd Hc]. rewrite lookup_empty in Hd, Hc.
    rewrite Ed in Hd. rewrite Ec in Hc.
    split; apply format_amount_valid; [apply Hd | apply Hc]; reflexivity.
  - intros H t Ht.
    destruct (ingested_row_source uuid _ t Ht) as (x & Hx & E).
    apply raw_of_amounts in E as [-> ->].
    destruct (H x Hx) as [Hd Hc].
    apply format_amount_valid in Hd, Hc.
    rewrite !lookup_empty, Hd, Hc. tauto.
Qed.

(** X10. [handleProcessFile] yields a ledger in the order of the
    extraction, with the identifiers drawn in that order, whose balances
    are the running sums, in the arithmetic of doubles, of the credits
    minus the debits; an amount counts only when it is positive and
    finite, and then as the double nearest to the hundredths that it is
    printed with.  The statement balance is the one extracted.  In the
    example the credit 100.005 counts as 100.01. *)
Theorem ingestion_ledger uuid answers r st :
  let st' := handleProcessFile uuid answers (Some r) st in
  map t_balance (transactions st')
  = running_sums (Num 0)
      (map (fun x => num_sub (ledger_amount (x_credit x))
                       (ledger_amount (x_debit x)))
           (g_transactions r))
  /\ map t_id (transactions st')
     = map uuid (seq 0 (length (g_transactions r)))
  /\ statementBalance st' = g_finalBalance r
  /\ map ledger_amount [fl (100005 # 1000); PosInf; NaN; fl (- (5 # 1))]
     = [fl (10001 # 100); Num 0; Num 0; Num 0].
Proof.
  cbv zeta. unfold handleProcessFile. cbv beta iota zeta.
  cbn [transactions statementBalance]. unfold calculateBalances.
  rewrite calculate_from_balances, calculate_from_ids, length_map, map_map.
  split; [|split; [reflexivity | split; [reflexivity|]]].
  - f_equal. apply map_ext. intros x. apply formatted_net.
  - vm_compute. reflexivity.
Qed.

(** ** Suggestions kept in the table of date errors *)

Lemma edit_date_errors u f st id e :
  dateErrors (fst (handleDataChange u f st)) !! id = Some e ->
  dateErrors st !! id = Some e.
Proof.
  destruct f; cbn [handleDataChange fst dateErrors]; try tauto.
  intros H. apply lookup_delete_Some in H. tauto.
Qed.

Lemma step_suggestions_valid s e :
  suggestions_valid (app s) -> suggestions_valid (app (step s e)).
Proof.
  intros Hv. destruct e as [u f | k answer]; cbn [step].
  - destruct (handleDataChange u f (app s)) as [st req] eqn:E. cbn [app].
    intros id e sug H. apply (Hv id e sug).
    apply (edit_date_errors u f). now rewrite E.
  - destruct (nth_error (outstanding s) k) as [p|]; [|exact Hv].
    cbn [app]. intros id e sug H Hs.
    unfold resume_date_suggestion in H. cbn [dateErrors] in H.
    destruct (decide (p_id p = id)) as [<-|Hne].
    + rewrite lookup_insert_eq in H. injection H as <-.
      cbn [e_suggestion] in Hs.
      destruct (negb _ && isValid _) eqn:C; [|discriminate].
      injection Hs as <-. now apply andb_true_iff in C as [_ C].
    + rewrite lookup_insert_ne in H by exact Hne. exact (Hv id e sug H Hs).
Qed.

Lemma table_edit_suggestions_valid filters id field value s :
  suggestions_valid (app s) ->
  suggestions_valid (app (table_edit filters id field value s)).
Proof.
  intros Hv. unfold table_edit.
  destruct (handleFieldChange _ _ _ _) as [[u f]|]; [|exact Hv].
  now apply step_suggestions_valid.
Qed.

Lemma find_by_id_complete id l :
  In id (map t_id l) ->
  exists t, List.find (fun t => jsstring_eqb (t_id t) id) l = Some t.
Proof.
  intros H. apply in_map_iff in H as (t & Hid & Ht).
  destruct (List.find _ l) as [t'|] eqn:F; [eauto|].
  apply (find_none _ _ F) in Ht. cbv beta in Ht.
  assert (jsstring_eqb (t_id t) id = true) by now apply jsstring_eqb_spec.
  congruence.
Qed.

(** X13. When every stored suggestion is a valid date, a click on the
    suggestion shown for a visible row sets the date of the row to the
    suggestion, which is valid, removes the entry of the row from the
    table of date errors and issues no request; no row is added or
    removed. *)
Theorem accept_suggestion_clears filters id s e suggestion :
  suggestions_valid (app s) ->
  dateErrors (app s) !! id = Some e ->
  e_suggestion e = Some suggestion ->
  In id (map t_id (filteredTransactions (transactions (app s)) filters)) ->
  let s' := accept_suggestion filters id s in
  dateErrors (app s') !! id = None
  /\ outstanding s' = outstanding s
  /\ (forall t, In t (transactions (app s')) -> t_id t = id ->
        t_date t = suggestion
        /\ isValid (validateDate (t_date t)) = true)
  /\ map t_id (transactions (app s')) = map t_id (transactions (app s)).
Proof.
  intros Hv He Hs Hvis. unfold accept_suggestion. rewrite He, Hs.
  pose proof (Hv id e suggestion He Hs) as Hvalid.
  assert (is_empty suggestion = false) as ->.
  { destruct suggestion; [discriminate Hvalid | reflexivity]. }
  unfold table_edit, handleFieldChange.
  destruct (find_by_id_complete _ _ Hvis) as [found F]. rewrite F.
  apply find_by_id_spec in F as [_ Hid].
  cbn [step set_field handleDataChange t_id t_date].
  rewrite Hvalid. cbn [app outstanding dateErrors transactions].
  rewrite app_nil_r, Hid, lookup_delete_eq.
  split; [reflexivity | split; [reflexivity | split]].
  - intros t Ht Htid. apply update_In in Ht as (t0 & b & Ht0 & ->).
    cbn [t_id] in *.
    destruct (jsstring_eqb (t_id t0) id) eqn:E.
    + cbn [with_balance t_date]. auto.
    + cbn [with_balance t_id] in Htid. apply jsstring_eqb_spec in Htid. congruence.
  - unfold update_transactions. now rewrite rebalance_ids, replaced_ids.
Qed.

(** ** Sessions *)

Lemma example_ingested_ids :
  NoDup (map t_id (transactions example_ingested)).
Proof.
  change (map t_id (transactions example_ingested))
    with [str "0"; str "1"; str "2"].
  repeat (apply NoDup_cons; split;
          [rewrite ?elem_of_cons, elem_of_nil; intros H;
           repeat (destruct H as [H|H]; [discriminate H|]); exact H|]).
  apply NoDup_nil. exact I.
Qed.

Lemma example_finite_amounts : finite_amounts example_response.
Proof.
  repeat constructor; intros H; vm_compute in H; discriminate H.
Qed.

Lemma example_ingested_tables :
  cnpj_errors_exact example_ingested
  /\ currency_errors_exact example_ingested
  /\ date_errors_exact example_ingested
  /\ suggestions_valid example_ingested.
Proof.
  destruct (ingestion_tables digit_uuid example_answers
              (Some example_response) empty_state example_ingested_ids)
    as (Hc & Hd & Hv).
  split; [exact Hc | split; [|split; [exact Hd | exact Hv]]].
  apply ingestion_currency_exact, example_finite_amounts.
Qed.

(** X11. After a file is selected and processed, with identifiers
    that are pairwise distinct, the CNPJ and date error tables have an
    entry exactly for the rows whose CNPJ and date are invalid, and
    every suggestion stored is a valid date.  The table of currency
    errors is empty; it has an entry exactly for the invalid debits and
    credits when no extracted amount is the positive infinity, and only
    then: the infinity is written as its sign, which is not a valid
    amount, and no error is recorded for it.  When the extraction
    fails, the ledger and the tables are empty and no balance is
    declared. *)
Theorem ingestion_error_tables uuid answers response st :
  let st' := handleFileSelect uuid answers response st in
  NoDup (map t_id (transactions st')) ->
  cnpj_errors_exact st'
  /\ date_errors_exact st'
  /\ suggestions_valid st'
  /\ currencyErrors st' = ∅
  /\ (currency_errors_exact st'
      <-> forall r, response = Some r -> finite_amounts r)
  /\ (response = None ->
      transactions st' = [] /\ statementBalance st' = None
      /\ dateErrors st' = ∅ /\ cnpjErrors st' = ∅).
Proof.
  intros st' Hnd.
  destruct (ingestion_tables uuid answers response st Hnd) as (Hc & Hd & Hv).
  split; [exact Hc|]. split; [exact Hd|]. split; [exact Hv|].
  split; [destruct response; reflexivity|]. split.
  - destruct response as [r|].
    + unfold st'. rewrite ingestion_currency_exact. split.
      * intros H r' [= <-]. exact H.
      * intros H. now apply H.
    + split; [discriminate|]. intros _ t [].
  - intros ->. repeat split.
Qed.

Lemma ingestion_error_tables_witness :
  let st' := handleFileSelect digit_uuid example_answers
               (Some example_response) empty_state in
  cnpj_errors_exact st'
  /\ date_errors_exact st'
  /\ suggestions_valid st'
  /\ currencyErrors st' = ∅
  /\ (currency_errors_exact st'
      <-> forall r, Some example_response = Some r -> finite_amounts r)
  /\ (Some example_response = None ->
      transactions st' = [] /\ statementBalance st' = None
      /\ dateErrors st' = ∅ /\ cnpjErrors st' = ∅).
Proof.
  exact (ingestion_error_tables digit_uuid example_answers
           (Some example_response) empty_state example_ingested_ids).
Defined.

Lemma act_keeps_tables s a :
  cnpj_errors_exact (app s) /\ currency_errors_exact (app s)
  /\ suggestions_valid (app s) ->
  cnpj_errors_exact (app (act s a)) /\ currency_errors_exact (app (act s a))
  /\ suggestions_valid (app (act s a)).
Proof.
  intros (Hc & Hm & Hv).
  assert (Hedit : forall filters id field value,
            cnpj_errors_exact (app (table_edit filters id field value s))
            /\ currency_errors_exact (app (table_edit filters id field value s))
            /\ suggestions_valid (app (table_edit filters id field value s))).
  { intros. destruct (table_edit_keeps_error_tables filters id field value s Hc Hm).
    auto using table_edit_suggestions_valid. }
  destruct a as [filters id field value | filters id | k answer]; cbn [act].
  - apply Hedit.
  - unfold accept_suggestion.
    destruct (dateErrors (app s) !! id) as [e|]; [|auto].
    destruct (e_suggestion e) as [sug|]; [|auto].
    destruct (is_empty sug); [auto | apply Hedit].
  - split; [|split; [|now apply step_suggestions_valid]];
      cbn [step]; (destruct (nth_error (outstanding s) k); [|assumption]);
      assumption.
Qed.

Lemma act_keeps_consistent s a :
  balances_consistent (transactions (app s)) ->
  balances_consistent (transactions (app (act s a))).
Proof.
  intros Hc.
  assert (Hedit : forall filters id field value,
            balances_consistent
              (transactions (app (table_edit filters id field value s)))).
  { intros. unfold table_edit.
    destruct (handleFieldChange _ _ _ _) as [[u f]|]; [|exact Hc].
    cbn [step]. pose proof (handleDataChange_transactions u f (app s)) as H.
    destruct (handleDataChange u f (app s)) as [st req]. cbn [app fst] in *.
    rewrite H. apply consistent_from_zero, rebalance_consistent. }
  destruct a as [filters id field value | filters id | k answer]; cbn [act].
  - apply Hedit.
  - unfold accept_suggestion.
    destruct (dateErrors (app s) !! id) as [e|]; [|auto].
    destruct (e_suggestion e) as [sug|]; [|auto].
    destruct (is_empty sug); [auto | apply Hedit].
  - cbn [step]. destruct (nth_error (outstanding s) k); exact Hc.
Qed.

Lemma ingested_consistent uuid answers response st :
  balances_consistent
    (transactions (handleFileSelect uuid answers response st)).
Proof.
  unfold handleFileSelect. destruct response as [r|].
  - unfold handleProcessFile. cbv beta iota zeta. cbn [transactions].
    apply consistent_from_zero, calculate_from_consistent.
  - cbn [handleProcessFile transactions].
    intros i t H. destruct i; discriminate H.
Qed.

Lemma example_ingested_consistent :
  balances_consistent (transactions example_ingested).
Proof. apply ingested_consistent. Qed.

Lemma act_keeps_ids s a :
  map t_id (transactions (app (act s a))) = map t_id (transactions (app s)).
Proof.
  assert (Hstep : forall u f,
            map t_id (transactions (app (step s (Edit u f))))
            = map t_id (transactions (app s))).
  { intros u f. cbn [step].
    pose proof (handleDataChange_transactions u f (app s)) as H.
    destruct (handleDataChange u f (app s)) as [st req]. cbn [app fst] in *.
    rewrite H. unfold update_transactions. now rewrite rebalance_ids, replaced_ids. }
  assert (Hedit : forall filters id field value,
            map t_id (transactions (app (table_edit filters id field value s)))
            = map t_id (transactions (app s))).
  { intros. unfold table_edit.
    destruct (handleFieldChange _ _ _ _) as [[u f]|]; [apply Hstep | reflexivity]. }
  destruct a as [filters id field value | filters id | k answer]; cbn [act].
  - apply Hedit.
  - unfold accept_suggestion.
    destruct (dateErrors (app s) !! id) as [e|]; [|auto].
    destruct (e_suggestion e) as [sug|]; [|auto].
    destruct (is_empty sug); [auto | apply Hedit].
  - cbn [step]. destruct (nth_error (outstanding s) k); reflexivity.
Qed.

(** X12. A session keeps what ingestion establishes.  From any state
    in which the CNPJ and currency error tables are exact, every stored
    suggestion is a valid date and the balances obey the recurrence,
    and whatever date requests are outstanding, any sequence of edits
    made in the table, accepted suggestions and date suggestions that
    settle leads to a state in which all of this holds again, with the
    same rows in the same order. *)
Theorem session_error_tables s actions :
  cnpj_errors_exact (app s) ->
  currency_errors_exact (app s) ->
  suggestions_valid (app s) ->
  balances_consistent (transactions (app s)) ->
  let s' := session s actions in
  cnpj_errors_exact (app s') /\ currency_errors_exact (app s')
  /\ suggestions_valid (app s')
  /\ balances_consistent (transactions (app s'))
  /\ map t_id (transactions (app s')) = map t_id (transactions (app s)).
Proof.
  unfold session. revert s.
  induction actions as [|a l IH]; intros s Hc Hm Hv Hb; cbn [fold_left].
  - auto.
  - destruct (act_keeps_tables s a) as (Hc' & Hm' & Hv'); [auto|].
    pose proof (act_keeps_consistent s a Hb) as Hb'.
    destruct (IH (act s a) Hc' Hm' Hv' Hb') as (? & ? & ? & ? & Hids).
    cbv zeta. rewrite Hids, act_keeps_ids. auto.
Qed.

Lemma session_error_tables_witness :
  let s := session (mkSystem example_ingested []) example_actions in
  cnpj_errors_exact (app s) /\ currency_errors_exact (app s)
  /\ suggestions_valid (app s)
  /\ balances_consistent (transactions (app s))
  /\ map t_id (transactions (app s)) = map t_id (transactions example_ingested).
Proof.
  apply (session_error_tables (mkSystem example_ingested []) example_actions).
  - apply example_ingested_tables.
  - apply example_ingested_tables.
  - apply example_ingested_tables.
  - exact example_ingested_consistent.
Defined.

Lemma accept_suggestion_clears_witness :
  let s' := accept_suggestion initialFilters (str "1")
              (mkSystem example_ingested []) in
  dateErrors (app s') !! str "1" = None
  /\ outstanding s' = []
  /\ (forall t, In t (transactions (app s')) -> t_id t = str "1" ->
        t_date t = str "2024-02-29"
        /\ isValid (validateDate (t_date t)) = true)
  /\ map t_id (transactions (app s')) = map t_id (transactions example_ingested).
Proof.
  apply (accept_suggestion_clears initialFilters (str "1")
           (mkSystem example_ingested [])
           (mkDateError "Data inválida (ex: dia 31 em um mês com 30 dias)."
              (Some (str "2024-02-29")))).
  - apply example_ingested_tables.
  - reflexivity.
  - reflexivity.
  - right. left. reflexivity.
Defined.

(** ** Category suggestions *)

Lemma suggestNewCategory_allowed categories answer description current :
  suggestNewCategory categories answer description current = current
  \/ In (suggestNewCategory categories answer description current) categories.
Proof.
  unfold suggestNewCategory.
  destruct (is_empty (trim description)); [now left|].
  destruct answer as [text|]; [|now left].
  destruct (existsb _ categories) eqn:E; [|now left].
  right. apply existsb_exists in E as (c & Hc & E).
  apply jsstring_eqb_spec in E. now rewrite E.
Qed.

Lemma step_edit_ids s u f :
  map t_id (transactions (app (step s (Edit u f))))
  = map t_id (transactions (app s)).
Proof.
  cbn [step]. pose proof (handleDataChange_transactions u f (app s)) as H.
  destruct (handleDataChange u f (app s)) as [st req]. cbn [app fst] in *.
  rewrite H. unfold update_transactions. now rewrite rebalance_ids, replaced_ids.
Qed.

Lemma desk_step_ids categories d e :
  map t_id (transactions (app (desk_system (desk_step categories d e))))
  = map t_id (transactions (app (desk_system d))).
Proof.
  destruct e as [a | id | k answer]; cbn [desk_step].
  - cbn [desk_system]. apply act_keeps_ids.
  - unfold handleSuggestCategory. destruct (List.find _ _); [|reflexivity].
    destruct (busy d); reflexivity.
  - destruct (nth_error (categorizing d) k) as [t|]; [|reflexivity].
    cbn [desk_system]. unfold resume_category.
    destruct (negb _); [apply step_edit_ids | reflexivity].
Qed.

Lemma desk_step_one_in_flight categories d e :
  Forall (fun id => id <> []) (map t_id (transactions (app (desk_system d)))) ->
  one_in_flight d -> one_in_flight (desk_step categories d e).
Proof.
  intros Hids Hinv. destruct e as [a | id | k answer]; cbn [desk_step].
  - exact Hinv.
  - unfold handleSuggestCategory.
    destruct (List.find _ _) as [t|] eqn:F; [|exact Hinv].
    destruct (busy d) eqn:B; [exact Hinv|].
    destruct Hinv as [[Hc _] | (t' & _ & B')]; [|congruence].
    right. exists t. rewrite Hc. split; [reflexivity|].
    unfold busy. cbn [categorizingId].
    apply find_by_id_spec in F as [Hin <-].
    rewrite List.Forall_forall in Hids.
    specialize (Hids (t_id t) (in_map t_id _ _ Hin)).
    destruct (t_id t); [congruence | reflexivity].
  - destruct (nth_error (categorizing d) k) as [t|] eqn:N; [|exact Hinv].
    left. unfold busy. cbn [categorizingId categorizing]. split; [|reflexivity].
    destruct Hinv as [[Hc _] | (t' & Hc & _)]; rewrite Hc in *.
    + destruct k; discriminate N.
    + destruct k as [|k]; [reflexivity|]. destruct k; discriminate N.
Qed.

(** X15. When no identifier of the ledger is the empty text, at most
    one request for a category is in flight at any time, whatever the
    user does: [handleSuggestCategory] returns at once while
    [categorizingId] is set. *)
Theorem one_category_request_at_a_time categories d es :
  Forall (fun id => id <> []) (map t_id (transactions (app (desk_system d)))) ->
  categorizingId d = None -> categorizing d = [] ->
  (length (categorizing (desk_run categories d es)) <= 1)%nat.
Proof.
  intros Hids Hc Hq.
  assert (Hinv : one_in_flight d).
  { left. unfold busy. now rewrite Hc. }
  clear Hc Hq. unfold desk_run. revert d Hids Hinv.
  induction es as [|e es IH]; intros d Hids Hinv; cbn [fold_left].
  - destruct Hinv as [[-> _] | (t & -> & _)]; cbn; lia.
  - apply IH.
    + now rewrite desk_step_ids.
    + now apply desk_step_one_in_flight.
Qed.

(** X16. When a request for a category settles, [categorizingId] is
    cleared; the category it yields is the one of the row at the time of
    the request or a member of the list of categories; if it is the
    same, nothing changes; if it differs, the row is replaced by the row
    as it was at the time of the request with the new category, so that
    every other field goes back to its value at that time, while the
    three error tables and the outstanding date requests are left as
    they are. *)
Theorem category_settled categories d k answer snapshot :
  nth_error (categorizing d) k = Some snapshot ->
  let newCategory :=
    suggestNewCategory categories answer (t_description snapshot)
      (t_category snapshot) in
  let d' := desk_step categories d (CategorySettled k answer) in
  let st := app (desk_system d) in
  let st' := app (desk_system d') in
  categorizingId d' = None
  /\ (newCategory = t_category snapshot \/ In newCategory categories)
  /\ (newCategory = t_category snapshot -> desk_system d' = desk_system d)
  /\ (forall t, In t (transactions st') -> t_id t = t_id snapshot ->
        newCategory <> t_category snapshot ->
        raw_of t = raw_of (set_field snapshot category newCategory))
  /\ dateErrors st' = dateErrors st
  /\ cnpjErrors st' = cnpjErrors st
  /\ currencyErrors st' = currencyErrors st
  /\ outstanding (desk_system d') = outstanding (desk_system d).
Proof.
  intros Hk newCategory. cbn [desk_step]. rewrite Hk.
  cbn [desk_system categorizingId]. unfold resume_category.
  fold newCategory.
  split; [reflexivity|]. split; [apply suggestNewCategory_allowed|].
  destruct (jsstring_eqb newCategory (t_category snapshot)) eqn:E; cbn [negb].
  - apply jsstring_eqb_spec in E.
    repeat split; try reflexivity. intros t _ _ H. contradiction.
  - assert (Hne : newCategory <> t_category snapshot).
    { intros H. apply jsstring_eqb_spec in H. congruence. }
    cbn [step handleDataChange app outstanding dateErrors cnpjErrors
         currencyErrors transactions].
    rewrite app_nil_r.
    repeat split; try reflexivity; try contradiction.
    intros t Ht Hid _. apply update_In in Ht as (t0 & b & Ht0 & ->).
    cbn [set_field t_id] in *.
    destruct (jsstring_eqb (t_id t0) (t_id snapshot)) eqn:E0.
    + reflexivity.
    + cbn [with_balance t_id] in Hid. apply jsstring_eqb_spec in Hid. congruence.
Qed.

Lemma one_category_request_at_a_time_witness :
  (length (categorizing (desk_run example_categories example_desk
                           example_desk_events)) <= 1)%nat.
Proof.
  apply one_category_request_at_a_time; [|reflexivity|reflexivity].
  change (map t_id (transactions (app (desk_system example_desk))))
    with [str "0"; str "1"; str "2"].
  repeat constructor; discriminate.
Defined.

Lemma category_settled_witness :
  let d := desk_run example_categories example_desk example_desk_events in
  let d' := desk_step example_categories d
              (CategorySettled 0 (Some (str "Impostos"))) in
  categorizingId d' = None
  /\ map t_category (transactions (app (desk_system d')))
     = [uncategorized; str "Impostos"; uncategorized]
  /\ map t_cnpj (transactions (app (desk_system d')))
     = [str "11222333000181"; str "123"; []]
  /\ cnpjErrors (app (desk_system d')) !! str "1" = None.
Proof.
  intros d d'.
  destruct (category_settled example_categories d 0 (Some (str "Impostos"))
              (nth 1 (transactions example_ingested) example_edit) eq_refl)
    as (H1 & _ & _ & _ & _ & H2 & _).
  split; [exact H1|]. split; [reflexivity|]. split; [reflexivity|].
  fold d' in H2. rewrite H2. reflexivity.
Defined.

(** ** The header form *)

Lemma no_keys_iff (m : gmap jsstring string) :
  (length (map fst (map_to_list m)) =? 0)%nat = true <-> m = ∅.
Proof.
  rewrite Nat.eqb_eq, length_map. split.
  - intros H. apply map_to_list_empty_iff. now apply nil_length_inv.
  - intros ->. now rewrite map_to_list_empty.
Qed.

Lemma add_error_iff (b : bool) (k : jsstring) (v : string)
    (m : gmap jsstring string) :
  (if b then <[k := v]> m else m) = ∅ <-> b = false /\ m = ∅.
Proof.
  destruct b.
  - split; [intros H; now apply insert_non_empty in H | intros [H _]; discriminate H].
  - tauto.
Qed.

(** X17. [validate] of the header form accepts exactly when the six
    fields are filled, the CNPJ is valid and the end of the period is
    not before its start. *)
Theorem validate_accepts (info : CompanyInfo) :
  snd (validate info) = true
  <-> is_empty (ci_companyName info) = false
      /\ is_empty (ci_bankName info) = false
      /\ is_empty (ci_user info) = false
      /\ is_empty (ci_periodStart info) = false
      /\ is_empty (ci_periodEnd info) = false
      /\ is_empty (ci_cnpj info) = false
      /\ isValid (validateCNPJ (ci_cnpj info)) = true
      /\ jsstring_ltb (ci_periodEnd info) (ci_periodStart info) = false.
Proof.
  unfold validate. cbn [snd]. rewrite no_keys_iff.
  rewrite add_error_iff.
  assert (Hcnpj : forall m : gmap jsstring string,
    (if is_empty (ci_cnpj info)
     then <[str "cnpj" := "CNPJ é obrigatório."%string]> m
     else if negb (isValid (validateCNPJ (ci_cnpj info)))
          then <[str "cnpj" := message_of (validateCNPJ (ci_cnpj info))]> m
          else m) = ∅
    <-> is_empty (ci_cnpj info) = false
        /\ isValid (validateCNPJ (ci_cnpj info)) = true /\ m = ∅).
  { intros m. destruct (is_empty (ci_cnpj info)).
    - split; [intros H; now apply insert_non_empty in H | intros [H _]; discriminate H].
    - rewrite add_error_iff, negb_false_iff. tauto. }
  cbv zeta. rewrite Hcnpj, !add_error_iff.
  destruct (is_empty (ci_periodStart info)), (is_empty (ci_periodEnd info));
    cbn [negb andb]; intuition congruence.
Qed.

(** ** Dates as shown *)

(** X18. A date of the form YYYY-MM-DD is shown as DD/MM/YYYY. *)
Theorem date_as_shown (s : jsstring) :
  date_regex s = true ->
  exists y m d,
    s = y ++ "-"%char :: m ++ "-"%char :: d
    /\ length y = 4%nat /\ length m = 2%nat /\ length d = 2%nat
    /\ formatDateForDisplay s = d ++ "/"%char :: m ++ "/"%char :: y.
Proof.
  intros H. apply date_regex_shape in H
    as (y1 & y2 & y3 & y4 & m1 & m2 & d1 & d2 & Hd & ->).
  exists [y1; y2; y3; y4], [m1; m2], [d1; d2].
  repeat split. unfold formatDateForDisplay.
  change (is_empty _) with false. cbv iota.
  rewrite (split_date y1 y2 y3 y4 m1 m2 d1 d2 Hd). reflexivity.
Qed.

Lemma date_as_shown_witness :
  exists y m d,
    str "2024-02-29" = y ++ "-"%char :: m ++ "-"%char :: d
    /\ length y = 4%nat /\ length m = 2%nat /\ length d = 2%nat
    /\ formatDateForDisplay (str "2024-02-29")
       = d ++ "/"%char :: m ++ "/"%char :: y.
Proof. apply date_as_shown. reflexivity. Defined.

(** ** The window of rows *)

Lemma floor_rows (s : Q) :
  (inject_Z (Qfloor (s / inject_Z ROW_HEIGHT)) * 60 <= s)%Q
  /\ (s < inject_Z (Qfloor (s / inject_Z ROW_HEIGHT) + 1) * 60)%Q.
Proof.
  pose proof (Qfloor_le (s / inject_Z ROW_HEIGHT)) as H1.
  pose proof (Qlt_floor (s / inject_Z ROW_HEIGHT)) as H2.
  set (f := Qfloor (s / inject_Z ROW_HEIGHT)) in *.
  unfold ROW_HEIGHT in H1, H2. change (inject_Z 60) with 60%Q in H1, H2.
  clearbody f. rewrite inject_Z_plus in *. change (inject_Z 1) with 1%Q in *.
  assert (E : (s == s / 60 * 60)%Q) by field.
  set (x := (s / 60)%Q) in *. clearbody x.
  split; lra.
Qed.

Lemma ceiling_rows (s : Q) :
  (s + 600
   <= inject_Z (Qceiling ((s + inject_Z VISIBLE_HEIGHT) / inject_Z ROW_HEIGHT)) * 60)%Q
  /\ (inject_Z (Qceiling ((s + inject_Z VISIBLE_HEIGHT) / inject_Z ROW_HEIGHT) - 1) * 60
      < s + 600)%Q.
Proof.
  pose proof (Qle_ceiling ((s + inject_Z VISIBLE_HEIGHT) / inject_Z ROW_HEIGHT)) as H1.
  pose proof (Qceiling_lt ((s + inject_Z VISIBLE_HEIGHT) / inject_Z ROW_HEIGHT)) as H2.
  set (c := Qceiling _) in *.
  unfold ROW_HEIGHT, VISIBLE_HEIGHT in H1, H2.
  change (inject_Z 60) with 60%Q in H1, H2.
  change (inject_Z 600) with 600%Q in H1, H2.
  clearbody c. unfold Z.sub in *. rewrite inject_Z_plus in *.
  change (inject_Z (- (1))) with (-1)%Q in *.
  assert (E : (s + 600 == (s + 600) / 60 * 60)%Q) by field.
  set (x := ((s + 600) / 60)%Q) in *. clearbody x.
  split; lra.
Qed.

(** The two indices, as integers: [60 f <= s < 60 (f + 1)] and
    [60 (c - 1) < s + 600 <= 60 c]. *)
Lemma window_indices (s : Q) :
  (0 <= s)%Q ->
  let f := Qfloor (s / inject_Z ROW_HEIGHT) in
  let c := Qceiling ((s + inject_Z VISIBLE_HEIGHT) / inject_Z ROW_HEIGHT) in
  0 <= f /\ f + 10 <= c <= f + 11.
Proof.
  intros Hs f c.
  destruct (floor_rows s) as [F1 F2]. destruct (ceiling_rows s) as [C1 C2].
  fold f in F1, F2. fold c in C1, C2. clearbody f c.
  assert (A : -1 < f).
  { rewrite Zlt_Qlt. rewrite inject_Z_plus in F2.
    change (inject_Z 1) with 1%Q in F2. change (inject_Z (-1)) with (-1)%Q. lra. }
  assert (B : f + 10 <= c).
  { rewrite Zle_Qle. rewrite inject_Z_plus. change (inject_Z 10) with 10%Q. lra. }
  assert (C : c < f + 12).
  { rewrite Zlt_Qlt. unfold Z.sub in C2. rewrite inject_Z_plus in *.
    change (inject_Z (- (1))) with (-1)%Q in C2.
    change (inject_Z 1) with 1%Q in F2. change (inject_Z 12) with 12%Q. lra. }
  lia.
Qed.

Lemma slice_in_range {A} (a b : Z) (l : list A) :
  0 <= a <= b -> b <= Z.of_nat (length l) ->
  slice a b l = firstn (Z.to_nat (b - a)) (skipn (Z.to_nat a) l)
  /\ Z.of_nat (length (slice a b l)) = b - a.
Proof.
  intros Ha Hb. unfold slice.
  destruct (Z.ltb_spec a 0) as [?|_]; [lia|].
  destruct (Z.ltb_spec b 0) as [?|_]; [lia|].
  rewrite !Z.min_l by lia. split; [reflexivity|].
  rewrite length_firstn, length_skipn. lia.
Qed.

(** X19. For a scroll position inside the table, the window of rows
    that is rendered keeps the height of the table (the two paddings and
    the rows add up to 60 pixels per row of the ledger), holds at most
    21 rows, and contains every row that meets the viewport of 600
    pixels, at the offset it has in the full table. *)
Theorem virtual_window_spec (transactions : list Transaction) (scrollTop : Q) :
  (0 <= scrollTop)%Q ->
  (scrollTop <= inject_Z (ROW_HEIGHT * Z.of_nat (length transactions)))%Q ->
  let w := virtual_window transactions scrollTop in
  paddingTop w + ROW_HEIGHT * Z.of_nat (length (virtualItems w))
    + paddingBottom w
  = ROW_HEIGHT * Z.of_nat (length transactions)
  /\ (length (virtualItems w) <= 21)%nat
  /\ (forall i t,
        nth_error transactions i = Some t ->
        (inject_Z (ROW_HEIGHT * Z.of_nat i)
         < scrollTop + inject_Z VISIBLE_HEIGHT)%Q ->
        (scrollTop < inject_Z (ROW_HEIGHT * (Z.of_nat i + 1)))%Q ->
        exists j,
          nth_error (virtualItems w) j = Some t
          /\ paddingTop w + ROW_HEIGHT * Z.of_nat j
             = ROW_HEIGHT * Z.of_nat i).
Proof.
  intros Hs Hmax.
  destruct (window_indices scrollTop Hs) as (Hf & Hc1 & Hc2).
  destruct (floor_rows scrollTop) as [F1 F2].
  destruct (ceiling_rows scrollTop) as [C1 C2].
  unfold virtual_window.
  set (f := Qfloor (scrollTop / inject_Z ROW_HEIGHT)) in *.
  set (c := Qceiling ((scrollTop + inject_Z VISIBLE_HEIGHT) / inject_Z ROW_HEIGHT)) in *.
  set (n := Z.of_nat (length transactions)) in *.
  clearbody f c. unfold BUFFER, ROW_HEIGHT, VISIBLE_HEIGHT in *.
  assert (Hfn : f <= n).
  { rewrite Zle_Qle. rewrite inject_Z_mult in Hmax.
    change (inject_Z 60) with 60%Q in Hmax. lra. }
  set (a := Z.max 0 (f - 5)). set (b := Z.min n (c + 5)).
  assert (Hn : 0 <= n) by (unfold n; lia).
  destruct (slice_in_range a b transactions) as [Hsl Hlen];
    [unfold a, b; lia | unfold b; fold n; lia |].
  cbn [virtualItems paddingTop paddingBottom].
  assert (Hba : b - a <= 21) by (unfold a, b; lia).
  split; [rewrite Hlen; lia|]. split; [lia|].
  intros i t Hi Hlow Hhigh.
  assert (Hin : Z.of_nat i < n).
  { unfold n. apply Nat2Z.inj_lt. apply nth_error_Some. congruence. }
  assert (Hic : Z.of_nat i < c).
  { rewrite Zlt_Qlt. rewrite inject_Z_mult in Hlow.
    change (inject_Z 60) with 60%Q in Hlow. change (inject_Z 600) with 600%Q in Hlow.
    lra. }
  assert (Hif : f < Z.of_nat i + 1).
  { rewrite Zlt_Qlt. rewrite inject_Z_mult in Hhigh.
    change (inject_Z 60) with 60%Q in Hhigh. lra. }
  exists (i - Z.to_nat a)%nat. split.
  - rewrite Hsl, nth_error_firstn.
    destruct (Nat.ltb_spec (i - Z.to_nat a) (Z.to_nat (b - a))) as [_|?];
      [|unfold a, b in *; lia].
    rewrite nth_error_skipn. rewrite <- Hi. f_equal. unfold a. lia.
  - unfold a. lia.
Qed.

(** ** Export as text *)

Lemma length_join_with sep gs :
  length (join_with sep gs)
  = (list_sum (map (@length ascii) gs) + length sep * (length gs - 1))%nat.
Proof.
  induction gs as [|g [|g' rest] IH]; [cbn; lia | cbn; lia |].
  change (join_with sep (g :: g' :: rest))
    with (g ++ sep ++ join_with sep (g' :: rest)).
  rewrite !length_app, IH. cbn [map list_sum length].
  rewrite !Nat.sub_succ, !Nat.sub_0_r, (Nat.mul_succ_r _ (length rest)).
  change (list_sum (length g :: length g' :: map (@length ascii) rest))
    with (length g + list_sum (length g' :: map (@length ascii) rest))%nat.
  lia.
Qed.

Lemma length_padEnd s w : (length s <= w)%nat -> length (padEnd s w) = w.
Proof. intros H. unfold padEnd. rewrite length_app, repeat_length. lia. Qed.

Lemma column_max_row (rows : list (list jsstring)) (r : list jsstring)
    (i h : nat) :
  In r rows ->
  (length (nth i r []) <=
   fold_right Nat.max 0 (h :: map (fun r => length (nth i r [])) rows))%nat.
Proof.
  intros H. cbn [fold_right]. induction rows as [|r' rows IH]; [destruct H|].
  cbn [map fold_right]. destruct H as [->|H]; [lia|]. specialize (IH H). lia.
Qed.

Lemma colWidths_length rows : length (colWidths rows) = 10%nat.
Proof. reflexivity. Qed.

(** Ten cells that fit their columns are padded to the widths. *)
Lemma pad_cells_lengths (widths : list nat) (cells : list jsstring) :
  length cells = length widths ->
  (forall i, length (nth i cells []) <= nth i widths 0)%nat ->
  map (@length ascii) (pad_cells widths cells) = widths.
Proof.
  unfold pad_cells. intros Hlen Hfit.
  apply nth_ext with (d := 0%nat) (d' := 0%nat).
  - now rewrite length_map, length_imap.
  - intros n Hn. rewrite length_map, length_imap in Hn.
    rewrite (nth_indep _ 0%nat (length (@nil ascii))) by
      now rewrite length_map, length_imap.
    rewrite map_nth.
    assert (E : nth n (imap (fun i cell => padEnd cell (nth i widths 0%nat)) cells) []
                = padEnd (nth n cells []) (nth n widths 0%nat)).
    { rewrite (nth_lookup (imap _ _)), (nth_lookup cells), list_lookup_imap.
      destruct (cells !! n) as [cell|] eqn:E; [reflexivity|].
      apply lookup_ge_None in E. lia. }
    rewrite E. apply length_padEnd, Hfit.
Qed.

Lemma nth_colWidths rows i :
  (i < 10)%nat ->
  nth i (colWidths rows) 0%nat
  = fold_right Nat.max 0%nat
      (length (nth i HEADERS []) :: map (fun r => length (nth i r [])) rows).
Proof.
  intros H. do 10 (destruct i as [|i]; [reflexivity|]). lia.
Qed.

Lemma fits_columns rows cells :
  length cells = 10%nat ->
  cells = HEADERS \/ In cells rows ->
  forall i, (length (nth i cells []) <= nth i (colWidths rows) 0)%nat.
Proof.
  intros Hlen Hc i. destruct (Nat.lt_ge_cases i 10) as [Hi|Hi].
  - rewrite (nth_colWidths rows i Hi). destruct Hc as [->|Hin].
    + cbn [fold_right]. lia.
    + now apply column_max_row.
  - rewrite (nth_overflow cells) by lia. cbn. lia.
Qed.

Lemma padded_line_length rows cells :
  length cells = 10%nat ->
  cells = HEADERS \/ In cells rows ->
  length (join_with (str " | ") (pad_cells (colWidths rows) cells))
  = (list_sum (colWidths rows) + 27)%nat.
Proof.
  intros Hlen Hc. rewrite length_join_with.
  rewrite pad_cells_lengths;
    [| now rewrite colWidths_length | now apply fits_columns].
  unfold pad_cells. rewrite length_imap, Hlen. reflexivity.
Qed.

Lemma fold_lines {A} (F : A -> jsstring) rows : forall init,
  fold_left (fun txt row => txt ++ F row ++ [newline]) rows init
  = init ++ concat (map (fun l => l ++ [newline]) (map F rows)).
Proof.
  induction rows as [|r rows IH]; intros init; cbn [fold_left map concat].
  - now rewrite app_nil_r.
  - rewrite IH. now rewrite <- !app_assoc.
Qed.

Lemma free_of_app c a b : free_of c a -> free_of c b -> free_of c (a ++ b).
Proof. unfold free_of. intros Ha Hb H. apply in_app_or in H. tauto. Qed.

Lemma free_of_repeat c x n : x <> c -> free_of c (repeat x n).
Proof. intros Hx H. apply repeat_spec in H. congruence. Qed.

Lemma free_of_padEnd s w : free_of newline s -> free_of newline (padEnd s w).
Proof.
  intros H. apply free_of_app; [exact H|]. now apply free_of_repeat.
Qed.

Lemma free_of_join_with c sep gs :
  free_of c sep -> Forall (free_of c) gs -> free_of c (join_with sep gs).
Proof.
  intros Hsep. induction 1 as [|g gs Hg Hgs IH]; [intros []|].
  destruct gs as [|g' rest]; [exact Hg|].
  change (join_with sep (g :: g' :: rest))
    with (g ++ sep ++ join_with sep (g' :: rest)).
  auto using free_of_app.
Qed.

Lemma Forall_imap_intro {A B} (P : A -> Prop) (Q : B -> Prop) l :
  forall f : nat -> A -> B,
  (forall i x, P x -> Q (f i x)) -> Forall P l -> Forall Q (imap f l).
Proof.
  induction l as [|x l IH]; intros f Hf H; [constructor|].
  inversion H; subst. cbn [imap]. constructor; [now apply Hf|].
  apply IH; [|assumption]. intros i y. apply Hf.
Qed.

Lemma pad_cells_free widths cells :
  Forall (free_of newline) cells ->
  Forall (free_of newline) (pad_cells widths cells).
Proof.
  apply Forall_imap_intro. intros i cell. apply free_of_padEnd.
Qed.

Lemma free_of_check c s :
  forallb (fun x => negb (ascii_eqb x c)) s = true -> free_of c s.
Proof.
  intros H Hin. rewrite forallb_forall in H. apply H in Hin.
  assert (ascii_eqb c c = true) by now apply ascii_eqb_eq.
  destruct (ascii_eqb c c); discriminate.
Qed.

Lemma cells_check c (cells : list jsstring) :
  forallb (forallb (fun x => negb (ascii_eqb x c))) cells = true ->
  Forall (free_of c) cells.
Proof.
  intros H. apply List.Forall_forall. intros s Hs. apply free_of_check.
  rewrite forallb_forall in H. now apply H.
Qed.

Lemma rows_check c (rows : list (list jsstring)) :
  forallb (forallb (forallb (fun x => negb (ascii_eqb x c)))) rows = true ->
  Forall (Forall (free_of c)) rows.
Proof.
  intros H. apply List.Forall_forall. intros r Hr. apply cells_check.
  rewrite forallb_forall in H. now apply H.
Qed.

(** The lines of a text that is built from pieces without a line break,
    each followed by one. *)
Lemma split_lines lines :
  Forall (free_of newline) lines ->
  split newline (concat (map (fun l => l ++ [newline]) lines))
  = lines ++ [[]].
Proof.
  induction 1 as [|l lines Hl _ IH]; [reflexivity|].
  cbn [map concat]. rewrite <- app_assoc, <- app_comm_cons, app_nil_l.
  rewrite (split_app_sep newline l _ Hl), IH. reflexivity.
Qed.

(** X20. The text export of a ledger that is not empty and in which
    no cell holds a line break consists of a title line, a rule and one
    line for every row, each ended by a line break; these are the lines
    of the text, which a last, empty one follows, and they all have the
    same length: the sum of the column widths plus the nine separators
    of three characters. *)
Theorem exportToTXT_aligned show_balance (data : list Transaction) :
  data <> [] ->
  Forall (Forall (free_of newline)) (getRowsForExport show_balance data) ->
  exists content lines,
    exportToTXT show_balance data = Some content
    /\ content = concat (map (fun l => l ++ [newline]) lines)
    /\ split newline content = lines ++ [[]]
    /\ length lines = (2 + length data)%nat
    /\ forall l, In l lines ->
         length l
         = (list_sum (colWidths (getRowsForExport show_balance data)) + 27)%nat.
Proof.
  intros Hne Hfree. unfold exportToTXT.
  destruct data as [|t0 data0]; [congruence|].
  change (length (t0 :: data0) =? 0)%nat with false. cbv iota zeta.
  set (data := t0 :: data0) in *.
  set (rows := getRowsForExport show_balance data) in *.
  set (W := colWidths rows).
  set (lines :=
         join_with (str " | ") (pad_cells W HEADERS)
         :: join_with (str "-|-") (map (fun w => repeat "-"%char w) W)
         :: map (fun row => join_with (str " | ") (pad_cells W row)) rows).
  assert (Hsep : forall sep, sep = str " | " \/ sep = str "-|-" ->
                   free_of newline sep).
  { intros sep [-> | ->]; apply free_of_check; reflexivity. }
  assert (Hlines : Forall (free_of newline) lines).
  { unfold lines. constructor; [|constructor].
    - apply free_of_join_with; [apply Hsep; now left|].
      apply pad_cells_free, cells_check. reflexivity.
    - apply free_of_join_with; [apply Hsep; now right|].
      apply List.Forall_forall. intros x Hx.
      apply in_map_iff in Hx as (w & <- & _). now apply free_of_repeat.
    - apply List.Forall_forall. intros x Hx.
      apply in_map_iff in Hx as (row & <- & Hrow).
      apply free_of_join_with; [apply Hsep; now left|].
      apply pad_cells_free.
      rewrite List.Forall_forall in Hfree. now apply Hfree. }
  assert (Hcontent :
            fold_left
              (fun txtContent row =>
                 txtContent
                 ++ join_with (str " | ") (pad_cells W row) ++ [newline])
              rows
              ((join_with (str " | ") (pad_cells W HEADERS) ++ [newline])
               ++ join_with (str "-|-") (map (fun w => repeat "-"%char w) W)
               ++ [newline])
            = concat (map (fun l => l ++ [newline]) lines)).
  { rewrite fold_lines. unfold lines. cbn [map concat].
    now rewrite <- !app_assoc. }
  eexists. exists lines.
  split; [reflexivity|]. split; [exact Hcontent|].
  split; [rewrite Hcontent; now apply split_lines|]. split.
  - unfold lines. cbn [length]. unfold rows, getRowsForExport.
    now rewrite !length_map.
  - unfold lines. intros l [<-|[<-|Hl]].
    + apply padded_line_length; [reflexivity | now left].
    + rewrite length_join_with, map_map.
      rewrite (map_ext _ (fun w => w) (fun w => repeat_length "-"%char w)), map_id.
      rewrite length_map. unfold W at 2. rewrite colWidths_length. reflexivity.
    + apply in_map_iff in Hl as (row & <- & Hrow).
      apply padded_line_length; [|now right].
      unfold rows, getRowsForExport in Hrow.
      apply in_map_iff in Hrow as (t & <- & _). reflexivity.
Qed.

(** ** Edits that leave the amounts alone *)

(** X14. In a ledger with distinct identifiers and consistent
    balances, an edit made in the table to a field other than the debit
    and the credit changes no balance. *)
Theorem table_edit_keeps_balances filters id field value s :
  NoDup (map t_id (transactions (app s))) ->
  balances_consistent (transactions (app s)) ->
  field <> debit -> field <> credit ->
  map t_balance (transactions (app (table_edit filters id field value s)))
  = map t_balance (transactions (app s)).
Proof.
  intros Hnd Hc Hd Hcr. unfold table_edit.
  destruct (handleFieldChange _ _ _ _) as [[u f]|] eqn:E; [|reflexivity].
  apply handleFieldChange_row in E as (found & Hin & Hid & -> & Hu).
  apply filtered_In in Hin.
  assert (Happ : app (step s (Edit u field))
                 = fst (handleDataChange u field (app s))).
  { cbn [step]. now destruct (handleDataChange u field (app s)). }
  rewrite Happ. apply edit_keeping_amounts; [exact Hc|].
  apply List.Forall_forall. intros t Ht Heq.
  assert (t = found) as ->.
  { apply (NoDup_map_eq t_id (transactions (app s))); auto.
    rewrite Heq, Hu, set_field_id. reflexivity. }
  rewrite Hu. destruct field; try contradiction; split; reflexivity.
Qed.

Lemma table_edit_keeps_balances_witness :
  map t_balance
    (transactions
       (app (table_edit initialFilters (str "1") cnpj
               (str "11.222.333/0001-81") (mkSystem example_ingested []))))
  = map t_balance (transactions example_ingested).
Proof.
  apply (table_edit_keeps_balances initialFilters (str "1") cnpj
           (str "11.222.333/0001-81") (mkSystem example_ingested [])).
  - exact example_ingested_ids.
  - exact example_ingested_consistent.
  - discriminate.
  - discriminate.
Defined.

Lemma edit_of_unknown_id_witness :
  transactions
    (fst (handleDataChange (row_with_date "2023-12-04") description
            example_ingested))
  = transactions example_ingested.
Proof.
  apply edit_of_unknown_id.
  - repeat constructor; discriminate.
  - exact example_ingested_consistent.
Defined.

Lemma virtual_window_spec_witness :
  let rows := repeat (row_with_date "2023-12-04") 100 in
  let w := virtual_window rows (24691 # 20) in
  paddingTop w + ROW_HEIGHT * Z.of_nat (length (virtualItems w))
    + paddingBottom w
  = ROW_HEIGHT * Z.of_nat (length rows)
  /\ (length (virtualItems w) <= 21)%nat
  /\ (forall i t,
        nth_error rows i = Some t ->
        (inject_Z (ROW_HEIGHT * Z.of_nat i)
         < (24691 # 20) + inject_Z VISIBLE_HEIGHT)%Q ->
        ((24691 # 20) < inject_Z (ROW_HEIGHT * (Z.of_nat i + 1)))%Q ->
        exists j,
          nth_error (virtualItems w) j = Some t
          /\ paddingTop w + ROW_HEIGHT * Z.of_nat j
             = ROW_HEIGHT * Z.of_nat i).
Proof.
  apply (virtual_window_spec (repeat (row_with_date "2023-12-04") 100)
           (24691 # 20)).
  - discriminate.
  - discriminate.
Defined.

Lemma exportToTXT_aligned_witness :
  exists content lines,
    exportToTXT toLocaleString_ptBR (transactions example_ingested)
    = Some content
    /\ content = concat (map (fun l => l ++ [newline]) lines)
    /\ split newline content = lines ++ [[]]
    /\ length lines = (2 + length (transactions example_ingested))%nat
    /\ forall l, In l lines ->
         length l
         = (list_sum (colWidths (getRowsForExport toLocaleString_ptBR
                                   (transactions example_ingested))) + 27)%nat.
Proof.
  apply exportToTXT_aligned.
  - discriminate.
  - apply rows_check. vm_compute. reflexivity.
Defined.

(** ** What a valid amount is read as *)

Lemma span_digits_digits s :
  forallb is_digit (fst (span_digits s)) = true.
Proof.
  induction s as [|c r IH]; [reflexivity|]. cbn [span_digits].
  destruct (is_digit c) eqn:E; [|reflexivity].
  destruct (span_digits r) as [d t]. cbn [fst forallb] in *. now rewrite E.
Qed.

Lemma digits_value_nonneg ds :
  forallb is_digit ds = true -> 0 <= digits_value ds.
Proof.
  unfold digits_value.
  enough (H : forall acc, 0 <= acc -> forallb is_digit ds = true ->
                0 <= fold_left (fun acc c => 10 * acc + digit_value c) ds acc)
    by (apply H; lia).
  induction ds as [|c r IH]; intros acc Hacc Hd; [exact Hacc|].
  cbn [forallb] in Hd. apply andb_true_iff in Hd as [Hc Hr].
  cbn [fold_left]. apply IH; [|exact Hr].
  pose proof (digit_value_range c Hc). lia.
Qed.

Lemma decimal_value_nonneg ip fp rest :
  forallb is_digit ip = true -> forallb is_digit fp = true ->
  decimal_value ip fp rest = PosInf
  \/ exists q, decimal_value ip fp rest = Num q /\ (0 <= q)%Q.
Proof.
  intros Hi Hf. unfold decimal_value. apply fl_nonneg.
  apply Qmult_le_0_compat.
  - change 0%Q with (inject_Z 0). rewrite <- Zle_Qle.
    apply digits_value_nonneg. now rewrite forallb_app, Hi, Hf.
  - apply Qlt_le_weak, Qpower_0_lt. reflexivity.
Qed.

(** A literal without sign is never read as a negative number. *)
Lemma unsigned_literal_nonneg s :
  is_prefix (str "Infinity") s = false ->
  unsigned_literal s = NaN
  \/ unsigned_literal s = PosInf
  \/ exists q, unsigned_literal s = Num q /\ (0 <= q)%Q.
Proof.
  intros Hinf. unfold unsigned_literal. rewrite Hinf.
  pose proof (span_digits_digits s) as Hip.
  destruct (span_digits s) as [ip s2]. cbn [fst] in Hip.
  destruct (after_char "." s2) as [r|].
  - pose proof (span_digits_digits r) as Hfp.
    destruct (span_digits r) as [fp s3]. cbn [fst] in Hfp.
    destruct (is_empty ip && is_empty fp); [now left|].
    right. now apply decimal_value_nonneg.
  - destruct (is_empty ip); [now left|].
    right. now apply decimal_value_nonneg.
Qed.

Lemma trimStart_split s :
  exists sp, s = sp ++ trimStart s /\ forallb is_space sp = true.
Proof.
  induction s as [|c r (sp & E & Hsp)]; [now exists []|].
  cbn [trimStart]. destruct (is_space c) eqn:Ec.
  - exists (c :: sp). split; [now rewrite <- app_comm_cons, <- E|].
    cbn [forallb]. now rewrite Ec.
  - now exists [].
Qed.

Lemma trim_chars c s :
  In c s -> is_space c = true \/ In c (trim s).
Proof.
  intros Hin. unfold trim, trimEnd.
  destruct (trimStart_split s) as (sp & E & Hsp).
  destruct (trimStart_split (rev (trimStart s))) as (sp' & E' & Hsp').
  rewrite E in Hin. apply in_app_or in Hin as [Hin|Hin].
  - left. rewrite forallb_forall in Hsp. now apply Hsp.
  - apply in_rev in Hin. rewrite E' in Hin. apply in_app_or in Hin as [Hin|Hin].
    + left. rewrite forallb_forall in Hsp'. now apply Hsp'.
    + right. now apply in_rev in Hin.
Qed.

Lemma trimStart_chars c s : In c (trimStart s) -> In c s.
Proof.
  intros H. destruct (trimStart_split s) as (sp & E & _).
  rewrite E. apply in_or_app. now right.
Qed.

Lemma replace_comma_chars c s :
  In c (replace_comma s) -> c = "."%char \/ In c s.
Proof.
  induction s as [|x r IH]; [intros []|]. cbn [replace_comma].
  destruct (ascii_eqb x ","); intros [<-|H]; auto.
  - right. now right.
  - right. now left.
  - destruct (IH H); auto. right. now right.
Qed.

Lemma normalized_chars c s :
  In c (trimStart (replace_comma (remove_dots s))) ->
  c = "."%char \/ In c s.
Proof.
  intros H. apply trimStart_chars, replace_comma_chars in H as [H|H]; [now left|].
  right. unfold remove_dots in H. now apply filter_In in H as [H _].
Qed.

(** The characters of a value that [validateCurrency] accepts. *)
Lemma valid_amount_chars s c :
  isValid (validateCurrency s) = true -> In c s ->
  is_space c = true \/ is_currency_char c = true.
Proof.
  intros Hv Hin. unfold validateCurrency in Hv.
  destruct (trim_chars c s Hin) as [Hs|Ht]; [now left|]. right.
  destruct (is_empty s || is_empty (trim s)) eqn:E.
  - apply orb_true_iff in E as [E|E].
    + destruct s; [destruct Hin | discriminate E].
    + destruct (trim s); [destruct Ht | discriminate E].
  - destruct (forallb is_currency_char (trim s)) eqn:F; [|discriminate Hv].
    rewrite forallb_forall in F. now apply F.
Qed.

Lemma head_not_in c s r : ~ In c s -> after_char c s = Some r -> False.
Proof.
  unfold after_char. destruct s as [|x t]; [discriminate|].
  destruct (ascii_eqb x c) eqn:E; [|discriminate].
  apply ascii_eqb_eq in E. subst x. intros H _. apply H. now left.
Qed.

Lemma valid_amount_read s :
  isValid (validateCurrency s) = true ->
  parseCurrency s = PosInf
  \/ exists q, parseCurrency s = Num q /\ (0 <= q)%Q.
Proof.
  intros Hv. unfold parseCurrency.
  destruct (is_empty s);
    [right; exists 0%Q; split; [reflexivity | discriminate]|].
  set (n := trimStart (replace_comma (remove_dots s))).
  assert (Hchars : forall c, In c n ->
            is_space c = true \/ is_currency_char c = true).
  { intros c Hc. apply normalized_chars in Hc as [->|Hc]; [now right|].
    now apply (valid_amount_chars s). }
  assert (Hnot : forall c, is_space c = false -> is_currency_char c = false ->
            ~ In c n).
  { intros c H1 H2 Hin. destruct (Hchars c Hin); congruence. }
  unfold parseFloat. fold n.
  destruct (after_char "+" n) as [r|] eqn:Ep.
  { exfalso. apply (head_not_in "+" n r); [now apply Hnot | exact Ep]. }
  destruct (after_char "-" n) as [r|] eqn:Em.
  { exfalso. apply (head_not_in "-" n r); [now apply Hnot | exact Em]. }
  assert (Hinf : is_prefix (str "Infinity") n = false).
  { destruct n as [|x t] eqn:En; [reflexivity|].
    change (str "Infinity") with ("I"%char :: str "nfinity"). cbn [is_prefix].
    destruct (ascii_eqb "I" x) eqn:E; [|reflexivity].
    apply ascii_eqb_eq in E. subst x.
    exfalso. apply (Hnot "I"%char); [reflexivity | reflexivity | now left]. }
  destruct (unsigned_literal_nonneg n Hinf) as [-> | [-> | (q & -> & Hq)]].
  - right. exists 0%Q. split; [reflexivity | discriminate].
  - now left.
  - right. exists q. split; [reflexivity | exact Hq].
Qed.

(** X21. A debit or credit that [validateCurrency] accepts is read by
    [parseCurrency] as a number that is not negative: a finite one, or
    the positive infinity, which is what 310 digits 9, a valid amount,
    are read as. *)
Theorem valid_amount_nonnegative :
  (forall s : jsstring,
      isValid (validateCurrency s) = true ->
      parseCurrency s = PosInf
      \/ exists q, parseCurrency s = Num q /\ (0 <= q)%Q)
  /\ isValid (validateCurrency (str " 1.234,5 ")) = true
  /\ parseCurrency (str " 1.234,5 ") = fl (12345 # 10)
  /\ isValid (validateCurrency (repeat "9"%char 310)) = true
  /\ parseCurrency (repeat "9"%char 310) = PosInf.
Proof.
  split; [exact valid_amount_read|].
  repeat split; vm_compute; reflexivity.
Qed.

(** ** The order of dates *)

Lemma ltb_digits4 a b c d a' b' c' d' :
  forallb is_digit [a; b; c; d; a'; b'; c'; d'] = true ->
  forall r r',
  jsstring_ltb (a :: b :: c :: d :: "-"%char :: r)
               (a' :: b' :: c' :: d' :: "-"%char :: r') = true
  <-> digits_value [a; b; c; d] < digits_value [a'; b'; c'; d']
      \/ (digits_value [a; b; c; d] = digits_value [a'; b'; c'; d']
          /\ jsstring_ltb r r' = true).
Proof.
  intros H r r'. cbn [forallb] in H. rewrite !andb_true_iff in H.
  destruct H as (A & B & C & D & A' & B' & C' & D' & _).
  apply is_digit_code in A, B, C, D, A', B', C', D'.
  cbn [jsstring_ltb]. change (code "-") with 45.
  change (45 <? 45) with false. change (45 =? 45) with true.
  cbn [orb andb].
  unfold digits_value, digit_value. cbn [fold_left].
  rewrite !orb_true_iff, !andb_true_iff, !orb_true_iff, !andb_true_iff,
    !Z.ltb_lt, !Z.eqb_eq.
  destruct (jsstring_ltb r r'); intuition lia.
Qed.

Lemma ltb_digits2 a b a' b' :
  forallb is_digit [a; b; a'; b'] = true ->
  forall r r',
  jsstring_ltb (a :: b :: "-"%char :: r) (a' :: b' :: "-"%char :: r') = true
  <-> digits_value [a; b] < digits_value [a'; b']
      \/ (digits_value [a; b] = digits_value [a'; b']
          /\ jsstring_ltb r r' = true).
Proof.
  intros H r r'. cbn [forallb] in H. rewrite !andb_true_iff in H.
  destruct H as (A & B & A' & B' & _).
  apply is_digit_code in A, B, A', B'.
  cbn [jsstring_ltb]. change (code "-") with 45.
  change (45 <? 45) with false. change (45 =? 45) with true.
  cbn [orb andb].
  unfold digits_value, digit_value. cbn [fold_left].
  rewrite !orb_true_iff, !andb_true_iff, !orb_true_iff, !andb_true_iff,
    !Z.ltb_lt, !Z.eqb_eq.
  destruct (jsstring_ltb r r'); intuition lia.
Qed.

Lemma ltb_digits2_end a b a' b' :
  forallb is_digit [a; b; a'; b'] = true ->
  jsstring_ltb [a; b] [a'; b'] = true
  <-> digits_value [a; b] < digits_value [a'; b'].
Proof.
  intros H. cbn [forallb] in H. rewrite !andb_true_iff in H.
  destruct H as (A & B & A' & B' & _).
  apply is_digit_code in A, B, A', B'.
  cbn [jsstring_ltb]. rewrite andb_false_r, orb_false_r.
  unfold digits_value, digit_value. cbn [fold_left].
  rewrite !orb_true_iff, !andb_true_iff, !Z.ltb_lt, !Z.eqb_eq. lia.
Qed.

(** Texts of the form YYYY-MM-DD are ordered as the dates they denote. *)
Lemma date_texts_order y1 y2 y3 y4 m1 m2 d1 d2 y1' y2' y3' y4' m1' m2' d1' d2' :
  forallb is_digit [y1; y2; y3; y4; m1; m2; d1; d2] = true ->
  forallb is_digit [y1'; y2'; y3'; y4'; m1'; m2'; d1'; d2'] = true ->
  jsstring_ltb [y1; y2; y3; y4; "-"%char; m1; m2; "-"%char; d1; d2]
               [y1'; y2'; y3'; y4'; "-"%char; m1'; m2'; "-"%char; d1'; d2'] = true
  <-> date_lt (digits_value [y1; y2; y3; y4]) (digits_value [m1; m2])
              (digits_value [d1; d2])
              (digits_value [y1'; y2'; y3'; y4']) (digits_value [m1'; m2'])
              (digits_value [d1'; d2']).
Proof.
  intros H H'. cbn [forallb] in H, H'. rewrite !andb_true_iff in H, H'.
  destruct H as (A & B & C & D & E & F & G & I & _).
  destruct H' as (A' & B' & C' & D' & E' & F' & G' & I' & _).
  rewrite ltb_digits4 by (cbn [forallb]; now rewrite A, B, C, D, A', B', C', D').
  rewrite ltb_digits2 by (cbn [forallb]; now rewrite E, F, E', F').
  rewrite ltb_digits2_end by (cbn [forallb]; now rewrite G, I, G', I').
  unfold date_lt. tauto.
Qed.

(** The months, one at a time. *)
Lemma month_start_table leap :
  month_start leap 0 = 0 /\ month_start leap 1 = 31
  /\ month_start leap 2 = 59 + leap /\ month_start leap 3 = 90 + leap
  /\ month_start leap 4 = 120 + leap /\ month_start leap 5 = 151 + leap
  /\ month_start leap 6 = 181 + leap /\ month_start leap 7 = 212 + leap
  /\ month_start leap 8 = 243 + leap /\ month_start leap 9 = 273 + leap
  /\ month_start leap 10 = 304 + leap /\ month_start leap 11 = 334 + leap
  /\ month_start leap 12 = 365 + leap.
Proof. repeat split. Qed.

Lemma days_in_month_table y :
  days_in_month y 1 = 31
  /\ days_in_month y 2 = (if is_leap_year y then 29 else 28)
  /\ days_in_month y 3 = 31 /\ days_in_month y 4 = 30
  /\ days_in_month y 5 = 31 /\ days_in_month y 6 = 30
  /\ days_in_month y 7 = 31 /\ days_in_month y 8 = 31
  /\ days_in_month y 9 = 30 /\ days_in_month y 10 = 31
  /\ days_in_month y 11 = 30 /\ days_in_month y 12 = 31.
Proof. repeat split. Qed.

(** The day on which the next month starts is past the last day of the
    month. *)
Lemma month_span y m d :
  real_date y m d ->
  let leap := if is_leap_year y then 1 else 0 in
  0 <= month_start leap (m - 1)
  /\ month_start leap (m - 1) + d - 1 < month_start leap m
  /\ month_start leap m <= 365 + leap.
Proof.
  intros [Hm Hd] leap.
  destruct (month_start_table leap)
    as (S0 & S1 & S2 & S3 & S4 & S5 & S6 & S7 & S8 & S9 & S10 & S11 & S12).
  destruct (days_in_month_table y)
    as (D1 & D2 & D3 & D4 & D5 & D6 & D7 & D8 & D9 & D10 & D11 & D12).
  assert (Hl : 0 <= leap <= 1) by (unfold leap; destruct (is_leap_year y); lia).
  assert (m = 1 \/ m = 2 \/ m = 3 \/ m = 4 \/ m = 5 \/ m = 6 \/ m = 7
          \/ m = 8 \/ m = 9 \/ m = 10 \/ m = 11 \/ m = 12) as Hcases by lia.
  unfold leap in *.
  repeat (destruct Hcases as [-> | Hcases];
          [change (1 - 1) with 0; change (2 - 1) with 1; change (3 - 1) with 2;
           change (4 - 1) with 3; change (5 - 1) with 4; change (6 - 1) with 5;
           change (7 - 1) with 6; change (8 - 1) with 7; change (9 - 1) with 8;
           change (10 - 1) with 9; change (11 - 1) with 10;
           destruct (is_leap_year y); lia|]).
  subst m. change (12 - 1) with 11. destruct (is_leap_year y); lia.
Qed.

Lemma month_start_mono leap m m' :
  0 <= leap <= 1 -> 0 <= m <= m' -> m' <= 12 ->
  month_start leap m <= month_start leap m'.
Proof.
  intros Hl Hm Hm'.
  destruct (month_start_table leap)
    as (S0 & S1 & S2 & S3 & S4 & S5 & S6 & S7 & S8 & S9 & S10 & S11 & S12).
  assert (m = 0 \/ m = 1 \/ m = 2 \/ m = 3 \/ m = 4 \/ m = 5 \/ m = 6 \/ m = 7
          \/ m = 8 \/ m = 9 \/ m = 10 \/ m = 11 \/ m = 12) as Hc by lia.
  assert (m' = 0 \/ m' = 1 \/ m' = 2 \/ m' = 3 \/ m' = 4 \/ m' = 5 \/ m' = 6
          \/ m' = 7 \/ m' = 8 \/ m' = 9 \/ m' = 10 \/ m' = 11 \/ m' = 12)
    as Hc' by lia.
  repeat (destruct Hc as [-> | Hc]); try subst m;
    repeat (destruct Hc' as [-> | Hc']); try subst m'; lia.
Qed.

(** Within a year, and from a year to the next, the day numbers of the
    dates of the calendar follow the order of the dates. *)
Lemma day_number_range y m d :
  real_date y m d ->
  DayFromYear y <= day_number y m d < DayFromYear (y + 1).
Proof.
  intros H. pose proof (month_span y m d H) as (A & B & C). cbv zeta in *.
  unfold day_number. rewrite DayFromYear_succ, leap_DaysInYear.
  destruct H as [_ Hd]. destruct (is_leap_year y); lia.
Qed.

Lemma day_number_same_year y m d m' d' :
  real_date y m d -> real_date y m' d' ->
  m < m' \/ (m = m' /\ d < d') ->
  day_number y m d < day_number y m' d'.
Proof.
  intros H H' Hlt. unfold day_number.
  destruct Hlt as [Hlt | [<- Hlt]]; [|lia].
  pose proof (month_span y m d H) as (A & B & C). cbv zeta in *.
  assert (Hmono : month_start (if is_leap_year y then 1 else 0) m
                  <= month_start (if is_leap_year y then 1 else 0) (m' - 1)).
  { destruct H as [Hm _], H' as [Hm' _].
    apply month_start_mono; [destruct (is_leap_year y); lia | lia | lia]. }
  destruct H' as [_ Hd']. lia.
Qed.

Lemma day_number_order y m d y' m' d' :
  real_date y m d -> real_date y' m' d' ->
  date_lt y m d y' m' d' <-> day_number y m d < day_number y' m' d'.
Proof.
  intros H H'.
  assert (Hlt : forall y m d y' m' d',
            real_date y m d -> real_date y' m' d' ->
            date_lt y m d y' m' d' -> day_number y m d < day_number y' m' d').
  { clear. intros y m d y' m' d' H H' [Hy | [<- Hmd]].
    - pose proof (day_number_range y m d H).
      pose proof (day_number_range y' m' d' H').
      pose proof (DayFromYear_mono (y + 1) y' ltac:(lia)). lia.
    - now apply day_number_same_year. }
  split; [now apply Hlt|]. intros Hn.
  assert (Htri : date_lt y m d y' m' d' \/ (y = y' /\ m = m' /\ d = d')
                 \/ date_lt y' m' d' y m d) by (unfold date_lt; lia).
  destruct Htri as [? | [(-> & -> & ->) | Hgt]]; [assumption | lia |].
  apply (Hlt _ _ _ _ _ _ H' H) in Hgt. lia.
Qed.

(** The time value of a valid date, on any engine. *)
Lemma valid_date_time e s :
  isValid (validateDate s) = true ->
  exists y1 y2 y3 y4 m1 m2 d1 d2,
    forallb is_digit [y1; y2; y3; y4; m1; m2; d1; d2] = true
    /\ s = [y1; y2; y3; y4; "-"%char; m1; m2; "-"%char; d1; d2]
    /\ real_date (digits_value [y1; y2; y3; y4]) (digits_value [m1; m2])
         (digits_value [d1; d2])
    /\ Date_parse e (s ++ str "T00:00:00Z")
       = Some (day_number (digits_value [y1; y2; y3; y4])
                 (digits_value [m1; m2]) (digits_value [d1; d2]) * msPerDay).
Proof.
  intros Hv.
  assert (Hshape : date_regex s = true).
  { unfold validateDate, validateDate_on in Hv.
    destruct (is_empty s); [discriminate|].
    destruct (date_regex s); [reflexivity | discriminate]. }
  apply date_regex_shape in Hshape
    as (y1 & y2 & y3 & y4 & m1 & m2 & d1 & d2 & Hd & ->).
  exists y1, y2, y3, y4, m1, m2, d1, d2.
  apply (validateDate_digits_spec _ _ _ _ _ _ _ _ Hd) in Hv.
  split; [exact Hd|]. split; [reflexivity|]. split; [exact Hv|].
  rewrite (Date_parse_midnight _ _ _ _ _ _ _ _ Hd).
  pose proof Hd as Hd'. cbn [forallb] in Hd'. rewrite !andb_true_iff in Hd'.
  destruct Hd' as (A & B & C & D & E & F & G & H & _).
  pose proof (digits_value_4 _ _ _ _ A B C D) as Hy.
  set (y := digits_value [y1; y2; y3; y4]) in *.
  set (m := digits_value [m1; m2]) in *.
  set (d := digits_value [d1; d2]) in *.
  destruct Hv as [Hm Hday].
  assert (Hmax : days_in_month y m <= 31).
  { unfold days_in_month.
    destruct ((m =? 4) || (m =? 6) || (m =? 9) || (m =? 11)); [lia|].
    destruct (m =? 2); [destruct (is_leap_year y); lia | lia]. }
  assert (in_format_range m d = true) as ->.
  { unfold in_format_range. rewrite !andb_true_iff, !Z.leb_le. lia. }
  assert (day_accepted e y m d = true) as ->.
  { destruct e; [reflexivity|].
    rewrite day_accepted_rejects by exact Hm. apply Z.leb_le. lia. }
  cbn [andb]. rewrite TimeClip_date by lia.
  rewrite MakeDay_in_range by exact Hm. unfold MakeDate, day_number.
  f_equal. lia.
Qed.

(** X23. Valid dates are ordered as texts, which is how the filter
    compares them, exactly as the dates they denote are ordered in
    time. *)
Theorem date_order_is_chronological (e : engine) (s1 s2 : jsstring) :
  isValid (validateDate s1) = true ->
  isValid (validateDate s2) = true ->
  exists t1 t2,
    Date_parse e (s1 ++ str "T00:00:00Z") = Some t1
    /\ Date_parse e (s2 ++ str "T00:00:00Z") = Some t2
    /\ (jsstring_ltb s1 s2 = true <-> t1 < t2)
    /\ (s1 = s2 <-> t1 = t2).
Proof.
  intros H1 H2.
  destruct (valid_date_time e s1 H1)
    as (y1 & y2 & y3 & y4 & m1 & m2 & d1 & d2 & Hd & -> & Hr & ->).
  destruct (valid_date_time e s2 H2)
    as (y1' & y2' & y3' & y4' & m1' & m2' & d1' & d2' & Hd' & -> & Hr' & ->).
  eexists _, _. split; [reflexivity|]. split; [reflexivity|].
  pose proof (date_texts_order _ _ _ _ _ _ _ _ _ _ _ _ _ _ _ _ Hd Hd') as Hord.
  pose proof (day_number_order _ _ _ _ _ _ Hr Hr') as Hnum.
  pose proof (day_number_order _ _ _ _ _ _ Hr' Hr) as Hnum'.
  pose proof (date_texts_order _ _ _ _ _ _ _ _ _ _ _ _ _ _ _ _ Hd' Hd) as Hord'.
  unfold msPerDay. split.
  - rewrite Hord, Hnum. lia.
  - split.
    + intros E. injection E as -> -> -> -> -> -> -> ->. reflexivity.
    + intros E.
      set (a := [y1; y2; y3; y4; "-"%char; m1; m2; "-"%char; d1; d2]) in *.
      set (b := [y1'; y2'; y3'; y4'; "-"%char; m1'; m2'; "-"%char; d1'; d2']) in *.
      assert (Hn : ~ lex_lt a b).
      { intros Hlt. apply jsstring_ltb_spec, Hord, Hnum in Hlt. lia. }
      apply lex_total in Hn. destruct Hn as [Heq | Hgt].
      * now symmetry.
      * apply jsstring_ltb_spec, Hord', Hnum' in Hgt. lia.
Qed.

Lemma date_order_is_chronological_witness :
  exists t1 t2,
    Date_parse carries_day (str "2024-02-29" ++ str "T00:00:00Z") = Some t1
    /\ Date_parse carries_day (str "2024-03-01" ++ str "T00:00:00Z") = Some t2
    /\ (jsstring_ltb (str "2024-02-29") (str "2024-03-01") = true <-> t1 < t2)
    /\ (str "2024-02-29" = str "2024-03-01" <-> t1 = t2).
Proof. apply date_order_is_chronological; reflexivity. Defined.
